(** * Generative-model gateway of the note-processing assistant

    A shallow embedding of the gateway functions of [index.tsx]
    ([cleanEnv], [getBackendErrorMessage], [callGenerativeAi],
    [callGenerativeAiStream], [callOpenAiCompatibleApiStream],
    [parseJsonResponse], [parseAuditResponse], [handleAuditAll],
    [handleStartRoaming]) and of the functions of the views around them
    ([debounce], [frontendApiConfig], [callOpenAiCompatibleApi],
    [handleFocus], [handleSendChatMessage], [handleAudit],
    [allIssuesWithIds], [renderOriginalTextWithHighlight]), together with
    the pieces of the JavaScript
    platform they rest on (strings of UTF-16 code units, [TextDecoder],
    [JSON.parse], [JSON.stringify]).

    Conventions.
    - A JavaScript string is the list of its UTF-16 code units, each an [N].
    - [undefined] is [None]; a JSON value is an inhabitant of [JSON].
    - A JavaScript number is a double: a JSON literal denotes the double
      nearest to it (ties to the even significand), an infinity beyond the
      range of a double and zero below it. A finite double is kept as the
      shortest decimal that is rounded to it, which is the one
      [Number::toString] writes. The sign of zero is not represented.
    - The value a call of the model is fulfilled with is a value of any
      type, as it is at run time, whatever type is declared for it.
    - An async function is modelled by the value its promise settles to,
      with the network answers it awaits passed in as arguments. *)

From Stdlib Require Import ZArith NArith List String Ascii Lia Bool DecimalN.
From Stdlib.Strings Require Import Byte.
From stdpp Require Import base option list finite gmap.

Set Default Proof Using "Type".

(** A JavaScript string: its UTF-16 code units. *)
Abbreviation jsstring := (list N).

(* ================================================================== *)
(** * TextDecoder: the streaming UTF-8 decoder *)
(* ================================================================== *)

Module TextDecoder.

(** State of the UTF-8 decoder between two bytes (and between two reads
    when [decode] is called with [{stream: true}]). *)
Record utf8_state := Utf8State {
  code_point : N;
  bytes_seen : N;
  bytes_needed : N;
  lower_boundary : N;
  upper_boundary : N
}.

Definition utf8_init : utf8_state := Utf8State 0 0 0 0x80 0xBF.

Definition between (lo hi b : N) : bool := (lo <=? b)%N && (b <=? hi)%N.

(** A byte read while no sequence is pending. *)
Definition utf8_lead (b : N) : utf8_state * list N :=
  if (b <=? 0x7F)%N then (utf8_init, [b])
  else if between 0xC2 0xDF b then
    (Utf8State (N.land b 0x1F) 0 1 0x80 0xBF, [])
  else if between 0xE0 0xEF b then
    (Utf8State (N.land b 0xF) 0 2
       (if (b =? 0xE0)%N then 0xA0 else 0x80)
       (if (b =? 0xED)%N then 0x9F else 0xBF), [])
  else if between 0xF0 0xF4 b then
    (Utf8State (N.land b 0x7) 0 3
       (if (b =? 0xF0)%N then 0x90 else 0x80)
       (if (b =? 0xF4)%N then 0x8F else 0xBF), [])
  else (utf8_init, [0xFFFD%N]).

(** One byte: the new state and the code points it completes. A byte that
    cannot continue the pending sequence yields U+FFFD and is then read
    again as a lead byte. *)
Definition utf8_step (st : utf8_state) (b : N) : utf8_state * list N :=
  if (bytes_needed st =? 0)%N then utf8_lead b
  else if negb (between (lower_boundary st) (upper_boundary st) b) then
    let '(st', out) := utf8_lead b in (st', 0xFFFD%N :: out)
  else
    let cp := N.lor (N.shiftl (code_point st) 6) (N.land b 0x3F) in
    if (bytes_seen st + 1 =? bytes_needed st)%N then (utf8_init, [cp])
    else (Utf8State cp (bytes_seen st + 1) (bytes_needed st) 0x80 0xBF, []).

(** A code point as UTF-16 code units. *)
Definition utf16_of_code_point (cp : N) : jsstring :=
  if (cp <? 0x10000)%N then [cp]
  else
    let c := (cp - 0x10000)%N in
    [(0xD800 + N.shiftr c 10)%N; (0xDC00 + N.land c 0x3FF)%N].

(** The decoder object: the UTF-8 state and the BOM-seen flag. *)
Record t := Decoder { utf8 : utf8_state; bom_seen : bool }.

(** [new TextDecoder()] *)
Definition new : t := Decoder utf8_init false.

(** Output of one code point: the first one is dropped when it is the
    byte order mark. *)
Definition emit (seen : bool) (cp : N) : bool * jsstring :=
  if seen then (true, utf16_of_code_point cp)
  else if (cp =? 0xFEFF)%N then (true, [])
  else (true, utf16_of_code_point cp).

Fixpoint emit_all (seen : bool) (cps : list N) : bool * jsstring :=
  match cps with
  | [] => (seen, [])
  | cp :: rest =>
      let '(seen1, o1) := emit seen cp in
      let '(seen2, o2) := emit_all seen1 rest in
      (seen2, o1 ++ o2)
  end.

Definition step (d : t) (b : byte) : t * jsstring :=
  let '(st, cps) := utf8_step (utf8 d) (Byte.to_N b) in
  let '(seen, out) := emit_all (bom_seen d) cps in
  (Decoder st seen, out).

(** [decoder.decode(value, {stream: true})]: the bytes of one read are fed
    to the decoder, an incomplete trailing sequence stays in its state. *)
Fixpoint decode (d : t) (value : list byte) : t * jsstring :=
  match value with
  | [] => (d, [])
  | b :: rest =>
      let '(d1, o1) := step d b in
      let '(d2, o2) := decode d1 rest in
      (d2, o1 ++ o2)
  end.

End TextDecoder.

(** The code units of a string literal of this file (which is UTF-8). *)
Definition js (s : string) : jsstring :=
  (TextDecoder.decode (TextDecoder.Decoder TextDecoder.utf8_init true)
     (list_byte_of_string s)).2.

(* ================================================================== *)
(** * String.prototype *)
(* ================================================================== *)

Module Str.

(** WhiteSpace and LineTerminator code units: what [trim] removes and what
    [\s] matches. *)
Definition isWhiteSpace (c : N) : bool :=
  TextDecoder.between 9 13 c || (c =? 32)%N || (c =? 0xA0)%N
  || (c =? 0x1680)%N || TextDecoder.between 0x2000 0x200A c
  || (c =? 0x2028)%N || (c =? 0x2029)%N || (c =? 0x202F)%N
  || (c =? 0x205F)%N || (c =? 0x3000)%N || (c =? 0xFEFF)%N.

Fixpoint dropWhile (p : N -> bool) (s : jsstring) : jsstring :=
  match s with
  | [] => []
  | c :: rest => if p c then dropWhile p rest else s
  end.

Definition dropWhileEnd (p : N -> bool) (s : jsstring) : jsstring :=
  rev (dropWhile p (rev s)).

Definition trimStart (s : jsstring) : jsstring := dropWhile isWhiteSpace s.
Definition trimEnd (s : jsstring) : jsstring := dropWhileEnd isWhiteSpace s.
Definition trim (s : jsstring) : jsstring := trimEnd (trimStart s).

Fixpoint eqb (a b : jsstring) : bool :=
  match a, b with
  | [], [] => true
  | x :: a', y :: b' => (x =? y)%N && eqb a' b'
  | _, _ => false
  end.

Fixpoint startsWith (s prefix : jsstring) {struct prefix} : bool :=
  match prefix, s with
  | [], _ => true
  | p :: prefix', c :: s' => (c =? p)%N && startsWith s' prefix'
  | _ :: _, [] => false
  end.

(** [s.indexOf(pat)], [None] for -1. *)
Fixpoint indexOf (s pat : jsstring) : option nat :=
  if startsWith s pat then Some 0%nat
  else match s with
       | [] => None
       | _ :: rest => S <$> indexOf rest pat
       end.

Definition includes (s pat : jsstring) : bool :=
  match indexOf s pat with Some _ => true | None => false end.

(** [s.indexOf(c)] and [s.lastIndexOf(c)] for a single code unit. *)
Fixpoint indexOfChar (s : jsstring) (c : N) : option nat :=
  match s with
  | [] => None
  | x :: rest => if (x =? c)%N then Some 0%nat else S <$> indexOfChar rest c
  end.

Fixpoint lastIndexOfChar (s : jsstring) (c : N) : option nat :=
  match s with
  | [] => None
  | x :: rest =>
      match lastIndexOfChar rest c with
      | Some i => Some (S i)
      | None => if (x =? c)%N then Some 0%nat else None
      end
  end.

(** [s.substring(start, end)] for [start <= end]. *)
Definition substring (s : jsstring) (start end_ : nat) : jsstring :=
  take (end_ - start) (drop start s).

(** [s.split('\n')]: the pieces between line feeds, at least one. *)
Fixpoint split_lf (s : jsstring) : list jsstring :=
  match s with
  | [] => [[]]
  | c :: rest =>
      if (c =? 10)%N then [] :: split_lf rest
      else match split_lf rest with
           | [] => [[c]]
           | piece :: pieces => (c :: piece) :: pieces
           end
  end.

End Str.

(* ================================================================== *)
(** * JSON values, JSON.parse and JSON.stringify *)
(* ================================================================== *)

(** A number. A finite number, which is a double, is kept as the decimal
    with the fewest digits that is rounded to it, which is the one that
    [Number::toString] writes: [digits] are the significant decimal
    digits, most significant first, without leading or trailing zero;
    [exp10] is the power of ten of the last digit; zero has no digit.
    [Infinity] is what a literal beyond the range of a double denotes. *)
Inductive number :=
  | Number (negative : bool) (digits : list N) (exp10 : Z)
  | Infinity (negative : bool).

(** What [JSON.parse] returns. The properties of an object are kept in
    property order. *)
#[warnings="-register-all"]
Inductive json :=
  | JNull
  | JBool (b : bool)
  | JNumber (n : number)
  | JString (s : jsstring)
  | JArray (items : list json)
  | JObject (props : list (jsstring * json)).

(** The digits of a decimal numeral of the standard library. *)
Fixpoint uintDigits (u : Decimal.uint) : list N :=
  match u with
  | Decimal.Nil => []
  | Decimal.D0 u' => 0%N :: uintDigits u'
  | Decimal.D1 u' => 1%N :: uintDigits u'
  | Decimal.D2 u' => 2%N :: uintDigits u'
  | Decimal.D3 u' => 3%N :: uintDigits u'
  | Decimal.D4 u' => 4%N :: uintDigits u'
  | Decimal.D5 u' => 5%N :: uintDigits u'
  | Decimal.D6 u' => 6%N :: uintDigits u'
  | Decimal.D7 u' => 7%N :: uintDigits u'
  | Decimal.D8 u' => 8%N :: uintDigits u'
  | Decimal.D9 u' => 9%N :: uintDigits u'
  end.

Module JSON.

(** ** Lexical helpers *)

Definition isJsonWhiteSpace (c : N) : bool :=
  (c =? 9)%N || (c =? 10)%N || (c =? 13)%N || (c =? 32)%N.

Definition skipWs (s : jsstring) : jsstring := Str.dropWhile isJsonWhiteSpace s.

Definition isDigit (c : N) : bool := TextDecoder.between 48 57 c.

(** The longest prefix of decimal digits, as digit values, and the rest. *)
Fixpoint spanDigits (s : jsstring) : list N * jsstring :=
  match s with
  | c :: rest =>
      if isDigit c then
        let '(ds, r) := spanDigits rest in ((c - 48)%N :: ds, r)
      else ([], s)
  | [] => ([], [])
  end.

Definition digitsToN (ds : list N) : N :=
  fold_left (fun acc d => (10 * acc + d)%N) ds 0%N.

Definition isZeroDigit (d : N) : bool := (d =? 0)%N.

(** The decimal [ds * 10^e] in canonical form. *)
Definition mkNumber (neg : bool) (ds : list N) (e : Z) : number :=
  let ds1 := Str.dropWhile isZeroDigit ds in
  let ds2 := Str.dropWhileEnd isZeroDigit ds1 in
  match ds2 with
  | [] => Number false [] 0
  | _ => Number neg ds2 (e + Z.of_nat (length ds1 - length ds2))
  end.

(** ** Numbers as doubles *)

(** What a decimal is rounded to: zero, an infinity, or the double
    [mant * 2^exp2], where [2^52 <= mant < 2^53], or [mant < 2^52] and
    [exp2 = -1074] for a subnormal number. *)
Inductive Rounded :=
  | ToZero
  | ToInfinity
  | ToDouble (mant : N) (exp2 : Z).

Definition Rounded_eqb (a b : Rounded) : bool :=
  match a, b with
  | ToZero, ToZero => true
  | ToInfinity, ToInfinity => true
  | ToDouble m q, ToDouble m' q' => (m =? m')%N && (q =? q')%Z
  | _, _ => false
  end.

(** The Number value for the decimal [m * 10^e]: the double next to it,
    the one with the even significand when two are equally near; the
    value [2^1024] counts as a double with an even significand and
    becomes an infinity. The decimal is the fraction [num / den]; [b] is
    its binary exponent, [2^b <= num / den < 2^(b + 1)]. *)
Definition roundDecimal (m : N) (e : Z) : Rounded :=
  let num := if (0 <=? e)%Z then (Z.of_N m * 10 ^ e)%Z else Z.of_N m in
  let den := if (0 <=? e)%Z then 1%Z else (10 ^ (- e))%Z in
  let t := (Z.log2 num - Z.log2 den)%Z in
  let b :=
    if (if (0 <=? t)%Z then (den * 2 ^ t <=? num)%Z else (den <=? num * 2 ^ (- t))%Z)
    then t else (t - 1)%Z in
  let q := Z.max (b - 52) (-1074) in
  let n' := if (0 <=? q)%Z then num else (num * 2 ^ (- q))%Z in
  let d' := if (0 <=? q)%Z then (den * 2 ^ q)%Z else den in
  let quot := (n' / d')%Z in
  let rem := (n' mod d')%Z in
  let mant :=
    if (2 * rem <? d')%Z then quot
    else if (d' <? 2 * rem)%Z then (quot + 1)%Z
    else (quot + quot mod 2)%Z in
  let '(mant, q) := if (mant =? 2 ^ 53)%Z then (2 ^ 52, q + 1)%Z else (mant, q) in
  if (mant =? 0)%Z then ToZero
  else if (971 <? q)%Z then ToInfinity
  else ToDouble (Z.to_N mant) q.

(** The Number value for the decimal written by the digits [ds], the
    first of which is not zero, and scaled by [10^e]. A decimal of
    [10^400] or more is rounded to an infinity and one below [10^-400]
    to zero, which is settled without the arithmetic. *)
Definition roundDigits (ds : list N) (e : Z) : Rounded :=
  let magnitude := (e + Z.of_nat (length ds))%Z in
  if (400 <? magnitude)%Z then ToInfinity
  else if (magnitude <? -400)%Z then ToZero
  else roundDecimal (digitsToN ds) e.

(** The digits of a natural number. *)
Definition digitsOf (n : N) : list N := uintDigits (N.to_uint n).

(** The double [mant * 2^exp2] as a decimal: the digits of an integer and
    the power of ten of the last of them. *)
Definition exactDecimal (mant : N) (exp2 : Z) : list N * Z :=
  if (0 <=? exp2)%Z then (digitsOf (mant * 2 ^ Z.to_N exp2), 0%Z)
  else (digitsOf (mant * 5 ^ Z.to_N (- exp2)), exp2).

(** The decimals of [k] digits on either side of the decimal
    [ds * 10^e], the nearer one first, and of two equally near ones the
    one with the even last digit first. *)
Definition nearestDecimals (k : nat) (ds : list N) (e : Z) : list (list N * Z) :=
  if (length ds <=? k)%nat then [(ds, e)]
  else
    let hi := take k ds in
    let lo := digitsToN (drop k ds) in
    let e' := (e + Z.of_nat (length ds - k))%Z in
    let below := (hi, e') in
    let above := (digitsOf (digitsToN hi + 1), e') in
    let half := (5 * 10 ^ N.of_nat (length ds - k - 1))%N in
    if (lo <? half)%N then [below; above]
    else if (half <? lo)%N then [above; below]
    else if N.even (digitsToN hi) then [below; above]
    else [above; below].

(** The digits that [Number::toString] writes for the double
    [mant * 2^exp2]: of the decimals that are rounded to it, one with the
    fewest digits, and of these the one next to it. Seventeen digits are
    enough for every double. *)
Definition shortestDecimal (neg : bool) (mant : N) (exp2 : Z) : option number :=
  let '(ds, e) := exactDecimal mant exp2 in
  find (fun c =>
          match c with
          | Number _ cds ce => Rounded_eqb (roundDigits cds ce) (ToDouble mant exp2)
          | Infinity _ => false
          end)
    (flat_map (fun k => map (fun c => mkNumber neg c.1 c.2) (nearestDecimals k ds e))
       (seq 1 17)).

(** The Number value of a decimal in canonical form: the double that
    the decimal is rounded to, which is kept as the decimal that
    [Number::toString] writes for it. *)
Definition numberValue (x : number) : number :=
  match x with
  | Number neg (d :: ds) e =>
      match roundDigits (d :: ds) e with
      | ToZero => Number false [] 0
      | ToInfinity => Infinity neg
      | ToDouble mant exp2 =>
          match shortestDecimal neg mant exp2 with
          | Some y => y
          | None => x
          end
      end
  | _ => x
  end.

(** An optional minus sign. *)
Definition lexSign (s : jsstring) : bool * jsstring :=
  match s with
  | c :: r => if (c =? 45)%N then (true, r) else (false, s)
  | [] => (false, s)
  end.

(** The integer part: a zero, or a non-zero digit and further digits. *)
Definition lexInt (s : jsstring) : option (list N * jsstring) :=
  match s with
  | c :: r =>
      if (c =? 48)%N then Some ([0%N], r)
      else if isDigit c then Some (spanDigits s)
      else None
  | [] => None
  end.

(** The optional fraction: a point and at least one digit. *)
Definition lexFrac (s : jsstring) : option (list N * jsstring) :=
  match s with
  | c :: r =>
      if (c =? 46)%N then
        match spanDigits r with
        | ([], _) => None
        | (fd, r') => Some (fd, r')
        end
      else Some ([], s)
  | [] => Some ([], s)
  end.

(** The optional exponent: the mark, an optional sign and at least one
    digit. *)
Definition lexExp (s : jsstring) : option (Z * jsstring) :=
  match s with
  | c :: r =>
      if (c =? 101)%N || (c =? 69)%N then
        let '(eneg, r1) :=
          match r with
          | sg :: r' =>
              if (sg =? 45)%N then (true, r')
              else if (sg =? 43)%N then (false, r')
              else (false, r)
          | [] => (false, r)
          end in
        match spanDigits r1 with
        | ([], _) => None
        | (ed, r2) =>
            let m := Z.of_N (digitsToN ed) in
            Some (if eneg then (- m)%Z else m, r2)
        end
      else Some (0%Z, s)
  | [] => Some (0%Z, s)
  end.

(** JSONNumber: sign, integer part, fraction and exponent; it denotes
    the integer written by the digits of the integer part and the
    fraction, scaled by the exponent less the length of the fraction. *)
Definition lexNumber (s : jsstring) : option (number * jsstring) :=
  let '(neg, s1) := lexSign s in
  '(intDigits, s2) ← lexInt s1;
  '(fracDigits, s3) ← lexFrac s2;
  '(e, s4) ← lexExp s3;
  Some (numberValue (mkNumber neg (intDigits ++ fracDigits)
                       (e - Z.of_nat (length fracDigits))), s4).

Definition hexValue (c : N) : option N :=
  if TextDecoder.between 48 57 c then Some (c - 48)%N
  else if TextDecoder.between 97 102 c then Some (c - 87)%N
  else if TextDecoder.between 65 70 c then Some (c - 55)%N
  else None.

(** The character a single-letter escape stands for. *)
Definition unescape (c : N) : option N :=
  if (c =? 34)%N then Some 34%N          (* quotation mark *)
  else if (c =? 92)%N then Some 92%N     (* reverse solidus *)
  else if (c =? 47)%N then Some 47%N     (* solidus *)
  else if (c =? 98)%N then Some 8%N      (* b *)
  else if (c =? 102)%N then Some 12%N    (* f *)
  else if (c =? 110)%N then Some 10%N    (* n *)
  else if (c =? 114)%N then Some 13%N    (* r *)
  else if (c =? 116)%N then Some 9%N     (* t *)
  else None.

(** JSONString behind its opening quotation mark: the code units it
    denotes and what follows the closing quotation mark. *)
Fixpoint lexString (s : jsstring) : option (jsstring * jsstring) :=
  match s with
  | [] => None
  | c :: r =>
      if (c =? 34)%N then Some ([], r)
      else if (c =? 92)%N then
        match r with
        | [] => None
        | e :: r1 =>
            if (e =? 117)%N then
              match r1 with
              | h1 :: h2 :: h3 :: h4 :: r2 =>
                  a ← hexValue h1; b ← hexValue h2;
                  c ← hexValue h3; d ← hexValue h4;
                  '(str, rest) ← lexString r2;
                  Some ((((a * 16 + b) * 16 + c) * 16 + d)%N :: str, rest)
              | _ => None
              end
            else
              u ← unescape e;
              '(str, rest) ← lexString r1;
              Some (u :: str, rest)
        end
      else if (c <? 32)%N then None
      else
        '(str, rest) ← lexString r;
        Some (c :: str, rest)
  end.

(** ** Property order of objects *)

Definition isNonZeroDigitChar (c : N) : bool := TextDecoder.between 49 57 c.

(** An array index: a canonical numeric string below 2^32 - 1. *)
Definition arrayIndex (k : jsstring) : option N :=
  match k with
  | [] => None
  | c :: rest =>
      if forallb isDigit k && (isNonZeroDigitChar c || Str.eqb rest []) then
        let n := digitsToN (map (fun c => (c - 48)%N) k) in
        if (n <? 4294967295)%N then Some n else None
      else None
  end.

(** Whether a new key [k] is enumerated before the present key [k']:
    array indices come first, in ascending order. *)
Definition sortsBefore (k k' : jsstring) : bool :=
  match arrayIndex k, arrayIndex k' with
  | Some i, Some j => (i <? j)%N
  | Some _, None => true
  | None, _ => false
  end.

(** CreateDataProperty: a key already present keeps its place and takes
    the new value. *)
Fixpoint defineProperty (k : jsstring) (v : json)
    (props : list (jsstring * json)) : list (jsstring * json) :=
  match props with
  | [] => [(k, v)]
  | (k', v') :: rest =>
      if Str.eqb k' k then (k', v) :: rest
      else if sortsBefore k k' then (k, v) :: props
      else (k', v') :: defineProperty k v rest
  end.

(** ** JSON.parse *)

Definition expect (c : N) (s : jsstring) : option jsstring :=
  match s with
  | x :: r => if (x =? c)%N then Some r else None
  | [] => None
  end.

(** JSONValue with leading white space, by recursive descent; [fuel]
    bounds the number of nested and successive values. *)
Fixpoint parseValue (fuel : nat) (s : jsstring) : option (json * jsstring) :=
  match fuel with
  | O => None
  | S fuel' =>
      let s := skipWs s in
      match s with
      | [] => None
      | c :: r =>
          if (c =? 34)%N then
            '(str, rest) ← lexString r; Some (JString str, rest)
          else if (c =? 91)%N then
            match expect 93 (skipWs r) with
            | Some rest => Some (JArray [], rest)
            | None => '(items, rest) ← parseElements fuel' r;
                      Some (JArray items, rest)
            end
          else if (c =? 123)%N then
            match expect 125 (skipWs r) with
            | Some rest => Some (JObject [], rest)
            | None => '(props, rest) ← parseMembers fuel' [] r;
                      Some (JObject props, rest)
            end
          else if Str.startsWith s (js "null") then Some (JNull, drop 4 s)
          else if Str.startsWith s (js "true") then Some (JBool true, drop 4 s)
          else if Str.startsWith s (js "false") then Some (JBool false, drop 5 s)
          else '(n, rest) ← lexNumber s; Some (JNumber n, rest)
      end
  end
(** The values of an array behind its opening bracket, up to and
    including the closing bracket. *)
with parseElements (fuel : nat) (s : jsstring) : option (list json * jsstring) :=
  match fuel with
  | O => None
  | S fuel' =>
      '(v, r) ← parseValue fuel' s;
      match skipWs r with
      | c :: rest =>
          if (c =? 93)%N then Some ([v], rest)
          else if (c =? 44)%N then
            '(vs, rest') ← parseElements fuel' rest; Some (v :: vs, rest')
          else None
      | [] => None
      end
  end
(** The members of an object behind its opening brace, added one by one
    to [acc], up to and including the closing brace. *)
with parseMembers (fuel : nat) (acc : list (jsstring * json)) (s : jsstring)
    : option (list (jsstring * json) * jsstring) :=
  match fuel with
  | O => None
  | S fuel' =>
      r0 ← expect 34 (skipWs s);
      '(k, r1) ← lexString r0;
      r2 ← expect 58 (skipWs r1);
      '(v, r3) ← parseValue fuel' r2;
      let acc' := defineProperty k v acc in
      match skipWs r3 with
      | c :: rest =>
          if (c =? 125)%N then Some (acc', rest)
          else if (c =? 44)%N then parseMembers fuel' acc' rest
          else None
      | [] => None
      end
  end.

(** [JSON.parse(text)]: [None] when it throws a SyntaxError. *)
Definition parse (text : jsstring) : option json :=
  '(v, rest) ← parseValue (S (length text)) text;
  match skipWs rest with
  | [] => Some v
  | _ => None
  end.

(** ** JSON.stringify *)

Definition hexDigit (n : N) : N :=
  if (n <? 10)%N then (48 + n)%N else (87 + n)%N.

(** The escape of a code unit as backslash, u and four hexadecimal
    digits in lower case. *)
Definition unicodeEscape (c : N) : jsstring :=
  [92%N; 117%N;
   hexDigit (N.land (N.shiftr c 12) 15); hexDigit (N.land (N.shiftr c 8) 15);
   hexDigit (N.land (N.shiftr c 4) 15); hexDigit (N.land c 15)].

Definition isLeadingSurrogate (c : N) : bool := TextDecoder.between 0xD800 0xDBFF c.
Definition isTrailingSurrogate (c : N) : bool := TextDecoder.between 0xDC00 0xDFFF c.

(** The two-character escapes of QuoteJSONString. *)
Definition shortEscape (c : N) : option N :=
  if (c =? 8)%N then Some 98%N
  else if (c =? 9)%N then Some 116%N
  else if (c =? 10)%N then Some 110%N
  else if (c =? 12)%N then Some 102%N
  else if (c =? 13)%N then Some 114%N
  else if (c =? 34)%N then Some 34%N
  else if (c =? 92)%N then Some 92%N
  else None.

(** The body of QuoteJSONString: control characters and lone surrogates
    are escaped, a surrogate pair is copied. *)
Fixpoint quoteBody (s : jsstring) : jsstring :=
  match s with
  | [] => []
  | c :: r =>
      match shortEscape c with
      | Some e => 92%N :: e :: quoteBody r
      | None =>
          if (c <? 32)%N then unicodeEscape c ++ quoteBody r
          else if isLeadingSurrogate c then
            match r with
            | d :: r' =>
                if isTrailingSurrogate d then c :: d :: quoteBody r'
                else unicodeEscape c ++ quoteBody r
            | [] => unicodeEscape c
            end
          else if isTrailingSurrogate c then unicodeEscape c ++ quoteBody r
          else c :: quoteBody r
      end
  end.

Definition quote (s : jsstring) : jsstring := 34%N :: quoteBody s ++ [34%N].

Fixpoint uintChars (u : Decimal.uint) : jsstring :=
  match u with
  | Decimal.Nil => []
  | Decimal.D0 u' => 48%N :: uintChars u'
  | Decimal.D1 u' => 49%N :: uintChars u'
  | Decimal.D2 u' => 50%N :: uintChars u'
  | Decimal.D3 u' => 51%N :: uintChars u'
  | Decimal.D4 u' => 52%N :: uintChars u'
  | Decimal.D5 u' => 53%N :: uintChars u'
  | Decimal.D6 u' => 54%N :: uintChars u'
  | Decimal.D7 u' => 55%N :: uintChars u'
  | Decimal.D8 u' => 56%N :: uintChars u'
  | Decimal.D9 u' => 57%N :: uintChars u'
  end.

(** The decimal numeral of a natural number. *)
Definition decimal (n : N) : jsstring := uintChars (N.to_uint n).

Definition digitChars (ds : list N) : jsstring := map (fun d => (48 + d)%N) ds.

(** Number::toString in radix 10, on the decimal: with [k] digits and
    the decimal point behind the [n]-th digit, plain notation for
    [-6 < n <= 21] and exponential notation otherwise. *)
Definition numberToString (x : number) : jsstring :=
  match x with
  | Infinity negative => (if negative then [45%N] else []) ++ js "Infinity"
  | Number _ [] _ => [48%N]
  | Number negative (d :: ds) exp10 =>
      let k := Z.of_nat (length (d :: ds)) in
      let n := (exp10 + k)%Z in
      (if negative then [45%N] else []) ++
      (if (k <=? n)%Z && (n <=? 21)%Z then
         digitChars (d :: ds) ++ repeat 48%N (Z.to_nat (n - k))
       else if (0 <? n)%Z && (n <=? 21)%Z then
         digitChars (take (Z.to_nat n) (d :: ds)) ++ [46%N]
           ++ digitChars (drop (Z.to_nat n) (d :: ds))
       else if (-6 <? n)%Z && (n <=? 0)%Z then
         [48%N; 46%N] ++ repeat 48%N (Z.to_nat (- n)) ++ digitChars (d :: ds)
       else
         digitChars [d]
           ++ (match ds with [] => [] | _ => 46%N :: digitChars ds end)
           ++ [101%N; if (n - 1 <? 0)%Z then 45%N else 43%N]
           ++ decimal (Z.to_N (Z.abs (n - 1))))
  end.

(** [JSON.stringify(value)] without indentation; a number that is not
    finite is written as [null]. *)
Fixpoint stringify (v : json) : jsstring :=
  match v with
  | JNull => js "null"
  | JBool true => js "true"
  | JBool false => js "false"
  | JNumber (Infinity _) => js "null"
  | JNumber x => numberToString x
  | JString s => quote s
  | JArray items =>
      91%N ::
      (fix elements (l : list json) : jsstring :=
         match l with
         | [] => []
         | x :: rest =>
             match rest with
             | [] => stringify x
             | _ => stringify x ++ 44%N :: elements rest
             end
         end) items ++ [93%N]
  | JObject props =>
      123%N ::
      (fix members (l : list (jsstring * json)) : jsstring :=
         match l with
         | [] => []
         | (k, x) :: rest =>
             match rest with
             | [] => quote k ++ 58%N :: stringify x
             | _ => quote k ++ 58%N :: stringify x ++ 44%N :: members rest
             end
         end) props ++ [125%N]
  end.

End JSON.

(* ================================================================== *)
(** * cleanEnv *)
(* ================================================================== *)

(** The character class of the left alternative: straight double quote,
    apostrophe, left smart quote. *)
Definition isLeadingQuote (c : N) : bool :=
  (c =? 34)%N || (c =? 39)%N || (c =? 0x201C)%N.

(** The character class of the right alternative: straight double quote,
    apostrophe, right smart quote. *)
Definition isTrailingQuote (c : N) : bool :=
  (c =? 34)%N || (c =? 39)%N || (c =? 0x201D)%N.

(** The [replace] of [cleanEnv], whose pattern is a run of leading quotes
    anchored at the start or a run of trailing quotes anchored at the end,
    replaced by nothing, globally: the left alternative can only
    match at index 0 and takes the longest run of leading quotes; the
    search then goes on behind it, where the right alternative matches at
    the leftmost index from which only trailing quotes follow. *)
Definition stripQuotes (s : jsstring) : jsstring :=
  Str.dropWhileEnd isTrailingQuote (Str.dropWhile isLeadingQuote s).

(** [cleanEnv]: [undefined] for a missing or empty value. *)
Definition cleanEnv (value : option jsstring) : option jsstring :=
  match value with
  | None => None
  | Some [] => None
  | Some v => Some (stripQuotes (Str.trim v))
  end.

(* ================================================================== *)
(** * Values at run time *)
(* ================================================================== *)

(** ToBoolean on a parsed value. *)
Definition toBoolean (v : json) : bool :=
  match v with
  | JNull => false
  | JBool b => b
  | JNumber (Number _ [] _) => false
  | JNumber _ => true
  | JString s => match s with [] => false | _ => true end
  | JArray _ | JObject _ => true
  end.

(** Truthiness of a value that may be [undefined]. *)
Definition truthy (v : option json) : bool :=
  match v with
  | Some x => toBoolean x
  | None => false
  end.

(** The own property [k] of an object. *)
Fixpoint ownProperty (props : list (jsstring * json)) (k : jsstring) : option json :=
  match props with
  | [] => None
  | (k', v) :: rest => if Str.eqb k' k then Some v else ownProperty rest k
  end.

(** [v.k] for a value other than [null], for the property names read by
    this program (none of them is an array index, [length] or inherited
    from a prototype): only an object can have it. *)
Definition getProp (v : json) (k : jsstring) : option json :=
  match v with
  | JObject props => ownProperty props k
  | _ => None
  end.

(** [k in v] for an object [v]. *)
Definition hasProp (props : list (jsstring * json)) (k : jsstring) : bool :=
  match ownProperty props k with Some _ => true | None => false end.

(** [typeof v === 'string' ? v : undefined] *)
Definition asString (v : option json) : option jsstring :=
  match v with
  | Some (JString s) => Some s
  | _ => None
  end.

(** An exception value: whether it is a [TypeError], and its message. *)
Record JsError := Error_ {
  isTypeError : bool;
  message : jsstring
}.

(** [new Error(msg)] *)
Definition Error (msg : jsstring) : JsError := Error_ false msg.

(** What the program takes from its host: Unicode case mapping, the page
    it runs on, the build-time environment, and the messages the engine
    puts into the errors it throws itself. *)
Class Host := {
  (** [String.prototype.toLowerCase] *)
  toLowerCase : jsstring -> jsstring;
  (** [window.location.protocol], [None] without a [window] *)
  locationProtocol : option jsstring;
  (** [import.meta.env.PROD] *)
  PROD : bool;
  (** [import.meta.env.VITE_API_BASE_URL] *)
  VITE_API_BASE_URL : option jsstring;
  (** message of the SyntaxError of [JSON.parse] on a text *)
  syntaxErrorMessage : jsstring -> jsstring;
  (** message of the TypeError of a property read on [null] *)
  nullPropertyMessage : jsstring -> jsstring;
  (** message of the TypeError of a property read on [undefined] *)
  undefinedPropertyMessage : jsstring -> jsstring;
  (** message of the TypeError of the call of a method of strings on a
      value that is not a string *)
  notStringMessage : option json -> jsstring -> jsstring
}.

(** How the promise of a call of the model settles. The value is declared
    a string and is one in backend mode; in frontend mode it is what the
    answer of the provider holds in the place of the text, which can be
    any value or [undefined]. *)
Inductive Settled :=
  | Fulfilled (value : option json)
  | Rejected (reason : JsError).

(** The TypeError of calling [method], which only strings have, on a
    value that is not a string. *)
Definition notAString `{Host} (value : option json) (method : jsstring) : JsError :=
  Error_ true (notStringMessage value method).

Definition LF : jsstring := [10%N].

(* ================================================================ *)
(** * API_BASE_URL and getBackendErrorMessage *)
(* ================================================================ *)

Definition API_BASE_URL `{Host} : jsstring :=
  if PROD then
    match cleanEnv VITE_API_BASE_URL with
    | Some base => base
    | None => []
    end ++ js "/api"
  else js "/proxy-api".

Definition mixedContentMessage (url : jsstring) : jsstring :=
  js "【安全限制警告】" ++ LF ++ LF
  ++ js "GitHub Pages (HTTPS) 无法连接到不安全的 HTTP 后端 (" ++ url ++ js ")。" ++ LF
  ++ js "浏览器出于安全原因拦截了请求 (Mixed Content)。" ++ LF ++ LF
  ++ js "解决方案：" ++ LF
  ++ js "1. 请将您的后端服务升级为 HTTPS。" ++ LF
  ++ js "2. 或者切换到“前端直连”模式使用基础 AI 功能。" ++ LF
  ++ js "3. 或者在本地环境运行前端。".

Definition networkFailureMessage (url : jsstring) : jsstring :=
  js "网络请求失败。无法连接到后端服务 (" ++ url ++ js ")。" ++ LF ++ LF
  ++ js "可能原因：" ++ LF
  ++ js "1. 后端服务未启动。" ++ LF
  ++ js "2. 跨域 (CORS) 配置未允许当前域名。" ++ LF
  ++ js "3. 网络连接问题。".

Definition isHttpsPage `{Host} : bool :=
  match locationProtocol with
  | Some p => Str.eqb p (js "https:")
  | None => false
  end.

Definition getBackendErrorMessage `{Host} (error : JsError) (url : jsstring) : jsstring :=
  if isHttpsPage && Str.startsWith url (js "http:") then
    mixedContentMessage url
  else if isTypeError error
          && Str.includes (toLowerCase (message error)) (js "failed to fetch") then
    networkFailureMessage url
  else
    match message error with
    | [] => js "后端请求出错 (" ++ url ++ js ")"
    | msg => msg
    end.

(* ================================================================ *)
(** * callGenerativeAi *)
(* ================================================================ *)

Inductive ExecutionMode := backend | frontend.

(** How [response.text()] settles. *)
Inductive BodyRead :=
  | BodyText (text : jsstring)
  | BodyFailed (e : JsError).

(** How one [fetch] settles: rejected, or a response with its status
    and body. *)
Inductive FetchOutcome :=
  | FetchFailed (e : JsError)
  | FetchResponse (status : N) (body : BodyRead).

(** [response.ok] *)
Definition ok (status : N) : bool := TextDecoder.between 200 299 status.

(** What the caller can observe besides the result: requests sent and
    timers awaited (console output is left out). *)
Inductive Event :=
  | Fetch (attempt : nat)
  | Sleep (ms : N).

Definition userFriendlyError (status : N) : jsstring :=
  js "后端代理服务出错 (状态码: " ++ JSON.decimal status ++ js ")。请检查后端服务日志。"
  ++ (if (500 <=? status)%N && (status <? 600)%N
      then js " 这可能是由于后端无法连接到上游AI服务导致的。" else []).

(** The body of the [try] of one attempt. *)
Definition attempt (o : FetchOutcome) : Settled :=
  match o with
  | FetchFailed e => Rejected e
  | FetchResponse status body =>
      if negb (ok status) then Rejected (Error (userFriendlyError status))
      else match body with
           | BodyText text => Fulfilled (Some (JString text))
           | BodyFailed e => Rejected e
           end
  end.

(** The loop [for (let i = 0; i <= retries; i++)] from index [i] on, with
    [remaining = retries + 1 - i] iterations to go; [net i] is what the
    request of iteration [i] meets. *)
Fixpoint backendAttempts `{Host} (net : nat -> FetchOutcome) (retries i remaining : nat)
    : Settled * list Event :=
  match remaining with
  | O => (Rejected (Error (js "All retry attempts failed.")), [])
  | S remaining' =>
      match attempt (net i) with
      | Fulfilled text => (Fulfilled text, [Fetch i])
      | Rejected error =>
          if (i =? retries)%nat then
            (Rejected (Error (getBackendErrorMessage error API_BASE_URL)),
             [Fetch i])
          else
            let '(r, tr) := backendAttempts net retries (S i) remaining' in
            (r, Fetch i :: Sleep 1000 :: tr)
      end
  end.

(** [callGenerativeAi]. In frontend mode the call goes to the provider
    directly, once: [direct] is how that settles. In backend mode [net]
    gives the answers of the proxy. *)
Definition callGenerativeAi `{Host} (executionMode : ExecutionMode)
    (direct : Settled) (net : nat -> FetchOutcome) : Settled * list Event :=
  match executionMode with
  | frontend => (direct, [])
  | backend =>
      let retries := 2%nat in
      backendAttempts net retries 0 (S retries)
  end.

(* ================================================================ *)
(** * Streaming *)
(* ================================================================ *)

(** The body of a streamed response: the values of the successive
    [reader.read()], after which the stream is done, or the read
    rejects when [failure] is set. *)
Record ByteStream := {
  reads : list (list byte);
  failure : option JsError
}.

(** How the [fetch] of a streaming call settles. [errorText] is what
    [response.text()] gives, [None] when that rejects. *)
Inductive StreamOutcome :=
  | StreamFetchFailed (e : JsError)
  | StreamResponse (status : N) (errorText : option jsstring)
      (body : option ByteStream).

(** The calls made to the three callbacks, in order. *)
Inductive Callback :=
  | OnChunk (textChunk : json)
  | OnComplete
  | OnError (e : JsError).

Definition statusFallback (status : N) : jsstring :=
  js "Status: " ++ JSON.decimal status.

(** ** Backend mode of callGenerativeAiStream *)

(** The read loop: every decoded read goes to [onChunk] as it is. *)
Fixpoint forwardReads (decoder : TextDecoder.t) (rs : list (list byte))
    : list Callback :=
  match rs with
  | [] => []
  | value :: rest =>
      let '(decoder', text) := TextDecoder.decode decoder value in
      OnChunk (JString text) :: forwardReads decoder' rest
  end.

Definition callGenerativeAiStream_backend `{Host} (o : StreamOutcome) : list Callback :=
  let onError (error : JsError) :=
    OnError (Error (getBackendErrorMessage error API_BASE_URL)) in
  match o with
  | StreamFetchFailed e => [onError e]
  | StreamResponse status errorText body =>
      match (if ok status then body else None) with
      | None =>
          let errorText :=
            match errorText with
            | Some t => t
            | None => statusFallback status
            end in
          [onError (Error (js "后端流式传输错误: " ++ errorText))]
      | Some stream =>
          forwardReads TextDecoder.new (reads stream)
          ++ match failure stream with
             | None => [OnComplete]
             | Some e => [onError e]
             end
      end
  end.

(** ** callOpenAiCompatibleApiStream *)

(** [v?.[0]] for a value that is neither [null] nor [undefined]. *)
Definition index0 (v : json) : option json :=
  match v with
  | JArray (x :: _) => Some x
  | JString (c :: _) => Some (JString [c])
  | JObject props => ownProperty props (js "0")
  | _ => None
  end.

(** Optional chaining: [undefined] for [null] and [undefined]. *)
Definition optChain (v : option json) (read : json -> option json) : option json :=
  match v with
  | None | Some JNull => None
  | Some x => read x
  end.

(** [data.choices?.[0]?.delta?.content]; the outer [None] is the
    TypeError of reading [choices] of [null]. *)
Definition deltaContent (data : json) : option (option json) :=
  match data with
  | JNull => None
  | _ =>
      let choices := getProp data (js "choices") in
      let first := optChain choices index0 in
      let delta := optChain first (fun x => getProp x (js "delta")) in
      Some (optChain delta (fun x => getProp x (js "content")))
  end.

(** What one complete line leads to. *)
Inductive LineAction :=
  | Ignore
  | Deliver (content : json)
  | Finish.

Definition processLine (line : jsstring) : LineAction :=
  if Str.startsWith (Str.trim line) (js "data: ") then
    let dataStr := Str.trim (drop 6 line) in
    if Str.eqb dataStr (js "[DONE]") then Finish
    else
      match JSON.parse dataStr with
      | None => Ignore
      | Some data =>
          match deltaContent data with
          | Some (Some content) =>
              if toBoolean content then Deliver content else Ignore
          | _ => Ignore
          end
      end
  else Ignore.

(** The loop over the complete lines of one read; [true] when the
    sentinel was met and the function has returned. *)
Fixpoint processLines (lines : list jsstring) : list Callback * bool :=
  match lines with
  | [] => ([], false)
  | line :: rest =>
      match processLine line with
      | Finish => ([OnComplete], true)
      | Deliver content =>
          let '(cbs, fin) := processLines rest in (OnChunk content :: cbs, fin)
      | Ignore => processLines rest
      end
  end.

(** [lines.pop() || '']: the lines before the last, and the last. *)
Definition popLast (lines : list jsstring) : list jsstring * jsstring :=
  (removelast lines, default [] (last lines)).

(** The read loop with its line buffer. *)
Fixpoint consumeReads (decoder : TextDecoder.t) (buffer : jsstring)
    (rs : list (list byte)) (failure : option JsError) : list Callback :=
  match rs with
  | [] =>
      match failure with
      | None => [OnComplete]
      | Some e => [OnError e]
      end
  | value :: rest =>
      let '(decoder', text) := TextDecoder.decode decoder value in
      let '(lines, buffer') := popLast (Str.split_lf (buffer ++ text)) in
      let '(cbs, finished) := processLines lines in
      if finished then cbs
      else cbs ++ consumeReads decoder' buffer' rest failure
  end.

Definition callOpenAiCompatibleApiStream (o : StreamOutcome) : list Callback :=
  match o with
  | StreamFetchFailed e => [OnError e]
  | StreamResponse status errorText body =>
      match (if ok status then body else None) with
      | None =>
          let errorText :=
            match errorText with
            | Some t => t
            | None => statusFallback status
            end in
          [OnError (Error (js "Streaming Error: " ++ errorText))]
      | Some stream =>
          consumeReads TextDecoder.new [] (reads stream) (failure stream)
      end
  end.

(* ================================================================== *)
(** * parseJsonResponse *)
(* ================================================================== *)

Definition isCloser (c : N) : bool := (c =? 125)%N || (c =? 93)%N.

(** Whether white space and then a closing brace or bracket follow. *)
Definition closerFollows (s : jsstring) : bool :=
  match Str.dropWhile Str.isWhiteSpace s with
  | c :: _ => isCloser c
  | [] => false
  end.

(** The [replace] of [tryParse]: every comma that is followed by white
    space and a closing brace or bracket is removed together with that
    white space. With [skipping] set, the comma of a match has just been
    dropped and its white space is being dropped. *)
Fixpoint stripCommas (skipping : bool) (s : jsstring) : jsstring :=
  match s with
  | [] => []
  | c :: r =>
      if skipping && Str.isWhiteSpace c then stripCommas true r
      else if (c =? 44)%N && closerFollows r then stripCommas true r
      else c :: stripCommas false r
  end.

Definition stripTrailingCommas (str : jsstring) : jsstring := stripCommas false str.

(** [tryParse]: first the text without trailing commas, then the text as
    it is; [null] when both fail. *)
Definition tryParse (str : jsstring) : json :=
  let fixedStr := stripTrailingCommas str in
  match JSON.parse fixedStr with
  | Some result => result
  | None =>
      match JSON.parse str with
      | Some result => result
      | None => JNull
      end
  end.

Definition fence : jsstring := js "```".

(** Group 1 of the match of the fence pattern: behind the first fence, an
    optional json tag and white space, the text up to the white space in
    front of the next fence. [None] when there is no second fence. *)
Definition markdownMatch (s : jsstring) : option jsstring :=
  i ← Str.indexOf s fence;
  let r := drop (i + 3) s in
  let r1 := if Str.startsWith r (js "json") then drop 4 r else r in
  let r2 := Str.trimStart r1 in
  q ← Str.indexOf r2 fence;
  Some (Str.trimEnd (take q r2)).

(** The span from the first opening to the last closing bracket, or else
    brace. *)
Definition bracketSpan (jsonString : jsstring) : option (nat * nat) :=
  let firstBrace := Str.indexOfChar jsonString 123 in
  let lastBrace := Str.lastIndexOfChar jsonString 125 in
  let firstBracket := Str.indexOfChar jsonString 91 in
  let lastBracket := Str.lastIndexOfChar jsonString 93 in
  match firstBracket, lastBracket with
  | Some fb, Some lb =>
      if (fb <? lb)%nat then Some (fb, lb)
      else match firstBrace, lastBrace with
           | Some f, Some l => if (f <? l)%nat then Some (f, l) else None
           | _, _ => None
           end
  | _, _ =>
      match firstBrace, lastBrace with
      | Some f, Some l => if (f <? l)%nat then Some (f, l) else None
      | _, _ => None
      end
  end.

Definition isArray (v : json) : bool :=
  match v with
  | JArray _ => true
  | _ => false
  end.

Module ParseResult.
Record t := Make {
  data : json;
  error : option jsstring;
  rawResponse : option jsstring
}.
End ParseResult.

(** The three structural stages: [parsedData] when the sentinel check is
    reached. *)
Definition structuralParse (jsonString : jsstring) : json :=
  let parsedData := tryParse jsonString in
  let parsedData :=
    if negb (toBoolean parsedData) then
      match markdownMatch jsonString with
      | Some (c :: m) => tryParse (Str.trim (c :: m))
      | _ => parsedData
      end
    else parsedData in
  if negb (toBoolean parsedData) then
    match bracketSpan jsonString with
    | Some (startIndex, endIndex) =>
        tryParse (Str.substring jsonString startIndex (endIndex + 1))
    | None => parsedData
    end
  else parsedData.

Definition hasNoIssuesPhrase `{Host} (responseText : jsstring) : bool :=
  let lowercasedResponse := toLowerCase responseText in
  Str.includes lowercasedResponse (js "no issues found")
  || Str.includes lowercasedResponse (js "没有发现")
  || Str.includes lowercasedResponse (js "未发现").

(** [parseJsonResponse<T>]. The type argument is erased at run time: the
    guard [Array.isArray([] as T)] is applied to a new empty array. *)
Definition parseJsonResponse `{Host} (T : Type) (responseText : jsstring)
    : ParseResult.t :=
  let jsonString := Str.trim responseText in
  let parsedData := structuralParse jsonString in
  match parsedData with
  | JNull =>
      if isArray (JArray []) && hasNoIssuesPhrase responseText then
        ParseResult.Make (JArray []) None None
      else
        ParseResult.Make JNull
          (Some (js "未能将模型响应解析为有效的JSON。")) (Some responseText)
  | _ => ParseResult.Make parsedData None None
  end.

(* ================================================================== *)
(** * parseAuditResponse *)
(* ================================================================== *)

(** An issue as it is at run time: [problematicText] is whatever value
    the reconstruction lets through. *)
Record AuditIssue := {
  problematicText : json;
  suggestion : jsstring;
  checklistItem : jsstring;
  explanation : jsstring
}.

Module AuditResult.
Record t := Make {
  issues : list AuditIssue;
  error : option jsstring;
  rawResponse : option jsstring
}.
End AuditResult.

Definition placeholderText : jsstring := js "(未指定文本)".

(** [v && typeof v === 'string'] *)
Definition nonEmptyString (v : option json) : bool :=
  match v with
  | Some (JString (_ :: _)) => true
  | _ => false
  end.

(** The three fields every kept issue gets in the same way. *)
Definition otherFields (issue : json) (text : json) : AuditIssue :=
  {| problematicText := text;
     suggestion := default [] (asString (getProp issue (js "suggestion")));
     checklistItem :=
       default (js "通用规则") (asString (getProp issue (js "checklistItem")));
     explanation :=
       match asString (getProp issue (js "explanation")) with
       | Some e => e
       | None => default (js "无详细说明") (asString (getProp issue (js "reason")))
       end |}.

(** The function mapped over the candidates; [None] is its [null]. *)
Definition reconstructIssue (issue : json) : option AuditIssue :=
  match issue with
  | JObject _ | JArray _ =>
      let text := getProp issue (js "problematicText") in
      if negb (nonEmptyString text) then
        if nonEmptyString (getProp issue (js "suggestion"))
           || nonEmptyString (getProp issue (js "explanation")) then
          Some (otherFields issue
                  (match text with
                   | Some t => if toBoolean t then t else JString placeholderText
                   | None => JString placeholderText
                   end))
        else None
      else
        Some (otherFields issue (default JNull text))
  | _ => None
  end.

(** [issuesArray.map(...).filter(issue => issue !== null)] *)
Definition validIssues (issuesArray : list json) : list AuditIssue :=
  omap reconstructIssue issuesArray.

Definition unexpectedFormat : jsstring :=
  js "模型返回了意外的 JSON 格式 (既不是数组，也不是包含 'issues' 的对象，也不是单个问题对象)。".

Definition parseAuditResponse `{Host} (responseText : jsstring) : AuditResult.t :=
  let r := parseJsonResponse json responseText in
  let data := ParseResult.data r in
  if negb (toBoolean data) then
    AuditResult.Make [] (ParseResult.error r) (ParseResult.rawResponse r)
  else
    let malformed := AuditResult.Make [] (Some unexpectedFormat) (Some responseText) in
    match data with
    | JArray items => AuditResult.Make (validIssues items) None None
    | JObject props =>
        match ownProperty props (js "issues") with
        | Some (JArray items) => AuditResult.Make (validIssues items) None None
        | _ =>
            if hasProp props (js "problematicText") && hasProp props (js "suggestion")
            then AuditResult.Make (validIssues [data]) None None
            else malformed
        end
    | _ => malformed
    end.

(* ================================================================== *)
(** * handleAuditAll *)
(* ================================================================== *)

Inductive ModelProvider := gemini | openai | deepseek | ali | depOCR | doubao.

#[export] Instance ModelProvider_eq_dec : EqDecision ModelProvider.
Proof. solve_decision. Defined.

Definition allModels : list ModelProvider :=
  [gemini; openai; deepseek; ali; depOCR; doubao].

#[export] Program Instance ModelProvider_finite : Finite ModelProvider :=
  {| enum := allModels |}.
Next Obligation. by compute_done. Qed.
Next Obligation. by intros []; compute_done. Qed.

(** [parseAuditResponse(value)] for the value a call was fulfilled with.
    The declared type of the parameter is not checked at run time: the
    first step, in [parseJsonResponse], is [responseText.trim()], which
    throws a TypeError unless the value is a string. *)
Definition parseAuditResponseOf `{Host} (value : option json)
    : JsError + AuditResult.t :=
  match value with
  | Some (JString responseText) => inr (parseAuditResponse responseText)
  | _ => inl (notAString value (js "trim"))
  end.

(** The entry of one provider, from how its call settled; [inl] when
    making the entry throws. *)
Definition auditEntry `{Host} (result : Settled) : JsError + AuditResult.t :=
  match result with
  | Fulfilled value => parseAuditResponseOf value
  | Rejected reason => inr (AuditResult.Make [] (Some (message reason)) None)
  end.

(** The callback of the [forEach] over the settled results: the result
    at [index] is stored under [models[index]]. Nothing catches what the
    callback throws: once an entry has thrown, [inl], nothing more is
    stored. *)
Definition storeResult `{Host} (models : list ModelProvider)
    (acc : JsError + gmap ModelProvider AuditResult.t) (indexed : nat * Settled)
    : JsError + gmap ModelProvider AuditResult.t :=
  let '(index, result) := indexed in
  match acc with
  | inl e => inl e
  | inr newAuditResults =>
      match models !! index with
      | Some model =>
          match auditEntry result with
          | inr entry => inr (<[model := entry]> newAuditResults)
          | inl e => inl e
          end
      | None => inr newAuditResults
      end
  end.

Definition collectAuditResults `{Host} (models : list ModelProvider)
    (results : list Settled) : JsError + gmap ModelProvider AuditResult.t :=
  foldl (storeResult models) (inr ∅)
    (imap (fun index result => (index, result)) results).

(** The fan-out over [models]: one call per provider, all awaited with
    [Promise.allSettled]. [direct] and [net] are what the call for a
    provider meets. *)
Definition auditAll `{Host} (models : list ModelProvider)
    (executionMode : ExecutionMode) (direct : ModelProvider -> Settled)
    (net : ModelProvider -> nat -> FetchOutcome)
    : JsError + gmap ModelProvider AuditResult.t :=
  let auditPromises :=
    map (fun model => (callGenerativeAi executionMode (direct model) (net model)).1)
      models in
  collectAuditResults models auditPromises.

(** [handleAuditAll]: the value passed to [setAuditResults], or [inl]
    when the handler throws before it gets there; the results then stay
    the empty object that the handler has set at its start. *)
Definition handleAuditAll `{Host} (executionMode : ExecutionMode)
    (direct : ModelProvider -> Settled)
    (net : ModelProvider -> nat -> FetchOutcome)
    : JsError + gmap ModelProvider AuditResult.t :=
  auditAll allModels executionMode direct net.

(* ================================================================== *)
(** * handleStartRoaming, second step *)
(* ================================================================== *)

Record Source := {
  source_file : jsstring;
  content_chunk : jsstring;
  score : number
}.

Record RoamingResultItem := {
  source : jsstring;
  relevantText : jsstring;
  conclusion : json
}.

(** Length of the match of the fence-removing pattern at the start of
    [s], 0 without a match: a fence with the json tag and an optional line
    feed, or an optional line feed and a fence. *)
Definition fenceMatchLength (s : jsstring) : nat :=
  if Str.startsWith s (js "```json") then
    match drop 7 s with
    | c :: _ => if (c =? 10)%N then 8 else 7
    | [] => 7
    end
  else if Str.startsWith s (10%N :: fence) then 4
  else if Str.startsWith s fence then 3
  else 0.

(** The [replace] applied to the answer of the model: all matches of the
    fence-removing pattern are deleted; [skip] code units of the current
    match are still to be dropped. *)
Fixpoint removeFencesFrom (skip : nat) (s : jsstring) : jsstring :=
  match s with
  | [] => []
  | c :: r =>
      match skip with
      | S k => removeFencesFrom k r
      | O =>
          match fenceMatchLength s with
          | S k => removeFencesFrom k r
          | O => c :: removeFencesFrom 0 r
          end
      end
  end.

Definition removeFences (s : jsstring) : jsstring := removeFencesFrom 0 s.

Definition invalidConclusion : jsstring :=
  js "AI model did not return a valid conclusion for one of the documents.".

(** The async function mapped over the sources, given how the call of
    [callGenerativeAi] for this source settles. The answer is taken for a
    string: [replace] throws a TypeError on any other value. *)
Definition roamingTask `{Host} (src : Source) (call : Settled)
    : JsError + RoamingResultItem :=
  match call with
  | Rejected e => inl e
  | Fulfilled (Some (JString genAiResponseText)) =>
      let text := removeFences genAiResponseText in
      match JSON.parse text with
      | None => inl (Error_ false (syntaxErrorMessage text))
      | Some JNull => inl (Error_ true (nullPropertyMessage (js "conclusion")))
      | Some result =>
          let c := getProp result (js "conclusion") in
          match c with
          | Some v =>
              if toBoolean v then
                inr {| source := source_file src;
                       relevantText := content_chunk src;
                       conclusion := v |}
              else inl (Error invalidConclusion)
          | None => inl (Error invalidConclusion)
          end
      end
  | Fulfilled value => inl (notAString value (js "replace"))
  end.

(** The reason of the first rejected task in [order]. *)
Fixpoint firstRejection {A} (tasks : list (JsError + A)) (order : list nat)
    : option JsError :=
  match order with
  | [] => None
  | i :: rest =>
      match tasks !! i with
      | Some (inl e) => Some e
      | _ => firstRejection tasks rest
      end
  end.

(** The values of fulfilled tasks, in the order of the tasks; [None] when
    one of them is rejected. *)
Fixpoint allFulfilled {A} (tasks : list (JsError + A)) : option (list A) :=
  match tasks with
  | [] => Some []
  | inr a :: rest => cons a <$> allFulfilled rest
  | inl _ :: _ => None
  end.

(** [Promise.all]: the values in the order of the promises, or the reason
    of the promise that rejects first; [settling] lists the promises in the
    order in which they settle. *)
Definition promiseAll {A} (settling : list nat) (tasks : list (JsError + A))
    : JsError + list A :=
  match allFulfilled tasks with
  | Some values => inr values
  | None =>
      match firstRejection tasks (settling ++ seq 0 (length tasks)) with
      | Some e => inl e
      | None => inr []
      end
  end.

(** The state the handler leaves behind. *)
Record RoamingState := {
  roamingResult : option (list RoamingResultItem);
  roamingError : option jsstring;
  isRoaming : bool
}.

Definition nothingRelevant : jsstring :=
  js "在知识库中未找到足够相关的内容来进行漫游联想。".

(** [handleStartRoaming] from the point where the retrieval has answered
    with [sources]. The call for the source at index [i] meets [direct i]
    and [net i]; [settling] is the order in which the tasks settle. *)
Definition handleStartRoaming `{Host} (sources : list Source)
    (executionMode : ExecutionMode) (direct : nat -> Settled)
    (net : nat -> nat -> FetchOutcome) (settling : list nat) : RoamingState :=
  match sources with
  | [] => {| roamingResult := None; roamingError := Some nothingRelevant;
             isRoaming := false |}
  | _ =>
      let roamingPromises :=
        imap (fun i src =>
                roamingTask src (callGenerativeAi executionMode (direct i) (net i)).1)
          sources in
      match promiseAll settling roamingPromises with
      | inr newRoamingResults =>
          {| roamingResult := Some newRoamingResults; roamingError := None;
             isRoaming := false |}
      | inl err =>
          {| roamingResult := None;
             roamingError := Some (getBackendErrorMessage err API_BASE_URL);
             isRoaming := false |}
      end
  end.

(* ================================================================== *)
(** * A host for the examples *)
(* ================================================================== *)

(** Case mapping of the Basic Latin letters. *)
Definition lowerBasicLatin (c : N) : N :=
  if TextDecoder.between 65 90 c then (c + 32)%N else c.

(** A production build served from a secure page, with a quoted base URL
    in its environment. *)
Definition exampleHost : Host := {|
  toLowerCase := map lowerBasicLatin;
  locationProtocol := Some (js "https:");
  PROD := true;
  VITE_API_BASE_URL := Some (js "'https://notes.example'");
  syntaxErrorMessage := fun _ => js "Unexpected token in JSON";
  nullPropertyMessage := fun k => js "Cannot read properties of null (reading '" ++ k ++ js "')";
  undefinedPropertyMessage :=
    fun k => js "Cannot read properties of undefined (reading '" ++ k ++ js "')";
  notStringMessage := fun v method =>
    match v with
    | None => js "Cannot read properties of undefined (reading '" ++ method ++ js "')"
    | Some JNull => js "Cannot read properties of null (reading '" ++ method ++ js "')"
    | Some _ => method ++ js " is not a function"
    end
|}.

(** The quotation mark, which a string literal of this file cannot hold. *)
Definition QUOTE : jsstring := [34%N].

(* ================================================================== *)
(** * Notions used in the statements *)
(* ================================================================== *)

(** The requests and waits of a call that ends with attempt [k]: a wait of
    one second between two successive requests, none after the last. *)
Definition retryTrace (k : nat) : list Event :=
  flat_map (fun j => [Fetch j; Sleep 1000]) (seq 0 k) ++ [Fetch k].

(** The ways in which an attempt fails, with the error that reaches its
    [catch]: the request is rejected; the answer has a status outside
    2xx, whatever its body; the body of an answer in 2xx cannot be
    read. *)
Inductive attemptFails : FetchOutcome -> JsError -> Prop :=
  | request_rejected e : attemptFails (FetchFailed e) e
  | status_not_ok status body :
      (status < 200 \/ 299 < status)%N ->
      attemptFails (FetchResponse status body) (Error (userFriendlyError status))
  | body_unreadable status e :
      (200 <= status <= 299)%N ->
      attemptFails (FetchResponse status (BodyFailed e)) e.

(** The answer to a synthesis call carries the conclusion [c]: the call
    is fulfilled with a string that, without its fences, is the text of
    an object whose [conclusion] is [c], a truthy value. *)
Definition concludes (call : Settled) (c : json) : Prop :=
  exists text props,
    call = Fulfilled (Some (JString text))
    /\ JSON.parse (removeFences text) = Some (JObject props)
    /\ ownProperty props (js "conclusion") = Some c
    /\ toBoolean c = true.

(** The item of a source with a conclusion. *)
Definition itemOf (src : Source) (c : json) : RoamingResultItem :=
  {| source := source_file src; relevantText := content_chunk src;
     conclusion := c |}.

(** Whether some comma of [s] is followed by white space and a closing
    brace or bracket: whether the pattern of [tryParse] has a match. *)
Fixpoint hasTrailingComma (s : jsstring) : bool :=
  match s with
  | [] => false
  | c :: r => ((c =? 44)%N && closerFollows r) || hasTrailingComma r
  end.

(** The text of every read, as the decoder gives it. *)
Fixpoint decodedReads (decoder : TextDecoder.t) (rs : list (list byte))
    : list jsstring :=
  match rs with
  | [] => []
  | value :: rest =>
      let '(decoder', text) := TextDecoder.decode decoder value in
      text :: decodedReads decoder' rest
  end.



(** A literal in which the apostrophe stands for the quotation mark. *)
Definition jq (s : string) : jsstring :=
  map (fun c => if (c =? 39)%N then 34%N else c) (js s).

(** The UTF-8 bytes of a literal in which the apostrophe stands for the
    quotation mark. *)
Definition bytesq (s : string) : list byte :=
  map (fun b => if Byte.eqb b "'"%byte then x22 else b) (list_byte_of_string s).


(** A streamed response with status 200. *)
Definition streamed (rs : list (list byte)) (failure : option JsError) : StreamOutcome :=
  StreamResponse 200 None (Some {| reads := rs; failure := failure |}).

(* ================================================================== *)
(** * Values in canonical form and the text of their parts *)
(* ================================================================== *)

(** Significant digits in canonical form: decimal digits, no zero at
    either end. *)
Definition canonicalDigits (ds : list N) : Prop :=
  Forall (fun d => (d < 10)%N) ds
  /\ Str.dropWhile JSON.isZeroDigit ds = ds
  /\ Str.dropWhileEnd JSON.isZeroDigit ds = ds.

(** A decimal in canonical form; zero is positive with exponent 0. *)
Definition canonicalNumber (x : number) : Prop :=
  match x with
  | Number neg ds e => canonicalDigits ds /\ (ds = [] -> neg = false /\ e = 0%Z)
  | Infinity _ => True
  end.

Definition isFinite (x : number) : bool :=
  match x with
  | Number _ _ _ => true
  | Infinity _ => false
  end.

(** A finite number as [JSON.parse] returns it: a decimal in canonical
    form that is the Number value of itself, which is to say the decimal
    that stands for a double. *)
Definition wfNumber (x : number) : Prop :=
  canonicalNumber x /\ isFinite x = true /\ JSON.numberValue x = x.

(** What can follow a number token: nothing that would continue it. *)
Definition numberEnds (rest : jsstring) : Prop :=
  match rest with
  | [] => True
  | c :: _ => JSON.isDigit c = false /\ c <> 46%N /\ c <> 101%N /\ c <> 69%N
  end.

(** The text of the elements of an array, as [stringify] writes it. *)
Definition elementsText : list json -> jsstring :=
  fix elements (l : list json) : jsstring :=
    match l with
    | [] => []
    | x :: rest =>
        match rest with
        | [] => JSON.stringify x
        | _ => JSON.stringify x ++ 44%N :: elements rest
        end
    end.

(** The text of the members of an object, as [stringify] writes it. *)
Definition membersText : list (jsstring * json) -> jsstring :=
  fix members (l : list (jsstring * json)) : jsstring :=
    match l with
    | [] => []
    | (k, x) :: rest =>
        match rest with
        | [] => JSON.quote k ++ 58%N :: JSON.stringify x
        | _ => JSON.quote k ++ 58%N :: JSON.stringify x ++ 44%N :: members rest
        end
    end.

(** Fuel that suffices to parse the text of a value. *)
Fixpoint jsize (v : json) : nat :=
  match v with
  | JArray items =>
      S ((fix go (l : list json) : nat :=
            match l with
            | [] => 0
            | x :: rest => S (jsize x + go rest)
            end) items)
  | JObject props =>
      S ((fix go (l : list (jsstring * json)) : nat :=
            match l with
            | [] => 0
            | (_, x) :: rest => S (jsize x + go rest)
            end) props)
  | _ => 1
  end.

(** Fuel for the elements of an array and the members of an object. *)
Definition elementsSize (l : list json) : nat :=
  fold_right (fun x n => S (jsize x + n)) 0%nat l.

Definition membersSize (l : list (jsstring * json)) : nat :=
  fold_right (fun kx n => S (jsize kx.2 + n)) 0%nat l.

(** Keys in property order: a later key differs from an earlier one and
    does not sort before it. *)
Fixpoint canonicalKeys (ks : list jsstring) : Prop :=
  match ks with
  | [] => True
  | k :: rest =>
      Forall (fun k' => k' <> k /\ JSON.sortsBefore k' k = false) rest
      /\ canonicalKeys rest
  end.

(** Whether no number of a value is an infinity. *)
Fixpoint finiteJson (v : json) : bool :=
  match v with
  | JNumber x => isFinite x
  | JArray items => forallb finiteJson items
  | JObject props => forallb (fun kx => finiteJson kx.2) props
  | _ => true
  end.

(** The values that [JSON.parse] can return and [JSON.stringify] writes
    in full: finite numbers in canonical form, objects in property
    order. *)
Fixpoint wfJson (v : json) : Prop :=
  match v with
  | JNumber x => wfNumber x
  | JArray items =>
      (fix go (l : list json) : Prop :=
         match l with
         | [] => True
         | x :: rest => wfJson x /\ go rest
         end) items
  | JObject props =>
      canonicalKeys (map fst props)
      /\ (fix go (l : list (jsstring * json)) : Prop :=
            match l with
            | [] => True
            | (_, x) :: rest => wfJson x /\ go rest
            end) props
  | _ => True
  end.

(** What holds of every value that [JSON.parse] returns: unless it holds
    an infinity it is in canonical form. *)
Definition wfIfFinite (v : json) : Prop := finiteJson v = true -> wfJson v.

(** Where the text of a value can start: not with white space and not
    with a closing bracket or brace. *)
Definition valueStart (c : N) : Prop :=
  JSON.isJsonWhiteSpace c = false /\ c <> 93%N /\ c <> 125%N.

(** Where the text of a number starts: a minus sign or a digit. *)
Definition numberStart (c : N) : Prop := c = 45%N \/ JSON.isDigit c = true.

(** The statement proved by induction on the value. *)
Definition readsBack (v : json) : Prop :=
  forall fuel rest,
    wfJson v -> (jsize v <= fuel)%nat -> numberEnds rest ->
    JSON.parseValue fuel (JSON.stringify v ++ rest) = Some (v, rest).

(** The properties [props] defined one after the other on top of [acc],
    as the parser does. *)
Definition replay (props acc : list (jsstring * json)) : list (jsstring * json) :=
  fold_left (fun a kx => JSON.defineProperty kx.1 kx.2 a) props acc.

(** One step of the fan-out seen per provider: the entry of [p] is
    stored under [p]. *)
Definition storeEntry (entryOf : ModelProvider -> AuditResult.t)
    (acc : gmap ModelProvider AuditResult.t) (p : ModelProvider)
    : gmap ModelProvider AuditResult.t :=
  <[p := entryOf p]> acc.

(** Brackets, braces and the backtick: what the later stages of the
    parser look for. *)
Definition isStructural (c : N) : bool :=
  (c =? 91)%N || (c =? 93)%N || (c =? 123)%N || (c =? 125)%N || (c =? 96)%N.

(** The code units a number token is made of. *)
Definition isNumberChar (c : N) : bool :=
  JSON.isDigit c || (c =? 45)%N || (c =? 43)%N || (c =? 46)%N
  || (c =? 101)%N || (c =? 69)%N.

(* ================================================================== *)
(** * handleAudit and the issues on display *)
(* ================================================================== *)

(** [handleAudit]: the value passed to [setAuditResults] once the call
    for the selected model has settled. What [parseAuditResponse] throws
    is caught like a rejection of the call. *)
Definition handleAudit `{Host} (model : ModelProvider)
    (executionMode : ExecutionMode) (direct : Settled)
    (net : nat -> FetchOutcome) : gmap ModelProvider AuditResult.t :=
  match (callGenerativeAi executionMode direct net).1 with
  | Fulfilled responseText =>
      match parseAuditResponseOf responseText with
      | inr r =>
          {[ model := AuditResult.Make (AuditResult.issues r) (AuditResult.error r)
                        (AuditResult.rawResponse r) ]}
      | inl err => {[ model := AuditResult.Make [] (Some (message err)) None ]}
      end
  | Rejected err => {[ model := AuditResult.Make [] (Some (message err)) None ]}
  end.

(** A provider as the string it is at run time. *)
Definition providerName (p : ModelProvider) : jsstring :=
  match p with
  | gemini => js "gemini"
  | openai => js "openai"
  | deepseek => js "deepseek"
  | ali => js "ali"
  | depOCR => js "depOCR"
  | doubao => js "doubao"
  end.

(** [Object.entries(auditResults)]. The keys of the state are provider
    names, which come in the order in which they were defined; both
    handlers define them in the order of [allModels]. *)
Definition entries (auditResults : gmap ModelProvider AuditResult.t)
    : list (ModelProvider * AuditResult.t) :=
  omap (fun p => pair p <$> auditResults !! p) allModels.

(** An issue with the provider it comes from and its identifier. *)
Module IssueWithId.
Record t := Make {
  issue : AuditIssue;
  model : ModelProvider;
  id : jsstring
}.
End IssueWithId.

(** The identifier of the issue at [index] in the list of [model]. *)
Definition issueId (model : ModelProvider) (index : nat) : jsstring :=
  providerName model ++ js "-" ++ JSON.decimal (N.of_nat index).

Definition allIssuesWithIds (auditResults : gmap ModelProvider AuditResult.t)
    : list IssueWithId.t :=
  flat_map (fun '(model, result) =>
              imap (fun index issue =>
                      IssueWithId.Make issue model (issueId model index))
                (AuditResult.issues result))
    (entries auditResults).

(** [allIssuesWithIds.find(i => i.id === selectedIssueId)] *)
Definition findIssue (auditResults : gmap ModelProvider AuditResult.t)
    (selectedIssueId : jsstring) : option IssueWithId.t :=
  find (fun i => Str.eqb (IssueWithId.id i) selectedIssueId) (allIssuesWithIds auditResults).

(* ================================================================== *)
(** * Notions used in the statements, continued *)
(* ================================================================== *)

(** Whether a callback ends a stream: [onComplete] or [onError]. *)
Definition isTerminal (cb : Callback) : bool :=
  match cb with
  | OnChunk _ => false
  | OnComplete | OnError _ => true
  end.

(** The object the audit prompt asks the model for, for one issue. *)
Definition issueJson (i : AuditIssue) : json :=
  JObject [(js "problematicText", problematicText i);
           (js "suggestion", JString (suggestion i));
           (js "checklistItem", JString (checklistItem i));
           (js "explanation", JString (explanation i))].

(** The code units that the removal of trailing commas never takes:
    all but the comma and white space. *)
Definition isKept (c : N) : bool := negb ((c =? 44)%N || Str.isWhiteSpace c).

(** The text [s] with commas put in front of closing brackets and
    braces: the closers of [s] take, in their order, the entries of
    [marks]; an entry [Some ws] puts a comma and the white space [ws] in
    front of its closer, an entry [None] nothing. *)
Fixpoint withTrailingCommas (marks : list (option jsstring)) (s : jsstring) : jsstring :=
  match s with
  | [] => []
  | c :: r =>
      if isCloser c then
        match marks with
        | Some ws :: marks' => 44%N :: ws ++ c :: withTrailingCommas marks' r
        | None :: marks' => c :: withTrailingCommas marks' r
        | [] => c :: withTrailingCommas [] r
        end
      else c :: withTrailingCommas marks r
  end.

(* ================================================================== *)
(** * debounce *)
(* ================================================================== *)

(** The timers of the page: [setTimeout] and [clearTimeout] with the
    clock they run on. A pending timer has its identifier, the time at
    which it is due and the value its callback was created with. *)
Module Timers.

Record t (A : Type) := Make {
  now : N;
  nextId : positive;
  pending : list (positive * (N * A))
}.
Arguments Make {A}.
Arguments now {A}.
Arguments nextId {A}.
Arguments pending {A}.

(** A page on which no timer has been set. *)
Definition start {A} : t A := Make 0 1 [].

(** [setTimeout(callback, delay)]: the identifier, which is greater than
    zero, and the timers with the new one. *)
Definition setTimeout {A} (a : A) (delay : N) (w : t A) : positive * t A :=
  (nextId w,
   Make (now w) (nextId w + 1) (pending w ++ [(nextId w, ((now w + delay)%N, a))])).

(** [clearTimeout(id)]: nothing happens when no such timer is pending. *)
Definition clearTimeout {A} (id : positive) (w : t A) : t A :=
  Make (now w) (nextId w)
    (List.filter (fun e => negb (Pos.eqb e.1 id)) (pending w)).

(** A timer goes in front of the later timers that are not due before
    it. *)
Fixpoint insertDue {A} (e : positive * (N * A)) (l : list (positive * (N * A)))
    : list (positive * (N * A)) :=
  match l with
  | [] => [e]
  | x :: rest =>
      if (x.2.1 <? e.2.1)%N then x :: insertDue e rest else e :: x :: rest
  end.

(** The clock advances by [ms]: the timers that are due by then run, the
    earlier first and those of the same time in the order in which they
    were set. The result lists the values of the callbacks that have
    run. *)
Definition elapse {A} (ms : N) (w : t A) : list A * t A :=
  let time := (now w + ms)%N in
  let due := List.filter (fun e => (e.2.1 <=? time)%N) (pending w) in
  let later := List.filter (fun e => negb (e.2.1 <=? time)%N) (pending w) in
  (map (fun e => e.2.2) (fold_right insertDue [] due),
   Make time (nextId w) later).

End Timers.

(** The function that [debounce] returns: the variable [timeout] of its
    closure, with the timers of the page. The callback of a timer calls
    [func] with the arguments kept in it; [func] itself does not call
    the debounced function and sets no timer. *)
Module Debounced.

Record t (A : Type) := Make {
  timeout : option positive;
  timers : Timers.t A
}.
Arguments Make {A}.
Arguments timeout {A}.
Arguments timers {A}.

(** [debounce(func, waitFor)] on a page without timers. *)
Definition create {A} : t A := Make None Timers.start.

(** [debounced(...args)] *)
Definition call {A} (waitFor : N) (args : A) (d : t A) : t A :=
  let w :=
    match timeout d with
    | Some id => Timers.clearTimeout id (timers d)
    | None => timers d
    end in
  let '(id, w') := Timers.setTimeout args waitFor w in
  Make (Some id) w'.

(** [debounced.clearTimeout()] *)
Definition clearTimeout {A} (d : t A) : t A :=
  match timeout d with
  | Some id => Make None (Timers.clearTimeout id (timers d))
  | None => d
  end.

(** What happens to a debounced function. *)
Inductive Event (A : Type) :=
  | Call (args : A)
  | ClearTimeout
  | Elapse (ms : N).
Arguments Call {A}.
Arguments ClearTimeout {A}.
Arguments Elapse {A}.

(** One event: the arguments with which [func] is called, and the state
    afterwards. *)
Definition step {A} (waitFor : N) (d : t A) (e : Event A) : list A * t A :=
  match e with
  | Call args => ([], call waitFor args d)
  | ClearTimeout => ([], clearTimeout d)
  | Elapse ms =>
      let '(ran, w) := Timers.elapse ms (timers d) in
      (ran, Make (timeout d) w)
  end.

(** The calls of [func] during a sequence of events, in order. *)
Fixpoint run {A} (waitFor : N) (d : t A) (events : list (Event A)) : list A * t A :=
  match events with
  | [] => ([], d)
  | e :: rest =>
      let '(ran, d') := step waitFor d e in
      let '(ran', d'') := run waitFor d' rest in
      (ran ++ ran', d'')
  end.

End Debounced.

(** At most one timer is pending, and it is the one that the variable
    [timeout] holds. *)
Definition atMostOneTimer {A} (d : Debounced.t A) : Prop :=
  match Timers.pending (Debounced.timers d) with
  | [] => True
  | [(id, _)] => Debounced.timeout d = Some id
  | _ => False
  end.

(** A timer is pending that is due [waitFor] from now and holds [a]. *)
Definition armed {A} (waitFor : N) (d : Debounced.t A) (a : A) : Prop :=
  exists id,
    Debounced.timeout d = Some id
    /\ Timers.pending (Debounced.timers d)
       = [(id, ((Timers.now (Debounced.timers d) + waitFor)%N, a))].

(** A burst: a call, and further calls each of them [ms] after the one
    before. *)
Definition burst {A} (first : A) (more : list (N * A)) : list (Debounced.Event A) :=
  Debounced.Call first
  :: flat_map (fun '(ms, args) => [Debounced.Elapse ms; Debounced.Call args]) more.

(* ================================================================== *)
(** * The clipboard of the home view *)
(* ================================================================== *)

Module HomeInput.

(** The text of the work area and the reference [lastPastedText]. *)
Record t := Make {
  inputText : jsstring;
  lastPastedText : jsstring
}.

End HomeInput.

(** [handleFocus]: [clipboard] is what [navigator.clipboard.readText()]
    settles to, [None] when it rejects. *)
Definition handleFocus (hasFocus : bool) (clipboard : option jsstring)
    (st : HomeInput.t) : HomeInput.t :=
  if hasFocus then
    match clipboard with
    | Some text =>
        if match text with [] => false | _ => true end
           && negb (Str.eqb text (HomeInput.lastPastedText st))
           && negb (Str.eqb text (HomeInput.inputText st))
        then
          HomeInput.Make
            (match HomeInput.inputText st with
             | [] => text
             | prev => prev ++ LF ++ LF ++ text
             end)
            text
        else st
    | None => st
    end
  else st.

(* ================================================================== *)
(** * handleSendChatMessage *)
(* ================================================================== *)

(** ToString of a parsed value, as string concatenation and template
    literals apply it. *)
Fixpoint toStringJs (v : json) : jsstring :=
  match v with
  | JNull => js "null"
  | JBool true => js "true"
  | JBool false => js "false"
  | JNumber x => JSON.numberToString x
  | JString s => s
  | JArray items =>
      (fix elements (l : list json) : jsstring :=
         match l with
         | [] => []
         | x :: rest =>
             match x with
             | JNull => []
             | _ => toStringJs x
             end
             ++ match rest with
                | [] => []
                | _ => 44%N :: elements rest
                end
         end) items
  | JObject _ => js "[object Object]"
  end.

Module Role.
Inductive t := user | model.
End Role.

(** A message of the chat beside the note; the fields [sources] and
    [isComplete] are never set there. [isError] is [false] while it is
    absent. *)
Module NoteChatMessage.
Record t := Make {
  role : Role.t;
  text : jsstring;
  isError : bool
}.
End NoteChatMessage.

Module ChatState.
Record t := Make {
  chatHistory : list NoteChatMessage.t;
  chatInput : jsstring;
  isChatLoading : bool
}.
End ChatState.

(** The update of the last message in a copy of the history, when there
    is one. *)
Definition updateLast (f : NoteChatMessage.t -> NoteChatMessage.t)
    (prev : list NoteChatMessage.t) : list NoteChatMessage.t :=
  if (0 <? length prev)%nat then alter f (length prev - 1)%nat prev else prev.

Definition apologyPrefix : jsstring := js "抱歉，出错了: ".

(** The three callbacks that [handleSendChatMessage] passes on. *)
Definition chatCallback (st : ChatState.t) (cb : Callback) : ChatState.t :=
  match cb with
  | OnChunk chunk =>
      ChatState.Make
        (updateLast (fun m => NoteChatMessage.Make (NoteChatMessage.role m)
                                (NoteChatMessage.text m ++ toStringJs chunk)
                                (NoteChatMessage.isError m))
           (ChatState.chatHistory st))
        (ChatState.chatInput st) (ChatState.isChatLoading st)
  | OnComplete =>
      ChatState.Make (ChatState.chatHistory st) (ChatState.chatInput st) false
  | OnError error =>
      ChatState.Make
        (updateLast (fun m => NoteChatMessage.Make (NoteChatMessage.role m)
                                (apologyPrefix ++ message error) true)
           (ChatState.chatHistory st))
        (ChatState.chatInput st) false
  end.

(** [callGenerativeAiStream]: the calls it makes to its callbacks. In
    frontend mode they are those of the direct path, [direct]; in backend
    mode [o] is what the request to the proxy meets. *)
Definition callGenerativeAiStream `{Host} (executionMode : ExecutionMode)
    (direct : list Callback) (o : StreamOutcome) : list Callback :=
  match executionMode with
  | frontend => direct
  | backend => callGenerativeAiStream_backend o
  end.

(** [handleSendChatMessage]: the state when the stream has ended.
    [hasAnalysisResult] tells whether [analysisResult] is set. *)
Definition handleSendChatMessage `{Host} (hasAnalysisResult : bool)
    (executionMode : ExecutionMode) (direct : list Callback) (o : StreamOutcome)
    (st : ChatState.t) : ChatState.t :=
  if match Str.trim (ChatState.chatInput st) with [] => true | _ => false end
     || ChatState.isChatLoading st || negb hasAnalysisResult
  then st
  else
    let newUserMessage :=
      NoteChatMessage.Make Role.user (ChatState.chatInput st) false in
    let currentChatHistory := ChatState.chatHistory st ++ [newUserMessage] in
    let modelResponse := NoteChatMessage.Make Role.model [] false in
    let sent := ChatState.Make (currentChatHistory ++ [modelResponse]) [] true in
    foldl chatCallback sent (callGenerativeAiStream executionMode direct o).


(* ================================================================== *)
(** * renderOriginalTextWithHighlight *)
(* ================================================================== *)

(** SyntaxCharacter of the pattern grammar, which is also the class that
    the escaping [replace] looks for. *)
Definition isSyntaxCharacter (c : N) : bool :=
  (c =? 46)%N || (c =? 42)%N || (c =? 43)%N || (c =? 63)%N || (c =? 94)%N
  || (c =? 36)%N || (c =? 123)%N || (c =? 125)%N || (c =? 40)%N || (c =? 41)%N
  || (c =? 124)%N || (c =? 91)%N || (c =? 93)%N || (c =? 92)%N.

(** The [replace] that puts a backslash in front of every syntax
    character of the term. *)
Definition escapeRegExp (term : jsstring) : jsstring :=
  flat_map (fun c => if isSyntaxCharacter c then [92%N; c] else [c]) term.

(** The string that a pattern matches when it is made of pattern
    characters and identity escapes of syntax characters only; [None]
    for any other pattern. *)
Fixpoint patternLiteral (pattern : jsstring) : option jsstring :=
  match pattern with
  | [] => Some []
  | c :: r =>
      if (c =? 92)%N then
        match r with
        | e :: r' => if isSyntaxCharacter e then cons e <$> patternLiteral r' else None
        | [] => None
        end
      else if isSyntaxCharacter c then None
      else cons c <$> patternLiteral r
  end.

(** [text.split(regex)] for the pattern that is the escaped [term] in a
    capturing group, [term] not being empty: the text is cut at the
    occurrences of [term], found from the left and not overlapping, and
    every occurrence is listed between the pieces. [piece] is the piece
    read so far, [skip] the number of code units of the current
    occurrence still to be passed. *)
Fixpoint splitAtTerm (term : jsstring) (skip : nat) (piece s : jsstring)
    : list jsstring :=
  match s with
  | [] => [piece]
  | c :: r =>
      match skip with
      | S k => splitAtTerm term k piece r
      | O =>
          if Str.startsWith s term
          then piece :: term :: splitAtTerm term (length term - 1) [] r
          else splitAtTerm term 0 (piece ++ [c]) r
      end
  end.

(** What is put into the page for one part. *)
Inductive Part :=
  | Span (part : jsstring) (issueId : option jsstring)
  | Fragment (part : jsstring).

(** The [map] over the parts, with the variable [firstMatch]. *)
Fixpoint markParts (term selectedId : jsstring) (firstMatch : bool)
    (parts : list jsstring) : list Part :=
  match parts with
  | [] => []
  | part :: rest =>
      if Str.eqb part term
      then Span part (if firstMatch then Some selectedId else None)
           :: markParts term selectedId false rest
      else Fragment part :: markParts term selectedId firstMatch rest
  end.

Inductive Rendered :=
  | Placeholder
  | PlainText (text : jsstring)
  | Highlighted (parts : list Part).

(** [renderOriginalTextWithHighlight], [None] when it throws: the
    TypeError of calling [trim] on a term that is not a string. *)
Definition renderOriginalTextWithHighlight (text : jsstring)
    (selectedIssueId : option jsstring)
    (auditResults : gmap ModelProvider AuditResult.t) : option Rendered :=
  match text with
  | [] => Some Placeholder
  | _ =>
      let selectedIssue :=
        match selectedIssueId with
        | Some (c :: i) => findIssue auditResults (c :: i)
        | _ => None
        end in
      match selectedIssue with
      | None => Some (PlainText text)
      | Some selected =>
          let term := problematicText (IssueWithId.issue selected) in
          if negb (toBoolean term) then Some (PlainText text)
          else
            match term with
            | JString term =>
                match Str.trim term with
                | [] => Some (PlainText text)
                | _ =>
                    match patternLiteral (escapeRegExp term) with
                    | Some literal =>
                        let parts := splitAtTerm literal 0 [] text in
                        Some (Highlighted
                                (markParts term (IssueWithId.id selected) true parts))
                    | None => Some (PlainText text)
                    end
                end
            | _ => None
            end
      end
  end.

(** The text that a part shows. *)
Definition partText (p : Part) : jsstring :=
  match p with
  | Span part _ => part
  | Fragment part => part
  end.

(** The text on display. *)
Definition renderedText (r : Rendered) : jsstring :=
  match r with
  | Placeholder => []
  | PlainText text => text
  | Highlighted parts => concat (map partText parts)
  end.

(** The parts that carry the identifier of the selected issue. *)
Definition carriesId (p : Part) : bool :=
  match p with
  | Span _ (Some _) => true
  | _ => false
  end.

(* ================================================================== *)
(** * frontendApiConfig and the frontend mode of callGenerativeAi *)
(* ================================================================== *)

Module ProviderConfig.
Record t := Make {
  apiKey : option jsstring;
  endpoint : option jsstring;
  model : option jsstring
}.
End ProviderConfig.

(** Truthiness of a string that may be [undefined]. *)
Definition truthyString (v : option jsstring) : bool :=
  match v with
  | Some (_ :: _) => true
  | _ => false
  end.

(** [a || b] on such strings. *)
Definition orElse (a b : option jsstring) : option jsstring :=
  if truthyString a then a else b.

(** The endpoint made from a target address, when there is one. *)
Definition completionsOf (target : option jsstring) : option jsstring :=
  if truthyString target
  then Some (default [] target ++ js "/v1/chat/completions")
  else None.

(** [cleanEnv(import.meta.env?.NAME)]; [env] is [import.meta.env]. *)
Definition cleanVar (env : jsstring -> option jsstring) (name : string)
    : option jsstring :=
  cleanEnv (env (js name)).

Definition frontendApiConfig (env : jsstring -> option jsstring)
    (provider : ModelProvider) : ProviderConfig.t :=
  match provider with
  | gemini =>
      ProviderConfig.Make (cleanVar env "VITE_GEMINI_API_KEY") None (Some (js "gemini-2.5-flash"))
  | openai =>
      ProviderConfig.Make (cleanVar env "VITE_OPENAI_API_KEY")
        (orElse (cleanVar env "VITE_OPENAI_ENDPOINT") (completionsOf (cleanVar env "VITE_OPENAI_TARGET_URL")))
        (cleanVar env "VITE_OPENAI_MODEL")
  | deepseek =>
      ProviderConfig.Make (cleanVar env "VITE_DEEPSEEK_API_KEY") (cleanVar env "VITE_DEEPSEEK_ENDPOINT")
        (cleanVar env "VITE_DEEPSEEK_MODEL")
  | ali =>
      ProviderConfig.Make (cleanVar env "VITE_ALI_API_KEY")
        (orElse (cleanVar env "VITE_ALI_ENDPOINT") (completionsOf (cleanVar env "VITE_ALI_TARGET_URL")))
        (cleanVar env "VITE_ALI_MODEL")
  | depOCR =>
      ProviderConfig.Make (cleanVar env "VITE_DEPOCR_API_KEY") (cleanVar env "VITE_DEPOCR_ENDPOINT")
        (cleanVar env "VITE_DEPOCR_MODEL")
  | doubao =>
      ProviderConfig.Make (cleanVar env "VITE_DOUBAO_API_KEY") (cleanVar env "VITE_DOUBAO_ENDPOINT")
        (cleanVar env "VITE_DOUBAO_MODEL")
  end.

(** [toUpperCase] on the Basic Latin letters, which is all that the
    name of a provider holds. *)
Definition upperBasicLatin (c : N) : N :=
  if TextDecoder.between 97 122 c then (c - 32)%N else c.

(** [v.k] and [v[0]] without optional chaining, [read] being the read on
    a value other than [null]: a TypeError on [null] and [undefined]. *)
Definition readProperty `{Host} (v : option json) (k : jsstring)
    (read : json -> option json) : JsError + option json :=
  match v with
  | None => inl (Error_ true (undefinedPropertyMessage k))
  | Some JNull => inl (Error_ true (nullPropertyMessage k))
  | Some x => inr (read x)
  end.

(** [result.choices[0].message.content] *)
Definition messageContent `{Host} (result : json) : JsError + option json :=
  match readProperty (Some result) (js "choices")
          (fun x => getProp x (js "choices")) with
  | inl e => inl e
  | inr choices =>
      match readProperty choices (js "0") index0 with
      | inl e => inl e
      | inr first =>
          match readProperty first (js "message")
                  (fun x => getProp x (js "message")) with
          | inl e => inl e
          | inr message =>
              readProperty message (js "content")
                (fun x => getProp x (js "content"))
          end
      end
  end.

(** [callOpenAiCompatibleApi]: how its promise settles, from what its
    request meets; [statusText] is [response.statusText]. The body of an
    answer in 2xx is read with [response.json()]; what stands in the
    place of the text is returned as it is. *)
Definition callOpenAiCompatibleApi `{Host} (o : FetchOutcome) (statusText : jsstring)
    : Settled :=
  match o with
  | FetchFailed e => Rejected e
  | FetchResponse status body =>
      match body with
      | BodyFailed e => Rejected e
      | BodyText text =>
          if negb (ok status) then
            Rejected (Error (js "API Error: " ++ JSON.decimal status ++ js " "
                             ++ statusText ++ js " - " ++ text))
          else
            match JSON.parse text with
            | None => Rejected (Error_ false (syntaxErrorMessage text))
            | Some result =>
                match messageContent result with
                | inl e => Rejected e
                | inr content => Fulfilled content
                end
            end
      end
  end.

Definition notConfigured (provider : ModelProvider) (what : jsstring) : JsError :=
  Error (js "Frontend Direct mode for " ++ providerName provider ++ what).

(** The frontend branch of [callGenerativeAi]: what the promise settles
    to. [sdk] is how the call of the Gemini client settles, [api] how
    [callOpenAiCompatibleApi] does; neither is reached when the
    configuration is incomplete. *)
Definition callGenerativeAi_frontend (env : jsstring -> option jsstring)
    (provider : ModelProvider) (sdk api : Settled) : Settled :=
  let config := frontendApiConfig env provider in
  if negb (truthyString (ProviderConfig.model config)) then
    Rejected (notConfigured provider (js " is not configured: model is missing."))
  else
    match provider with
    | gemini =>
        if negb (truthyString (ProviderConfig.apiKey config)) then
          Rejected (notConfigured provider
                      (js " is not configured. Please set VITE_GEMINI_API_KEY in your environment."))
        else sdk
    | _ =>
        if negb (truthyString (ProviderConfig.apiKey config)) then
          Rejected (notConfigured provider
                      (js " is not configured. Please set VITE_"
                       ++ map upperBasicLatin (providerName provider)
                       ++ js "_API_KEY in your environment."))
        else if negb (truthyString (ProviderConfig.endpoint config)) then
          Rejected (notConfigured provider
                      (js " is not configured. Please set the endpoint URL in your environment."))
        else api
    end.

(** The variable of the environment that the error for a missing key
    names. *)
Definition keyVariable (provider : ModelProvider) : jsstring :=
  js "VITE_" ++ map upperBasicLatin (providerName provider) ++ js "_API_KEY".

(* ================================================================== *)
(** * Properties *)
(* ================================================================== *)

Example cleanEnv_quoted :
  cleanEnv (Some (js "  'sk-123'  ")) = Some (js "sk-123").
Proof. reflexivity. Qed.

Example cleanEnv_smart :
  cleanEnv (Some (js "“https://x.y/v1”")) = Some (js "https://x.y/v1").
Proof. reflexivity. Qed.

(* ------------------------------------------------------------------ *)
(** ** Prefixes and suffixes removed by [dropWhile] *)
(* ------------------------------------------------------------------ *)

Section DropWhile.

Variable p : N -> bool.

Lemma dropWhile_head c r s : Str.dropWhile p s = c :: r -> p c = false.
Proof.
  induction s as [|x s IH]; simpl; [discriminate|].
  destruct (p x) eqn:Hx; [exact IH|].
  intros [= <- <-]. exact Hx.
Qed.

Lemma dropWhile_fixed c r : p c = false -> Str.dropWhile p (c :: r) = c :: r.
Proof. intros Hc. simpl. now rewrite Hc. Qed.

Lemma dropWhile_idem s : Str.dropWhile p (Str.dropWhile p s) = Str.dropWhile p s.
Proof.
  destruct (Str.dropWhile p s) as [|c r] eqn:E; [reflexivity|].
  apply dropWhile_fixed. eapply dropWhile_head, E.
Qed.

Lemma dropWhile_suffix s : exists t, s = t ++ Str.dropWhile p s.
Proof.
  induction s as [|x s [t IH]]; simpl.
  - now exists [].
  - destruct (p x).
    + exists (x :: t). simpl. now f_equal.
    + now exists [].
Qed.

Lemma dropWhileEnd_prefix s : exists t, s = Str.dropWhileEnd p s ++ t.
Proof.
  unfold Str.dropWhileEnd.
  destruct (dropWhile_suffix (rev s)) as [t Ht].
  exists (rev t).
  rewrite <- rev_app_distr, <- Ht. now rewrite rev_involutive.
Qed.

Lemma dropWhileEnd_idem s :
  Str.dropWhileEnd p (Str.dropWhileEnd p s) = Str.dropWhileEnd p s.
Proof.
  unfold Str.dropWhileEnd. rewrite rev_involutive. now rewrite dropWhile_idem.
Qed.

End DropWhile.

(** Cutting the end of a string leaves its first code unit in place. *)
Lemma dropWhile_dropWhileEnd (p q : N -> bool) s :
  Str.dropWhile p (Str.dropWhileEnd q (Str.dropWhile p s))
  = Str.dropWhileEnd q (Str.dropWhile p s).
Proof.
  destruct (dropWhileEnd_prefix q (Str.dropWhile p s)) as [t Ht].
  destruct (Str.dropWhileEnd q (Str.dropWhile p s)) as [|c r] eqn:E; [reflexivity|].
  apply dropWhile_fixed.
  simpl in Ht. eapply dropWhile_head. exact Ht.
Qed.

Lemma stripQuotes_idem s : stripQuotes (stripQuotes s) = stripQuotes s.
Proof.
  unfold stripQuotes.
  rewrite dropWhile_dropWhileEnd. apply dropWhileEnd_idem.
Qed.

(* ------------------------------------------------------------------ *)
(** ** cleanEnv *)
(* ------------------------------------------------------------------ *)

(** C9, as stated, fails: a quoted value with a blank inside the quotes is
    cleaned to a string that starts with the blank, and cleaning that
    string again removes the blank. *)
Lemma cleanEnv_not_idempotent :
  let s := Some (QUOTE ++ js " a" ++ QUOTE) in
  cleanEnv s = Some (js " a")
  /\ cleanEnv (cleanEnv s) = Some (js "a")
  /\ cleanEnv (cleanEnv s) <> cleanEnv s.
Proof. vm_compute. repeat split; discriminate. Qed.

(** C9, amended: [cleanEnv (cleanEnv s) = cleanEnv s] for every [s] whose
    cleaned value, if there is one, is not empty and has no white space
    at either end; stripping the quotes is idempotent by itself, but the
    white space it uncovers is only trimmed by a second pass. *)
Theorem cleanEnv_idempotent_on_trimmed (s : option jsstring) :
  (forall r, cleanEnv s = Some r -> r <> [] /\ Str.trim r = r) ->
  cleanEnv (cleanEnv s) = cleanEnv s.
Proof.
  intros Hr.
  destruct (cleanEnv s) as [r|] eqn:E; [|reflexivity].
  destruct (Hr r eq_refl) as [Hne Htrim].
  destruct s as [[|c v]|]; simpl in E; try discriminate.
  injection E as E.
  destruct r as [|x r]; [congruence|].
  unfold cleanEnv. rewrite Htrim. f_equal.
  rewrite <- E. apply stripQuotes_idem.
Qed.

Lemma cleanEnv_idempotent_on_trimmed_witness :
  let s := Some (js "  'sk-123'  ") in
  cleanEnv (cleanEnv s) = cleanEnv s.
Proof.
  intros s. apply (cleanEnv_idempotent_on_trimmed s).
  intros r Hr. vm_compute in Hr. injection Hr as <-.
  split; [discriminate | reflexivity].
Defined.

(* ------------------------------------------------------------------ *)
(** ** callGenerativeAi in backend mode *)
(* ------------------------------------------------------------------ *)

Lemma ok_true (status : N) : ok status = true <-> (200 <= status <= 299)%N.
Proof.
  unfold ok, TextDecoder.between.
  rewrite andb_true_iff, !N.leb_le. reflexivity.
Qed.

Lemma ok_false (status : N) : ok status = false <-> (status < 200 \/ 299 < status)%N.
Proof.
  unfold ok, TextDecoder.between.
  rewrite andb_false_iff, !N.leb_gt. reflexivity.
Qed.

(** An attempt is rejected exactly when it fails, with the error of the
    failure. *)
Lemma attempt_rejected_cases (o : FetchOutcome) (e : JsError) :
  attempt o = Rejected e <-> attemptFails o e.
Proof.
  split.
  - destruct o as [e'|status body]; simpl.
    + intros [= ->]. constructor.
    + destruct (ok status) eqn:Hok; simpl.
      * destruct body as [text|e']; [discriminate|].
        intros [= ->]. constructor. now apply ok_true.
      * intros [= <-]. constructor. now apply ok_false.
  - intros [e'|status body Hok%ok_false|status e' Hok%ok_true]; simpl.
    + reflexivity.
    + now rewrite Hok.
    + now rewrite Hok.
Qed.

(** An attempt is fulfilled exactly by an answer in 2xx whose body can be
    read, with the text of that body. *)
Lemma attempt_fulfilled_cases (o : FetchOutcome) (value : option json) :
  attempt o = Fulfilled value <->
  exists status text,
    o = FetchResponse status (BodyText text) /\ (200 <= status <= 299)%N
    /\ value = Some (JString text).
Proof.
  split.
  - destruct o as [e|status [text|e]]; simpl; [discriminate| |].
    + destruct (ok status) eqn:Hok; simpl; [|discriminate].
      intros [= <-]. exists status, text. split; [reflexivity|].
      split; [now apply ok_true|reflexivity].
    + destruct (ok status); discriminate.
  - intros (status & text & -> & Hok%ok_true & ->). simpl. now rewrite Hok.
Qed.

(** The four ways a backend-mode call can go. *)
Lemma callGenerativeAi_backend_cases `{Host} (direct : Settled)
    (net : nat -> FetchOutcome) :
  let run := callGenerativeAi backend direct net in
  match attempt (net 0%nat), attempt (net 1%nat), attempt (net 2%nat) with
  | Fulfilled t, _, _ => run = (Fulfilled t, retryTrace 0)
  | Rejected _, Fulfilled t, _ => run = (Fulfilled t, retryTrace 1)
  | Rejected _, Rejected _, Fulfilled t => run = (Fulfilled t, retryTrace 2)
  | Rejected _, Rejected _, Rejected e =>
      run = (Rejected (Error (getBackendErrorMessage e API_BASE_URL)),
             retryTrace 2)
  end.
Proof.
  cbn zeta. unfold callGenerativeAi. simpl.
  destruct (attempt (net 0%nat)); [reflexivity|].
  destruct (attempt (net 1%nat)); [reflexivity|].
  destruct (attempt (net 2%nat)); reflexivity.
Qed.

(** C1. A backend-mode call sends at most three requests and waits one
    second between two of them. Every attempt either succeeds, which
    is an answer in 2xx whose body can be read, or fails. After every
    failed attempt but the third the call tries again, whatever the
    failure; it returns the text of the body of the first attempt that
    succeeds; and after three failures it throws the message classified
    from the error of the third attempt alone. *)
Theorem callGenerativeAi_backend_retry `{Host} (direct : Settled)
    (net : nat -> FetchOutcome) :
  let run := callGenerativeAi backend direct net in
  (exists k, (k < 3)%nat /\ run.2 = retryTrace k)
  /\ (forall k status text,
        (k < 3)%nat ->
        (forall j, (j < k)%nat -> exists e, attemptFails (net j) e) ->
        net k = FetchResponse status (BodyText text) ->
        (200 <= status <= 299)%N ->
        run = (Fulfilled (Some (JString text)), retryTrace k))
  /\ (forall e,
        (forall j, (j < 2)%nat -> exists e', attemptFails (net j) e') ->
        attemptFails (net 2%nat) e ->
        run = (Rejected (Error (getBackendErrorMessage e API_BASE_URL)),
               retryTrace 2))
  /\ (forall o,
        (exists status text,
           o = FetchResponse status (BodyText text) /\ (200 <= status <= 299)%N)
        \/ (exists e, attemptFails o e)).
Proof.
  intros run. pose proof (callGenerativeAi_backend_cases direct net) as Hc.
  cbn zeta in Hc. fold run in Hc.
  assert (Hfail : forall j, (exists e, attemptFails (net j) e) ->
                    exists e, attempt (net j) = Rejected e).
  { intros j [e He]. exists e. now apply attempt_rejected_cases. }
  split; [|split; [|split]].
  - destruct (attempt (net 0%nat)); [exists 0%nat; rewrite Hc; split; [lia|reflexivity]|].
    destruct (attempt (net 1%nat)); [exists 1%nat; rewrite Hc; split; [lia|reflexivity]|].
    destruct (attempt (net 2%nat)); exists 2%nat; rewrite Hc; split; (lia || reflexivity).
  - intros k status text Hk Hprev Hnet Hok.
    assert (Hgood : attempt (net k) = Fulfilled (Some (JString text))).
    { apply attempt_fulfilled_cases. now exists status, text. }
    destruct k as [|[|[|k]]]; [| | |lia].
    + rewrite Hgood in Hc. exact Hc.
    + destruct (Hfail 0%nat (Hprev 0%nat ltac:(lia))) as [e0 E0].
      rewrite E0, Hgood in Hc. exact Hc.
    + destruct (Hfail 0%nat (Hprev 0%nat ltac:(lia))) as [e0 E0].
      destruct (Hfail 1%nat (Hprev 1%nat ltac:(lia))) as [e1 E1].
      rewrite E0, E1, Hgood in Hc. exact Hc.
  - intros e Hprev Hlast.
    destruct (Hfail 0%nat (Hprev 0%nat ltac:(lia))) as [e0 E0].
    destruct (Hfail 1%nat (Hprev 1%nat ltac:(lia))) as [e1 E1].
    apply attempt_rejected_cases in Hlast.
    rewrite E0, E1, Hlast in Hc. exact Hc.
  - intros o. destruct (attempt o) as [value|e] eqn:E.
    + left. apply attempt_fulfilled_cases in E as (status & text & -> & Hok & _).
      now exists status, text.
    + right. exists e. now apply attempt_rejected_cases.
Qed.

(** The retry budget at work: a request that does not get through, then
    an answer whose body breaks off, then a good answer. *)
Lemma callGenerativeAi_backend_retry_witness :
  let net := fun i : nat =>
    match i with
    | 0%nat => FetchFailed (Error_ true (js "Failed to fetch"))
    | 1%nat => FetchResponse 200 (BodyFailed (Error_ true (js "network error")))
    | _ => FetchResponse 201 (BodyText (jq "[{'problematicText':'teh'}]"))
    end in
  @callGenerativeAi exampleHost backend (Rejected (Error [])) net
  = (Fulfilled (Some (JString (jq "[{'problematicText':'teh'}]"))),
     [Fetch 0; Sleep 1000; Fetch 1; Sleep 1000; Fetch 2]).
Proof.
  intros net.
  refine (proj1 (proj2 (@callGenerativeAi_backend_retry exampleHost
                          (Rejected (Error [])) net))
            2%nat 201%N (jq "[{'problematicText':'teh'}]") _ _ eq_refl _).
  - lia.
  - intros j Hj. destruct j as [|[|j]]; [| |lia].
    + eexists. apply request_rejected.
    + eexists. apply body_unreadable. lia.
  - lia.
Defined.

(* ------------------------------------------------------------------ *)
(** ** handleAuditAll *)
(* ------------------------------------------------------------------ *)

Section Fanout.

Variable entryOf : ModelProvider -> AuditResult.t.

Lemma foldl_storeEntry_lookup (l : list ModelProvider)
    (acc : gmap ModelProvider AuditResult.t) (p : ModelProvider) :
  foldl (storeEntry entryOf) acc l !! p
  = if decide (p ∈ l) then Some (entryOf p) else acc !! p.
Proof.
  revert acc. induction l as [|q l IH]; intros acc; cbn [foldl].
  - destruct (decide (p ∈ [])) as [Hin|_]; [by apply elem_of_nil in Hin | done].
  - rewrite IH. unfold storeEntry.
    destruct (decide (p ∈ l)) as [Hl|Hl].
    + rewrite decide_True by (by apply elem_of_cons; right). done.
    + destruct (decide (p = q)) as [->|Hne].
      * rewrite decide_True by (by apply elem_of_cons; left).
        by rewrite lookup_insert_eq.
      * rewrite decide_False.
        -- by rewrite lookup_insert_ne.
        -- intros [?|?]%elem_of_cons; done.
Qed.

Lemma foldl_storeEntry_dom (l : list ModelProvider)
    (acc : gmap ModelProvider AuditResult.t) :
  dom (foldl (storeEntry entryOf) acc l) = list_to_set l ∪ dom acc.
Proof.
  revert acc. induction l as [|q l IH]; intros acc; cbn [foldl].
  - rewrite list_to_set_nil. now rewrite (left_id_L ∅ (∪)).
  - rewrite IH. unfold storeEntry.
    rewrite dom_insert_L, list_to_set_cons, !(assoc_L (∪)).
    now rewrite (comm_L (∪) (list_to_set l) {[q]}).
Qed.

End Fanout.

(** Once an entry has thrown, the loop stores nothing more. *)
Lemma foldl_storeResult_inl `{Host} (models : list ModelProvider) (e : JsError)
    (l : list (nat * Settled)) :
  foldl (storeResult models) (inl e) l = inl e.
Proof. induction l as [|[i r] l IH]; [reflexivity|exact IH]. Qed.

(** While no entry throws, the loop stores, for every provider in turn,
    the entry made from the result of its own call. *)
Lemma collectAuditResults_stored `{Host} (f : ModelProvider -> Settled)
    (entryOf : ModelProvider -> AuditResult.t)
    (post pre : list ModelProvider) (acc : gmap ModelProvider AuditResult.t) :
  (forall p, p ∈ post -> auditEntry (f p) = inr (entryOf p)) ->
  foldl (storeResult (pre ++ post)) (inr acc)
    (imap (fun index result => (length pre + index, result)) (map f post))
  = inr (foldl (storeEntry entryOf) acc post).
Proof.
  revert pre acc. induction post as [|p post IH]; intros pre acc Hentries; [done|].
  cbn [map imap foldl storeResult]. rewrite Nat.add_0_r.
  rewrite lookup_app_r by lia. rewrite Nat.sub_diag. cbn [lookup list_lookup].
  rewrite (Hentries p) by (apply elem_of_cons; now left).
  specialize (IH (pre ++ [p]) (storeEntry entryOf acc p)).
  rewrite <- (assoc_L (++)) in IH. cbn [app] in IH.
  rewrite <- IH by (intros q Hq; apply Hentries, elem_of_cons; now right).
  unfold storeEntry. f_equal.
  apply imap_ext. intros i x _. cbn. rewrite length_app. cbn [length].
  f_equal. lia.
Qed.

(** An entry that throws makes the whole loop throw. *)
Lemma collectAuditResults_thrown `{Host} (f : ModelProvider -> Settled)
    (post pre : list ModelProvider) (acc : gmap ModelProvider AuditResult.t)
    (p : ModelProvider) (e : JsError) :
  p ∈ post -> auditEntry (f p) = inl e ->
  exists e',
    foldl (storeResult (pre ++ post)) (inr acc)
      (imap (fun index result => (length pre + index, result)) (map f post))
    = inl e'.
Proof.
  intros Hp He. revert pre acc.
  induction post as [|q post IH]; intros pre acc; [now apply elem_of_nil in Hp|].
  cbn [map imap foldl storeResult]. rewrite Nat.add_0_r.
  rewrite lookup_app_r by lia. rewrite Nat.sub_diag. cbn [lookup list_lookup].
  destruct (auditEntry (f q)) as [e0|entry] eqn:Eq.
  - exists e0. apply foldl_storeResult_inl.
  - apply elem_of_cons in Hp as [->|Hp]; [congruence|].
    destruct (IH Hp (pre ++ [q]) (<[q := entry]> acc)) as [e' He'].
    exists e'. rewrite <- He'. rewrite <- (assoc_L (++)). cbn [app]. f_equal.
    apply imap_ext. intros i x _. cbn. rewrite length_app. cbn [length].
    f_equal. lia.
Qed.

Lemma auditAll_stored `{Host} models executionMode direct net
    (entryOf : ModelProvider -> AuditResult.t) :
  (forall p, p ∈ models ->
     auditEntry (callGenerativeAi executionMode (direct p) (net p)).1
     = inr (entryOf p)) ->
  auditAll models executionMode direct net
  = inr (foldl (storeEntry entryOf) ∅ models).
Proof.
  intros Hentries. unfold auditAll, collectAuditResults.
  exact (collectAuditResults_stored
           (fun p => (callGenerativeAi executionMode (direct p) (net p)).1)
           entryOf models [] ∅ Hentries).
Qed.

Lemma auditAll_thrown `{Host} models executionMode direct net p e :
  p ∈ models ->
  auditEntry (callGenerativeAi executionMode (direct p) (net p)).1 = inl e ->
  exists e', auditAll models executionMode direct net = inl e'.
Proof.
  intros Hp He. unfold auditAll, collectAuditResults.
  exact (collectAuditResults_thrown
           (fun p => (callGenerativeAi executionMode (direct p) (net p)).1)
           models [] ∅ p e Hp He).
Qed.

(** The fan-out stores its results exactly when no entry throws, and the
    entry of every provider is then the one made from its own call. *)
Lemma auditAll_inr `{Host} models executionMode direct net results :
  auditAll models executionMode direct net = inr results ->
  dom results = list_to_set models
  /\ forall p, p ∈ models ->
       exists entry,
         auditEntry (callGenerativeAi executionMode (direct p) (net p)).1
         = inr entry
         /\ results !! p = Some entry.
Proof.
  intros Hall.
  set (outcome := fun p => (callGenerativeAi executionMode (direct p) (net p)).1) in *.
  set (entryOf := fun p => match auditEntry (outcome p) with
                           | inr entry => entry
                           | inl _ => AuditResult.Make [] None None
                           end).
  assert (Hentries : forall p, p ∈ models -> auditEntry (outcome p) = inr (entryOf p)).
  { intros p Hp. unfold entryOf.
    destruct (auditEntry (outcome p)) as [e|entry] eqn:E; [|reflexivity].
    destruct (auditAll_thrown models executionMode direct net p e Hp E) as [e' He'].
    congruence. }
  rewrite (auditAll_stored models executionMode direct net entryOf Hentries) in Hall.
  injection Hall as <-. split.
  - rewrite foldl_storeEntry_dom, dom_empty_L. apply (right_id_L ∅ (∪)).
  - intros p Hp. exists (entryOf p). split; [exact (Hentries p Hp)|].
    rewrite foldl_storeEntry_lookup. by rewrite decide_True.
Qed.

(** In backend mode a call is fulfilled with a string only. *)
Lemma callGenerativeAi_backend_string `{Host} (direct : Settled)
    (net : nat -> FetchOutcome) (value : option json) :
  (callGenerativeAi backend direct net).1 = Fulfilled value ->
  exists text, value = Some (JString text).
Proof.
  pose proof (callGenerativeAi_backend_cases direct net) as Hc. cbn zeta in Hc.
  assert (Hstring : forall o v, attempt o = Fulfilled v ->
                      exists text, v = Some (JString text)).
  { intros o v (status & text & _ & _ & ->)%attempt_fulfilled_cases. now exists text. }
  destruct (attempt (net 0%nat)) as [v0|e0] eqn:E0.
  { rewrite Hc. intros [= <-]. exact (Hstring _ _ E0). }
  destruct (attempt (net 1%nat)) as [v1|e1] eqn:E1.
  { rewrite Hc. intros [= <-]. exact (Hstring _ _ E1). }
  destruct (attempt (net 2%nat)) as [v2|e2] eqn:E2; rewrite Hc.
  - intros [= <-]. exact (Hstring _ _ E2).
  - discriminate.
Qed.

Lemma allModels_NoDup : NoDup allModels.
Proof. apply (bool_decide_unpack _). vm_compute. exact I. Qed.

Lemma elem_of_allModels (p : ModelProvider) : p ∈ allModels.
Proof. destruct p; repeat constructor. Qed.

(** C2. The claim fails on the code: in frontend mode a call can be
    fulfilled with a value that is not a string, as when the answer of
    the provider holds [null] for its content. Whatever the calls for the
    other providers meet, the fan-out then throws and stores no entry
    for anybody, whereas the audit with that provider alone catches the
    same error and stores an entry with its message. *)
Theorem handleAuditAll_fails_as_a_unit `{Host} (direct : ModelProvider -> Settled)
    (net : ModelProvider -> nat -> FetchOutcome) (p : ModelProvider) :
  let direct' := fun q => if decide (q = p) then Fulfilled (Some JNull) else direct q in
  (exists e, handleAuditAll frontend direct' net = inl e)
  /\ handleAudit p frontend (direct' p) (net p)
     = {[ p := AuditResult.Make []
                 (Some (notStringMessage (Some JNull) (js "trim"))) None ]}.
Proof.
  intros direct'.
  assert (Hp : direct' p = Fulfilled (Some JNull)).
  { unfold direct'. now rewrite decide_True. }
  split.
  - apply (auditAll_thrown allModels frontend direct' net p
             (notAString (Some JNull) (js "trim")) (elem_of_allModels p)).
    cbn [callGenerativeAi fst]. now rewrite Hp.
  - unfold handleAudit. cbn [callGenerativeAi fst]. now rewrite Hp.
Qed.

(** Six providers in frontend mode, the second of which answers with
    [null] in the place of the text. *)
Example handleAuditAll_null_answer :
  let env := fun name =>
    if Str.eqb name (js "VITE_OPENAI_API_KEY") then Some (js "sk-123")
    else if Str.eqb name (js "VITE_OPENAI_ENDPOINT")
         then Some (js "https://llm.example/v1/chat/completions")
    else if Str.eqb name (js "VITE_OPENAI_MODEL") then Some (js "gpt-4o")
    else None in
  let answer :=
    FetchResponse 200
      (BodyText (jq "{'choices':[{'message':{'role':'assistant','content':null}}]}")) in
  let direct := fun p : ModelProvider =>
    match p with
    | openai =>
        callGenerativeAi_frontend env openai (Rejected (Error []))
          (@callOpenAiCompatibleApi exampleHost answer (js "OK"))
    | _ => Fulfilled (Some (JString (js "[]")))
    end in
  let net := fun (_ : ModelProvider) (_ : nat) => FetchFailed (Error []) in
  direct openai = Fulfilled (Some JNull)
  /\ @handleAuditAll exampleHost frontend direct net
     = inl (Error_ true (js "Cannot read properties of null (reading 'trim')"))
  /\ @handleAudit exampleHost openai frontend (direct openai) (net openai)
     = {[ openai := AuditResult.Make []
                      (Some (js "Cannot read properties of null (reading 'trim')"))
                      None ]}
  /\ @handleAudit exampleHost gemini frontend (direct gemini) (net gemini)
     = {[ gemini := AuditResult.Make [] None None ]}.
Proof. repeat split. Qed.

(** X29. In backend mode the fan-out never fails as a unit: it stores a
    map with exactly one entry per provider; the entry of a provider is
    made from the outcome of its own call alone (the parsed answer when
    the call is fulfilled, an empty issue list with the message of the
    error when it is rejected), so that no rejection removes or changes
    the entry of another provider. *)
Theorem handleAuditAll_backend_isolation `{Host} (direct : ModelProvider -> Settled)
    (net : ModelProvider -> nat -> FetchOutcome) :
  let outcome := fun p => (callGenerativeAi backend (direct p) (net p)).1 in
  exists results,
    handleAuditAll backend direct net = inr results
    /\ dom results = list_to_set allModels
    /\ size results = 6%nat
    /\ (forall p, (exists text, outcome p = Fulfilled (Some (JString text)))
                  \/ (exists reason, outcome p = Rejected reason))
    /\ (forall p text,
          outcome p = Fulfilled (Some (JString text)) ->
          results !! p = Some (parseAuditResponse text))
    /\ (forall p reason,
          outcome p = Rejected reason ->
          results !! p = Some (AuditResult.Make [] (Some (message reason)) None))
    /\ (forall p direct' net' results',
          handleAuditAll backend direct' net' = inr results' ->
          net' p = net p ->
          results' !! p = results !! p).
Proof.
  intros outcome.
  assert (Hcases : forall p, (exists text, outcome p = Fulfilled (Some (JString text)))
                             \/ (exists reason, outcome p = Rejected reason)).
  { intros p. destruct (outcome p) as [value|reason] eqn:E; [left|right; eauto].
    destruct (callGenerativeAi_backend_string _ _ _ E) as [text ->]. eauto. }
  assert (Hentry : forall (d : ModelProvider -> Settled)
                            (n : ModelProvider -> nat -> FetchOutcome) p,
            exists entry,
              auditEntry (callGenerativeAi backend (d p) (n p)).1 = inr entry).
  { intros d n p.
    destruct (callGenerativeAi backend (d p) (n p)).1 as [value|reason] eqn:E;
      [|eexists; reflexivity].
    destruct (callGenerativeAi_backend_string _ _ _ E) as [text ->].
    eexists. reflexivity. }
  destruct (handleAuditAll backend direct net) as [e|results] eqn:Hall.
  { exfalso. unfold handleAuditAll in Hall.
    set (entryOf := fun p => match auditEntry (outcome p) with
                             | inr entry => entry
                             | inl _ => AuditResult.Make [] None None
                             end).
    rewrite (auditAll_stored allModels backend direct net entryOf) in Hall;
      [discriminate|].
    intros p _. unfold entryOf. fold (outcome p).
    destruct (Hentry direct net p) as [entry He]. fold (outcome p) in He.
    now rewrite He. }
  destruct (auditAll_inr allModels backend direct net results Hall) as [Hdom Hlookup].
  exists results. split; [reflexivity|]. split; [exact Hdom|].
  split; [|split; [exact Hcases|split; [|split]]].
  - rewrite <- size_dom, Hdom. apply (size_list_to_set allModels), allModels_NoDup.
  - intros p text Hout.
    destruct (Hlookup p (elem_of_allModels p)) as (entry & He & ->).
    fold (outcome p) in He. rewrite Hout in He. cbn in He. congruence.
  - intros p reason Hout.
    destruct (Hlookup p (elem_of_allModels p)) as (entry & He & ->).
    fold (outcome p) in He. rewrite Hout in He. cbn in He. congruence.
  - intros p direct' net' results' Hall' Hnet.
    destruct (auditAll_inr allModels backend direct' net' results' Hall')
      as [_ Hlookup'].
    destruct (Hlookup p (elem_of_allModels p)) as (entry & He & ->).
    destruct (Hlookup' p (elem_of_allModels p)) as (entry' & He' & ->).
    cbn [callGenerativeAi fst] in He, He'. rewrite Hnet in He'. congruence.
Qed.

(** Six providers, the first of which cannot be reached: its entry holds
    the error, the entries of the others hold what they answered. *)
Lemma handleAuditAll_backend_isolation_witness :
  let net := fun (p : ModelProvider) (_ : nat) =>
    match p with
    | gemini => FetchFailed (Error_ true (js "Failed to fetch"))
    | openai => FetchResponse 200 (BodyText (js "not json"))
    | _ => FetchResponse 200 (BodyText (js "[]"))
    end in
  exists results,
    @handleAuditAll exampleHost backend (fun _ => Rejected (Error [])) net
    = inr results
    /\ size results = 6%nat
    /\ results !! gemini
       = Some (AuditResult.Make []
                 (Some (networkFailureMessage (js "https://notes.example/api"))) None)
    /\ results !! openai
       = Some (AuditResult.Make [] (Some (js "未能将模型响应解析为有效的JSON。"))
                 (Some (js "not json")))
    /\ results !! doubao = Some (AuditResult.Make [] None None).
Proof.
  intros net.
  destruct (@handleAuditAll_backend_isolation exampleHost
              (fun _ => Rejected (Error [])) net)
    as (results & Hall & _ & Hsize & _ & Hfulfilled & Hrejected & _).
  exists results. split; [exact Hall|]. split; [exact Hsize|]. split; [|split].
  - exact (Hrejected gemini
             (Error (networkFailureMessage (js "https://notes.example/api"))) eq_refl).
  - etrans; [exact (Hfulfilled openai (js "not json") eq_refl)|].
    vm_compute. reflexivity.
  - etrans; [exact (Hfulfilled doubao (js "[]") eq_refl)|].
    vm_compute. reflexivity.
Defined.

(* ------------------------------------------------------------------ *)
(** ** parseAuditResponse: reconstruction of the issues *)
(* ------------------------------------------------------------------ *)

Lemma validIssues_app (l1 l2 : list json) :
  validIssues (l1 ++ l2) = validIssues l1 ++ validIssues l2.
Proof. unfold validIssues. apply omap_app. Qed.

Lemma reconstructIssue_not_object (c : json) :
  (forall props, c <> JObject props) -> reconstructIssue c = None.
Proof.
  intros Hc. destruct c as [| | | |items|props]; try reflexivity.
  now destruct (Hc props).
Qed.

(** C8, as stated, fails: an object without [problematicText] whose
    [suggestion] is the empty string carries a string suggestion, and is
    dropped, not kept with the placeholder. *)
Lemma reconstructIssue_empty_suggestion_dropped :
  let candidate := JObject [(js "suggestion", JString [])] in
  asString (getProp candidate (js "problematicText")) = None
  /\ asString (getProp candidate (js "suggestion")) = Some []
  /\ reconstructIssue candidate = None
  /\ validIssues [candidate] = [].
Proof. vm_compute. repeat split. Qed.

(** A [problematicText] that is present but not a string is let through
    as it is when the object is salvaged. *)
Example reconstructIssue_number_text :
  let five := JNumber (Number false [5%N] 0) in
  reconstructIssue
    (JObject [(js "problematicText", five); (js "suggestion", JString (js "fix it"))])
  = Some {| problematicText := five;
            suggestion := js "fix it";
            checklistItem := js "通用规则";
            explanation := js "无详细说明" |}.
Proof. vm_compute. reflexivity. Qed.

(** C8, amended. The reconstruction is a total function on every list of
    parsed values, so it cannot raise; it treats every entry by itself and
    keeps the order, so that dropping an entry leaves its siblings as they
    are; an entry that is not an object is dropped; an object without a
    non-empty string [problematicText] is kept exactly when it has a
    non-empty string [suggestion] or a non-empty string [explanation], and
    then gets the placeholder if its [problematicText] is missing or falsy;
    an object with a non-empty string [problematicText] is kept with that
    text. *)
Theorem validIssues_salvage :
  (forall l1 bad l2,
      reconstructIssue bad = None ->
      validIssues (l1 ++ bad :: l2) = validIssues l1 ++ validIssues l2)
  /\ (forall l1 good kept l2,
        reconstructIssue good = Some kept ->
        validIssues (l1 ++ good :: l2) = validIssues l1 ++ kept :: validIssues l2)
  /\ (forall c, (forall props, c <> JObject props) -> reconstructIssue c = None)
  /\ (forall props,
        let text := ownProperty props (js "problematicText") in
        nonEmptyString text = false ->
        if nonEmptyString (ownProperty props (js "suggestion"))
           || nonEmptyString (ownProperty props (js "explanation"))
        then exists kept,
            reconstructIssue (JObject props) = Some kept
            /\ (truthy text = false -> problematicText kept = JString placeholderText)
        else reconstructIssue (JObject props) = None)
  /\ (forall props x s,
        ownProperty props (js "problematicText") = Some (JString (x :: s)) ->
        exists kept,
          reconstructIssue (JObject props) = Some kept
          /\ problematicText kept = JString (x :: s)).
Proof.
  split; [|split; [|split; [|split]]].
  - intros l1 bad l2 Hbad. rewrite validIssues_app. f_equal.
    unfold validIssues. simpl. now rewrite Hbad.
  - intros l1 good kept l2 Hgood. rewrite validIssues_app. f_equal.
    unfold validIssues. simpl. now rewrite Hgood.
  - exact reconstructIssue_not_object.
  - intros props text Htext. unfold reconstructIssue, getProp. fold text.
    rewrite Htext. simpl.
    destruct (nonEmptyString (ownProperty props (js "suggestion"))
              || nonEmptyString (ownProperty props (js "explanation"))).
    + eexists. split; [reflexivity|]. simpl.
      destruct text as [t|]; simpl; [|reflexivity].
      now intros ->.
    + reflexivity.
  - intros props x s Htext. unfold reconstructIssue, getProp.
    rewrite Htext. simpl. eexists. split; reflexivity.
Qed.

(** The salvage at work: the second entry is dropped, the third is kept
    with the placeholder, the first is left as it is. *)
Lemma validIssues_salvage_witness :
  let valid := JObject [(js "problematicText", JString (js "teh"));
                        (js "suggestion", JString (js "the"))] in
  let empty := JObject [(js "checklistItem", JString (js "spelling"))] in
  let salvaged := JObject [(js "suggestion", JString (js "fix it"))] in
  validIssues ([valid] ++ empty :: [salvaged])
  = [ {| problematicText := JString (js "teh"); suggestion := js "the";
         checklistItem := js "通用规则"; explanation := js "无详细说明" |};
      {| problematicText := JString placeholderText; suggestion := js "fix it";
         checklistItem := js "通用规则"; explanation := js "无详细说明" |} ].
Proof.
  intros valid empty salvaged.
  rewrite (proj1 validIssues_salvage [valid] empty [salvaged]); reflexivity.
Defined.

(* ------------------------------------------------------------------ *)
(** ** parseJsonResponse: the sentinel phrases *)
(* ------------------------------------------------------------------ *)

(** When each structural stage that runs comes back with [null], so does
    the whole structural part. *)
Lemma structuralParse_null (jsonString : jsstring) :
  tryParse jsonString = JNull ->
  (forall m, markdownMatch jsonString = Some m -> m <> [] ->
             tryParse (Str.trim m) = JNull) ->
  (forall startIndex endIndex,
      bracketSpan jsonString = Some (startIndex, endIndex) ->
      tryParse (Str.substring jsonString startIndex (endIndex + 1)) = JNull) ->
  structuralParse jsonString = JNull.
Proof.
  intros H1 H2 H3. unfold structuralParse. rewrite H1. simpl.
  assert (Hstage2 :
            match markdownMatch jsonString with
            | Some (c :: m) => tryParse (Str.trim (c :: m))
            | _ => JNull
            end = JNull).
  { destruct (markdownMatch jsonString) as [[|c m]|] eqn:E; try reflexivity.
    now apply H2. }
  rewrite Hstage2. simpl.
  destruct (bracketSpan jsonString) as [[a b]|] eqn:E; [|reflexivity].
  now apply H3.
Qed.

(** C10. Whenever the three structural stages fail and the original text,
    in lower case, contains one of the three phrases, the result is the
    empty list without an error, whatever result type the caller asked
    for. *)
Theorem parseJsonResponse_sentinel `{Host} (T : Type) (responseText : jsstring) :
  let jsonString := Str.trim responseText in
  tryParse jsonString = JNull ->
  (forall m, markdownMatch jsonString = Some m -> m <> [] ->
             tryParse (Str.trim m) = JNull) ->
  (forall startIndex endIndex,
      bracketSpan jsonString = Some (startIndex, endIndex) ->
      tryParse (Str.substring jsonString startIndex (endIndex + 1)) = JNull) ->
  Str.includes (toLowerCase responseText) (js "no issues found") = true
  \/ Str.includes (toLowerCase responseText) (js "没有发现") = true
  \/ Str.includes (toLowerCase responseText) (js "未发现") = true ->
  parseJsonResponse T responseText = ParseResult.Make (JArray []) None None.
Proof.
  intros jsonString H1 H2 H3 Hphrase.
  unfold parseJsonResponse. fold jsonString.
  rewrite (structuralParse_null jsonString H1 H2 H3).
  assert (Hyes : hasNoIssuesPhrase responseText = true).
  { unfold hasNoIssuesPhrase.
    destruct Hphrase as [-> | [-> | ->]]; simpl;
      rewrite ?orb_true_r; reflexivity. }
  rewrite Hyes. reflexivity.
Qed.

(** A caller that expects a single object gets the empty list for a text
    that only says that nothing was found. *)
Lemma parseJsonResponse_sentinel_witness :
  @parseJsonResponse exampleHost RoamingResultItem (js "经检查，未发现任何问题。")
  = ParseResult.Make (JArray []) None None.
Proof.
  apply (@parseJsonResponse_sentinel exampleHost).
  - vm_compute. reflexivity.
  - intros m Hm. vm_compute in Hm. discriminate Hm.
  - intros a b Hab. vm_compute in Hab. discriminate Hab.
  - right. right. vm_compute. reflexivity.
Defined.

(* ------------------------------------------------------------------ *)
(** ** tryParse: the two attempts *)
(* ------------------------------------------------------------------ *)

Lemma stripCommas_length (skipping : bool) (s : jsstring) :
  (length (stripCommas skipping s) <= length s)%nat.
Proof.
  revert skipping. induction s as [|c r IH]; intros skipping; simpl; [lia|].
  destruct (skipping && Str.isWhiteSpace c).
  - specialize (IH true). lia.
  - destruct ((c =? 44)%N && closerFollows r).
    + specialize (IH true). lia.
    + specialize (IH false). simpl. lia.
Qed.

(** The replacement changes the text exactly when the pattern matches
    somewhere. *)
Lemma stripTrailingCommas_fixed (s : jsstring) :
  stripTrailingCommas s = s <-> hasTrailingComma s = false.
Proof.
  unfold stripTrailingCommas. induction s as [|c r IH]; simpl; [tauto|].
  destruct ((c =? 44)%N && closerFollows r) eqn:Hm; simpl.
  - split; [|discriminate].
    intros Heq. pose proof (stripCommas_length true r) as Hlen.
    rewrite Heq in Hlen. simpl in Hlen. lia.
  - rewrite <- IH. split; [now intros [= ->] | now intros ->].
Qed.


(* ------------------------------------------------------------------ *)
(** ** handleStartRoaming: all or nothing *)
(* ------------------------------------------------------------------ *)

Section PromiseAll.

Context {A : Type}.
Implicit Types (tasks : list (JsError + A)) (values : list A).

Lemma allFulfilled_Some tasks values :
  allFulfilled tasks = Some values <-> tasks = map inr values.
Proof.
  revert values. induction tasks as [|[e|a] tasks IH]; intros values; simpl.
  - split; [intros [= <-]; reflexivity|].
    destruct values; [reflexivity|discriminate].
  - split; [discriminate|]. destruct values; discriminate.
  - destruct (allFulfilled tasks) as [vs|] eqn:E; simpl.
    + split.
      * intros [= <-]. simpl. f_equal. now apply IH.
      * destruct values as [|v values]; [discriminate|]. simpl.
        intros [= -> Hrest]. apply IH in Hrest. now injection Hrest as ->.
    + split; [discriminate|].
      destruct values as [|v values]; [discriminate|]. simpl.
      intros [= -> Hrest]. apply IH in Hrest. discriminate.
Qed.

Lemma allFulfilled_None tasks :
  allFulfilled tasks = None <-> exists i e, tasks !! i = Some (inl e).
Proof.
  induction tasks as [|[e|a] tasks IH]; simpl.
  - split; [discriminate|]. intros (i & e & Hi). destruct i; discriminate.
  - split; [|reflexivity]. intros _. now exists 0%nat, e.
  - destruct (allFulfilled tasks) as [vs|] eqn:E; simpl.
    + split; [discriminate|]. intros (i & e & Hi).
      destruct i as [|i]; [discriminate|]. simpl in Hi.
      assert (Some vs = None) by (apply IH; eauto). discriminate.
    + split; [|reflexivity]. intros _.
      destruct (proj1 IH eq_refl) as (i & e & Hi). now exists (S i), e.
Qed.

Lemma firstRejection_Some tasks order i e :
  tasks !! i = Some (inl e) -> i ∈ order ->
  exists e', firstRejection tasks order = Some e'.
Proof.
  intros Hi. induction order as [|j order IH]; intros Hin.
  - now apply elem_of_nil in Hin.
  - simpl. destruct (tasks !! j) as [[e'|a]|] eqn:Ej; eauto.
    + apply IH. apply elem_of_cons in Hin as [->|Hin]; [congruence|exact Hin].
    + apply IH. apply elem_of_cons in Hin as [->|Hin]; [congruence|exact Hin].
Qed.

(** [Promise.all] is fulfilled exactly when every task is, with the values
    in the order of the tasks, and is rejected otherwise. *)
Lemma promiseAll_cases settling tasks :
  (exists values, tasks = map inr values /\ promiseAll settling tasks = inr values)
  \/ (exists i e e', tasks !! i = Some (inl e) /\ promiseAll settling tasks = inl e').
Proof.
  unfold promiseAll. destruct (allFulfilled tasks) as [values|] eqn:E.
  - left. exists values. split; [now apply allFulfilled_Some|reflexivity].
  - right. destruct (proj1 (allFulfilled_None tasks) E) as (i & e & Hi).
    destruct (firstRejection_Some tasks (settling ++ seq 0 (length tasks)) i e Hi)
      as [e' He'].
    { apply elem_of_app. right. apply elem_of_seq.
      apply lookup_lt_Some in Hi. lia. }
    exists i, e, e'. now rewrite He'.
Qed.

End PromiseAll.

Lemma lookup_map_inr {A} (values : list A) (i : nat) :
  map (@inr JsError A) values !! i = inr <$> values !! i.
Proof. apply (list_lookup_fmap (@inr JsError A)). Qed.

(** A synthesis task succeeds exactly when the answer to its call carries
    a conclusion, and its item is then the one of its source with that
    conclusion. *)
Lemma roamingTask_inr `{Host} (src : Source) (call : Settled) (item : RoamingResultItem) :
  roamingTask src call = inr item <->
  exists c, concludes call c /\ item = itemOf src c.
Proof.
  split.
  - destruct call as [[[| | |text| |]|]|e]; simpl; try discriminate.
    destruct (JSON.parse (removeFences text)) as [result|] eqn:Hp; [|discriminate].
    destruct result as [|b|n|s|items|props]; simpl; try discriminate.
    destruct (ownProperty props (js "conclusion")) as [c|] eqn:Hc; [|discriminate].
    destruct (toBoolean c) eqn:Ht; [|discriminate].
    intros [= <-]. exists c. split; [|reflexivity].
    exists text, props. repeat split; assumption.
  - intros (c & (text & props & -> & Hp & Hc & Ht) & ->). simpl.
    rewrite Hp. simpl. now rewrite Hc, Ht.
Qed.

(** The tasks of sources whose answers all carry a conclusion. *)
Lemma roamingTasks_inr `{Host} (call : nat -> Settled) (cs : list json)
    (sources : list Source) (k : nat) :
  length cs = length sources ->
  (forall i c, cs !! i = Some c -> concludes (call (k + i)%nat) c) ->
  imap (fun i src => roamingTask src (call (k + i)%nat)) sources
  = map inr (zip_with itemOf sources cs).
Proof.
  revert cs k. induction sources as [|src sources IH]; intros cs k Hlen Hcs.
  - reflexivity.
  - destruct cs as [|c cs]; [discriminate|]. cbn [imap zip_with map]. f_equal.
    + apply roamingTask_inr. exists c. split; [|reflexivity].
      apply (Hcs 0%nat c). reflexivity.
    + rewrite <- (IH cs (S k)).
      * apply imap_ext. intros i x _. cbn. do 2 f_equal. lia.
      * cbn [length] in Hlen. lia.
      * intros i c' Hi. replace (S k + i)%nat with (k + S i)%nat by lia.
        apply Hcs. exact Hi.
Qed.

(** C3. The second step of roaming is all or nothing. A result is set only
    if the answer for every snippet carries a conclusion, which is a
    string that parses to an object with a truthy (in particular
    non-empty) [conclusion]; if the answer for one snippet does not,
    no result is set and an error is; and if all answers carry
    conclusions, the result holds the items of the snippets with these
    conclusions, in the order of the retrieval. *)
Theorem handleStartRoaming_all_or_nothing `{Host} (sources : list Source)
    (executionMode : ExecutionMode) (direct : nat -> Settled)
    (net : nat -> nat -> FetchOutcome) (settling : list nat) :
  let call := fun i => (callGenerativeAi executionMode (direct i) (net i)).1 in
  let state := handleStartRoaming sources executionMode direct net settling in
  (forall items,
      roamingResult state = Some items ->
      roamingError state = None
      /\ length items = length sources
      /\ forall i src,
           sources !! i = Some src ->
           exists c,
             concludes (call i) c
             /\ c <> JString [] /\ c <> JNull
             /\ items !! i = Some (itemOf src c))
  /\ (forall i src,
        sources !! i = Some src ->
        (forall c, ~ concludes (call i) c) ->
        roamingResult state = None /\ is_Some (roamingError state))
  /\ (forall cs,
        sources <> [] ->
        length cs = length sources ->
        (forall i c, cs !! i = Some c -> concludes (call i) c) ->
        roamingResult state = Some (zip_with itemOf sources cs)
        /\ roamingError state = None).
Proof.
  intros call state.
  set (tasks := imap (fun i src => roamingTask src (call i)) sources).
  assert (Hstate : state =
            match sources with
            | [] => {| roamingResult := None; roamingError := Some nothingRelevant;
                       isRoaming := false |}
            | _ =>
                match promiseAll settling tasks with
                | inr newRoamingResults =>
                    {| roamingResult := Some newRoamingResults; roamingError := None;
                       isRoaming := false |}
                | inl err =>
                    {| roamingResult := None;
                       roamingError := Some (getBackendErrorMessage err API_BASE_URL);
                       isRoaming := false |}
                end
            end) by reflexivity.
  assert (Htask : forall i src, sources !! i = Some src ->
                    tasks !! i = Some (roamingTask src (call i))).
  { intros i src Hi. unfold tasks. rewrite list_lookup_imap, Hi. reflexivity. }
  destruct (promiseAll_cases settling tasks)
    as [(values & Hvalues & Hall)|(j & e & e' & Hj & Hall)].
  - (* every task is fulfilled *)
    assert (Hlen : length values = length sources).
    { rewrite <- (length_map (@inr JsError RoamingResultItem) values), <- Hvalues.
      apply length_imap. }
    assert (Hitem : forall i src, sources !! i = Some src ->
                      exists c, concludes (call i) c
                                /\ values !! i = Some (itemOf src c)).
    { intros i src Hi. pose proof (Htask i src Hi) as Hti.
      rewrite Hvalues, lookup_map_inr in Hti.
      destruct (values !! i) as [item|] eqn:Hvi; [|discriminate].
      injection Hti as Hti. symmetry in Hti.
      apply roamingTask_inr in Hti as (c & Hc & ->). now exists c. }
    split; [|split].
    + intros items Hitems. rewrite Hstate in Hitems |- *.
      destruct sources as [|s0 sources']; [discriminate|].
      rewrite Hall in Hitems |- *. simpl in Hitems |- *.
      injection Hitems as <-.
      split; [reflexivity|]. split; [exact Hlen|].
      intros i src Hi. destruct (Hitem i src Hi) as (c & Hc & Hvi).
      exists c. split; [exact Hc|].
      destruct Hc as (text & props & _ & _ & _ & Htruthy).
      split; [intros ->; discriminate Htruthy|].
      split; [intros ->; discriminate Htruthy|exact Hvi].
    + intros i src Hi Hnot. destruct (Hitem i src Hi) as (c & Hc & _).
      now destruct (Hnot c).
    + intros cs Hne Hcslen Hcs.
      assert (Hv : values = zip_with itemOf sources cs).
      { assert (Htasks : tasks = map inr (zip_with itemOf sources cs))
          by exact (roamingTasks_inr call cs sources 0 Hcslen Hcs).
        pose proof (proj2 (allFulfilled_Some tasks _) Hvalues) as H1.
        pose proof (proj2 (allFulfilled_Some tasks _) Htasks) as H2.
        congruence. }
      rewrite Hstate. destruct sources; [congruence|].
      rewrite Hall, Hv. split; reflexivity.
  - (* one task is rejected *)
    assert (Hnone : roamingResult state = None /\ is_Some (roamingError state)).
    { rewrite Hstate. destruct sources; [split; [reflexivity|eexists; reflexivity]|].
      rewrite Hall. split; [reflexivity|eexists; reflexivity]. }
    split; [|split].
    + intros items Hitems. destruct Hnone as [Hnone _]. congruence.
    + intros. exact Hnone.
    + intros cs Hne Hcslen Hcs.
      assert (Htasks : tasks = map inr (zip_with itemOf sources cs))
        by exact (roamingTasks_inr call cs sources 0 Hcslen Hcs).
      rewrite Htasks, lookup_map_inr in Hj.
      destruct (zip_with itemOf sources cs !! j); discriminate.
Qed.

(** Three snippets in the order of the retrieval, whose answers arrive in
    another order, the second of them in a fence: the items come out in
    the order of the retrieval. *)
Lemma handleStartRoaming_all_or_nothing_witness :
  let zero := Number false [] 0 in
  let sources :=
    [ {| source_file := js "a.md"; content_chunk := js "alpha"; score := zero |};
      {| source_file := js "b.md"; content_chunk := js "beta"; score := zero |};
      {| source_file := js "c.md"; content_chunk := js "gamma"; score := zero |} ] in
  let net := fun (i _ : nat) =>
    match i with
    | 0%nat => FetchResponse 200 (BodyText (jq "{'conclusion':'first'}"))
    | 1%nat => FetchResponse 200 (BodyText (jq "```json
{'conclusion':'second'}
```"))
    | _ => FetchResponse 200 (BodyText (jq "{'conclusion':['third']}"))
    end in
  let state :=
    @handleStartRoaming exampleHost sources backend (fun _ => Rejected (Error []))
      net [2; 0; 1]%nat in
  roamingResult state
  = Some [ {| source := js "a.md"; relevantText := js "alpha";
              conclusion := JString (js "first") |};
           {| source := js "b.md"; relevantText := js "beta";
              conclusion := JString (js "second") |};
           {| source := js "c.md"; relevantText := js "gamma";
              conclusion := JArray [JString (js "third")] |} ]
  /\ roamingError state = None.
Proof.
  intros zero sources net state.
  refine (proj2 (proj2 (@handleStartRoaming_all_or_nothing exampleHost sources
                          backend (fun _ => Rejected (Error [])) net [2; 0; 1]%nat))
            [JString (js "first"); JString (js "second");
             JArray [JString (js "third")]] _ eq_refl _).
  - discriminate.
  - intros [|[|[|i]]] c [= <-].
    + exists (jq "{'conclusion':'first'}"), [(js "conclusion", JString (js "first"))].
      repeat split.
    + exists (jq "```json
{'conclusion':'second'}
```"), [(js "conclusion", JString (js "second"))].
      repeat split.
    + exists (jq "{'conclusion':['third']}"),
        [(js "conclusion", JArray [JString (js "third")])].
      repeat split.
Defined.

(** Three snippets, the second of which gets an answer without a
    conclusion: nothing is returned for the other two either. *)
Example handleStartRoaming_one_fails :
  let zero := Number false [] 0 in
  let sources :=
    [ {| source_file := js "a.md"; content_chunk := js "alpha"; score := zero |};
      {| source_file := js "b.md"; content_chunk := js "beta"; score := zero |};
      {| source_file := js "c.md"; content_chunk := js "gamma"; score := zero |} ] in
  let direct := fun i : nat =>
    match i with
    | 1%nat => Fulfilled (Some (JString (js "{}")))
    | _ => Fulfilled (Some (JString (jq "{'conclusion':'linked'}")))
    end in
  let state :=
    @handleStartRoaming exampleHost sources frontend direct
      (fun _ _ => FetchFailed (Error [])) [2; 1; 0]%nat in
  roamingResult state = None
  /\ roamingError state = Some invalidConclusion.
Proof. vm_compute. split; reflexivity. Qed.

(* ------------------------------------------------------------------ *)
(** ** Streaming: reads, lines and callbacks *)
(* ------------------------------------------------------------------ *)

(** Decoding is a fold over the bytes: cutting the bytes into reads does
    not change the text. *)
Lemma decode_app (d : TextDecoder.t) (a b : list byte) :
  TextDecoder.decode d (a ++ b)
  = let '(d1, o1) := TextDecoder.decode d a in
    let '(d2, o2) := TextDecoder.decode d1 b in
    (d2, o1 ++ o2).
Proof.
  revert d. induction a as [|x a IH]; intros d; simpl.
  - now destruct (TextDecoder.decode d b).
  - destruct (TextDecoder.step d x) as [d1 o1].
    rewrite IH.
    destruct (TextDecoder.decode d1 a) as [d2 o2].
    destruct (TextDecoder.decode d2 b) as [d3 o3].
    now rewrite app_assoc.
Qed.

Lemma split_lf_snoc (s : jsstring) :
  exists init p, Str.split_lf s = init ++ [p] /\ 10%N ∉ p.
Proof.
  induction s as [|c r (init & p & Hr & Hp)]; simpl.
  - exists [], []. split; [reflexivity|]. apply not_elem_of_nil.
  - destruct (N.eqb_spec c 10) as [->|Hc].
    + exists ([] :: init), p. rewrite Hr. split; [reflexivity|exact Hp].
    + rewrite Hr. destruct init as [|q init]; simpl.
      * exists [], (c :: p). split; [reflexivity|].
        apply not_elem_of_cons. split; [congruence|exact Hp].
      * exists ((c :: q) :: init), p. split; [reflexivity|exact Hp].
Qed.

Lemma split_lf_no_lf (p : jsstring) : 10%N ∉ p -> Str.split_lf p = [p].
Proof.
  induction p as [|c p IH]; intros Hp; [reflexivity|].
  apply not_elem_of_cons in Hp as [Hc Hp]. simpl.
  destruct (N.eqb_spec c 10) as [->|_]; [congruence|].
  now rewrite (IH Hp).
Qed.

(** The complete lines of a text stay complete lines when more text
    arrives; the partial line is continued. *)
Lemma split_lf_app (x y : jsstring) init p :
  Str.split_lf x = init ++ [p] ->
  Str.split_lf (x ++ y) = init ++ Str.split_lf (p ++ y).
Proof.
  revert init p. induction x as [|c r IH]; intros init p; simpl.
  - destruct init as [|q [|q' init]]; simpl; intros [= <-]. reflexivity.
  - destruct (N.eqb_spec c 10) as [->|Hc].
    + destruct init as [|q init]; simpl.
      * intros [= _ Hnil].
        destruct (split_lf_snoc r) as (i & q & Hq & _). rewrite Hq in Hnil.
        now destruct i.
      * intros [= <- Hr]. now rewrite (IH _ _ Hr).
    + destruct (split_lf_snoc r) as (i & q & Hq & _).
      rewrite (IH _ _ Hq), Hq.
      destruct i as [|q0 i]; simpl.
      * intros [= Hinit]. destruct init as [|? [|? ?]]; simpl in Hinit;
          try discriminate.
        injection Hinit as <-. simpl.
        destruct (N.eqb_spec c 10); [congruence|]. reflexivity.
      * destruct init as [|q1 init]; simpl.
        -- intros [= _ Hbad]. now destruct i.
        -- intros [= <- Hrest]. apply app_inj_tail in Hrest as [-> ->].
           reflexivity.
Qed.

Lemma popLast_snoc (init : list jsstring) (p : jsstring) :
  popLast (init ++ [p]) = (init, p).
Proof.
  unfold popLast. rewrite removelast_last, last_snoc. reflexivity.
Qed.

Lemma processLines_app (l1 l2 : list jsstring) :
  processLines (l1 ++ l2)
  = let '(c1, f1) := processLines l1 in
    if f1 then (c1, true)
    else let '(c2, f2) := processLines l2 in (c1 ++ c2, f2).
Proof.
  induction l1 as [|line l1 IH]; simpl.
  - now destruct (processLines l2).
  - destruct (processLine line); [exact IH| |reflexivity].
    rewrite IH. destruct (processLines l1) as [c1 [|]]; [reflexivity|].
    now destruct (processLines l2).
Qed.

(** The state of the consumer after some reads is a function of the text
    read so far: the callbacks made are those of the complete lines of
    that text, and the partial line at its end is the buffer with which
    the remaining reads are consumed. *)
Lemma consumeReads_app (d : TextDecoder.t) (buffer : jsstring)
    (chunks1 chunks2 : list (list byte)) (failure : option JsError) :
  10%N ∉ buffer ->
  consumeReads d buffer (chunks1 ++ chunks2) failure
  = let '(d', text) := TextDecoder.decode d (concat chunks1) in
    let '(lines, partial) := popLast (Str.split_lf (buffer ++ text)) in
    let '(cbs, finished) := processLines lines in
    if finished then cbs
    else cbs ++ consumeReads d' partial chunks2 failure.
Proof.
  revert d buffer. induction chunks1 as [|value chunks1 IH]; intros d buffer Hbuf.
  - cbn [app concat TextDecoder.decode].
    rewrite app_nil_r, (split_lf_no_lf _ Hbuf).
    rewrite (popLast_snoc [] buffer : popLast [buffer] = ([], buffer)).
    reflexivity.
  - cbn [concat app consumeReads].
    rewrite decode_app.
    destruct (TextDecoder.decode d value) as [d1 t1].
    destruct (split_lf_snoc (buffer ++ t1)) as (l1 & b1 & Hs1 & Hb1).
    rewrite Hs1, popLast_snoc.
    rewrite (IH d1 b1 Hb1).
    destruct (TextDecoder.decode d1 (concat chunks1)) as [d2 t2].
    rewrite app_assoc, (split_lf_app _ t2 _ _ Hs1).
    destruct (split_lf_snoc (b1 ++ t2)) as (l2 & b2 & Hs2 & Hb2).
    rewrite Hs2, app_assoc, !popLast_snoc, processLines_app.
    destruct (processLines l1) as [c1 [|]]; [reflexivity|].
    destruct (processLines l2) as [c2 [|]]; [reflexivity|].
    now rewrite app_assoc.
Qed.

Lemma split_lf_line (line rest : jsstring) :
  10%N ∉ line -> Str.split_lf (line ++ LF ++ rest) = line :: Str.split_lf rest.
Proof.
  intros Hline.
  rewrite (split_lf_app line (LF ++ rest) [] line (split_lf_no_lf _ Hline)).
  simpl. induction line as [|c line IH]; [reflexivity|].
  apply not_elem_of_cons in Hline as [Hc Hline]. simpl.
  destruct (N.eqb_spec c 10); [congruence|]. now rewrite (IH Hline).
Qed.

Lemma split_lf_lines (lines : list jsstring) (rest : jsstring) :
  (forall l, l ∈ lines -> 10%N ∉ l) ->
  Str.split_lf (flat_map (fun l => l ++ LF) lines ++ rest)
  = lines ++ Str.split_lf rest.
Proof.
  induction lines as [|l lines IH]; intros Hlines; [reflexivity|].
  cbn [flat_map]. rewrite <- !app_assoc, split_lf_line.
  - rewrite IH; [reflexivity|]. intros l' Hl'. apply Hlines. now right.
  - apply Hlines. now left.
Qed.

(** C6. However the bytes of the stream are cut into reads: after any
    number of reads the callbacks made are those of the lines that are
    complete in the text read so far, and the partial line behind them is
    the buffer for the next read; so the callbacks of a stream are those of
    the uncut stream; a line whose line feed comes at the start of the
    second of two reads (or anywhere else in them) is delivered exactly
    once; and over the whole stream the callbacks are those of the lines
    that end in a line feed, up to the sentinel, whereas what stands
    behind the last line feed is never parsed or delivered, whatever it
    is. *)
Theorem consumeReads_framing :
  (forall chunks1 chunks2 failure,
      consumeReads TextDecoder.new [] (chunks1 ++ chunks2) failure
      = let '(d', text) := TextDecoder.decode TextDecoder.new (concat chunks1) in
        let '(lines, partial) := popLast (Str.split_lf text) in
        let '(cbs, finished) := processLines lines in
        if finished then cbs
        else cbs ++ consumeReads d' partial chunks2 failure)
  /\ (forall chunks failure,
        consumeReads TextDecoder.new [] chunks failure
        = consumeReads TextDecoder.new [] [concat chunks] failure)
  /\ (forall read1 read2 d line content,
        TextDecoder.decode TextDecoder.new (read1 ++ read2) = (d, line ++ LF) ->
        10%N ∉ line ->
        processLine line = Deliver content ->
        consumeReads TextDecoder.new [] [read1; read2] None
        = [OnChunk content; OnComplete])
  /\ (forall chunks failure d lines partial,
        TextDecoder.decode TextDecoder.new (concat chunks)
        = (d, flat_map (fun l => l ++ LF) lines ++ partial) ->
        (forall l, l ∈ lines -> 10%N ∉ l) ->
        10%N ∉ partial ->
        consumeReads TextDecoder.new [] chunks failure
        = let '(cbs, finished) := processLines lines in
          if finished then cbs
          else cbs ++ [match failure with
                       | None => OnComplete
                       | Some e => OnError e
                       end]).
Proof.
  assert (H1 : forall chunks1 chunks2 failure,
      consumeReads TextDecoder.new [] (chunks1 ++ chunks2) failure
      = let '(d', text) := TextDecoder.decode TextDecoder.new (concat chunks1) in
        let '(lines, partial) := popLast (Str.split_lf text) in
        let '(cbs, finished) := processLines lines in
        if finished then cbs
        else cbs ++ consumeReads d' partial chunks2 failure).
  { intros. apply (consumeReads_app TextDecoder.new []). apply not_elem_of_nil. }
  split; [exact H1|]. split; [|split].
  - intros chunks failure.
    rewrite <- (app_nil_r chunks) at 1. rewrite H1.
    change [concat chunks] with ([concat chunks] ++ []). rewrite H1.
    cbn [concat]. now rewrite app_nil_r.
  - intros read1 read2 d line content Hdec Hline Hdeliver.
    change [read1; read2] with ([read1; read2] ++ []). rewrite H1.
    cbn [concat]. rewrite app_nil_r, Hdec.
    rewrite <- (app_nil_r LF), (split_lf_line _ _ Hline).
    cbn [Str.split_lf].
    rewrite (popLast_snoc [line] [] : popLast [line; []] = ([line], [])).
    simpl. rewrite Hdeliver. reflexivity.
  - intros chunks failure d lines partial Hdec Hlines Hpartial.
    rewrite <- (app_nil_r chunks) at 1. rewrite H1, Hdec.
    rewrite (split_lf_lines lines partial Hlines), (split_lf_no_lf partial Hpartial).
    rewrite popLast_snoc.
    destruct (processLines lines) as [cbs [|]]; [reflexivity|].
    now destruct failure.
Qed.

(** An event line whose line feed arrives alone in the second read is
    delivered once; and of two event lines the second of which has not
    got its line feed when the stream ends, only the first is
    delivered. *)
Lemma consumeReads_framing_witness :
  consumeReads TextDecoder.new []
    [bytesq "data: {'choices':[{'delta':{'content':'Hi'}}]}"; bytesq "
"] None
  = [OnChunk (JString (js "Hi")); OnComplete]
  /\ consumeReads TextDecoder.new []
       [bytesq "data: {'choices':[{'delta':{'content':'Hi'}}]}
data: {'choices':[{'del"; bytesq "ta':{'content':' there'}}]}"] None
     = [OnChunk (JString (js "Hi")); OnComplete].
Proof.
  split.
  - refine (proj1 (proj2 (proj2 consumeReads_framing)) _ _
              (TextDecoder.Decoder TextDecoder.utf8_init true)
              (jq "data: {'choices':[{'delta':{'content':'Hi'}}]}") _ _ _ _).
    + vm_compute. reflexivity.
    + vm_compute. intros Hin.
      repeat (apply elem_of_cons in Hin as [Hin|Hin]; [discriminate|]).
      now apply elem_of_nil in Hin.
    + vm_compute. reflexivity.
  - refine (proj2 (proj2 (proj2 consumeReads_framing)) _ None
              (TextDecoder.Decoder TextDecoder.utf8_init true)
              [jq "data: {'choices':[{'delta':{'content':'Hi'}}]}"]
              (jq "data: {'choices':[{'delta':{'content':' there'}}]}") _ _ _).
    + vm_compute. reflexivity.
    + intros l [->|Hl%elem_of_nil]%elem_of_cons; [|contradiction].
      vm_compute. intros Hin.
      repeat (apply elem_of_cons in Hin as [Hin|Hin]; [discriminate|]).
      now apply elem_of_nil in Hin.
    + vm_compute. intros Hin.
      repeat (apply elem_of_cons in Hin as [Hin|Hin]; [discriminate|]).
      now apply elem_of_nil in Hin.
Defined.

(* ------------------------------------------------------------------ *)
(** ** Streaming: the two wire shapes *)
(* ------------------------------------------------------------------ *)

Lemma forwardReads_decodedReads (d : TextDecoder.t) (rs : list (list byte)) :
  forwardReads d rs = map (fun text => OnChunk (JString text)) (decodedReads d rs).
Proof.
  revert d. induction rs as [|value rs IH]; intros d; simpl; [reflexivity|].
  destruct (TextDecoder.decode d value) as [d' text]. simpl. now rewrite IH.
Qed.

Lemma concat_decodedReads (d : TextDecoder.t) (rs : list (list byte)) :
  concat (decodedReads d rs) = (TextDecoder.decode d (concat rs)).2.
Proof.
  revert d. induction rs as [|value rs IH]; intros d; simpl; [reflexivity|].
  rewrite decode_app.
  destruct (TextDecoder.decode d value) as [d' text]. simpl. rewrite IH.
  now destruct (TextDecoder.decode d' (concat rs)).
Qed.

Lemma Str_eqb_eq (a b : jsstring) : Str.eqb a b = true <-> a = b.
Proof.
  revert b. induction a as [|x a IH]; intros [|y b]; simpl;
    try (split; [discriminate|discriminate]); [tauto|].
  rewrite andb_true_iff, N.eqb_eq, IH.
  split; [intros [-> ->]; reflexivity | intros [= -> ->]; tauto].
Qed.

Lemma dropWhile_nil_app (p : N -> bool) (a b : jsstring) :
  Str.dropWhile p a <> [] -> Str.dropWhile p (a ++ b) = Str.dropWhile p a ++ b.
Proof.
  induction a as [|x a IH]; simpl; [congruence|].
  destruct (p x); [exact IH|reflexivity].
Qed.

Lemma dropWhile_all (p : N -> bool) (a : jsstring) :
  Str.dropWhile p a = [] -> forall b, Str.dropWhile p (a ++ b) = Str.dropWhile p b.
Proof.
  induction a as [|x a IH]; simpl; [reflexivity|].
  destruct (p x); [exact IH|discriminate].
Qed.







(* ------------------------------------------------------------------ *)
(** ** JSON.parse after JSON.stringify *)
(* ------------------------------------------------------------------ *)

Lemma isDigit_digitChar d : (d < 10)%N -> JSON.isDigit (48 + d) = true.
Proof.
  intros Hd. unfold JSON.isDigit, TextDecoder.between.
  apply andb_true_iff. split; apply N.leb_le; lia.
Qed.

Lemma spanDigits_digitChars ds rest :
  Forall (fun d => (d < 10)%N) ds ->
  match rest with [] => True | c :: _ => JSON.isDigit c = false end ->
  JSON.spanDigits (JSON.digitChars ds ++ rest) = (ds, rest).
Proof.
  intros Hds Hrest. induction Hds as [|d ds Hd Hds IH].
  - destruct rest as [|c r]; [reflexivity|].
    cbn [JSON.digitChars map app JSON.spanDigits]. now rewrite Hrest.
  - cbn [JSON.digitChars map app JSON.spanDigits].
    rewrite (isDigit_digitChar d Hd).
    change (map (fun d0 => (48 + d0)%N) ds) with (JSON.digitChars ds).
    rewrite IH. f_equal. f_equal. lia.
Qed.

Lemma uintChars_digits u : JSON.uintChars u = JSON.digitChars (uintDigits u).
Proof. induction u; simpl; try reflexivity; f_equal; exact IHu. Qed.

Lemma uintDigits_lt u : Forall (fun d => (d < 10)%N) (uintDigits u).
Proof. induction u; simpl; constructor; (lia || assumption). Qed.

Lemma digitsToN_acc u acc :
  fold_left (fun a d => (10 * a + d)%N) (uintDigits u) (N.pos acc)
  = N.pos (Pos.of_uint_acc u acc).
Proof.
  revert acc. induction u; intros acc; simpl; [reflexivity|..];
    rewrite <- IHu; f_equal; lia.
Qed.

Lemma digitsToN_uint u : JSON.digitsToN (uintDigits u) = N.of_uint u.
Proof.
  unfold JSON.digitsToN, N.of_uint.
  induction u; simpl; [reflexivity|exact IHu|..];
    apply (digitsToN_acc u).
Qed.

Lemma spanDigits_decimal m rest :
  match rest with [] => True | c :: _ => JSON.isDigit c = false end ->
  exists d ds, JSON.spanDigits (JSON.decimal m ++ rest) = (d :: ds, rest)
               /\ JSON.digitsToN (d :: ds) = m.
Proof.
  intros Hrest. unfold JSON.decimal. rewrite uintChars_digits.
  rewrite (spanDigits_digitChars _ _ (uintDigits_lt _) Hrest).
  pose proof (digitsToN_uint (N.to_uint m)) as Hm.
  rewrite DecimalN.Unsigned.of_to in Hm.
  destruct (uintDigits (N.to_uint m)) as [|d ds] eqn:E.
  - simpl in Hm. subst m. discriminate E.
  - now exists d, ds.
Qed.

Lemma digitChars_app a b : JSON.digitChars (a ++ b) = JSON.digitChars a ++ JSON.digitChars b.
Proof. apply map_app. Qed.

Lemma digitChars_repeat m : repeat 48%N m = JSON.digitChars (repeat 0%N m).
Proof. induction m; simpl; [reflexivity|]. now f_equal. Qed.

Lemma Forall_repeat0 m : Forall (fun d => (d < 10)%N) (repeat 0%N m).
Proof. induction m; simpl; constructor; (lia || assumption). Qed.

Lemma dropWhile_zeros m rest :
  Str.dropWhile JSON.isZeroDigit (repeat 0%N m ++ rest)
  = Str.dropWhile JSON.isZeroDigit rest.
Proof. induction m; simpl; [reflexivity|exact IHm]. Qed.

Lemma rev_zeros m : rev (repeat 0%N m) = repeat 0%N m.
Proof.
  induction m; simpl; [reflexivity|]. rewrite IHm.
  clear IHm. induction m; simpl; [reflexivity|]. now f_equal.
Qed.

Lemma dropWhileEnd_zeros ds m :
  Str.dropWhileEnd JSON.isZeroDigit (ds ++ repeat 0%N m)
  = Str.dropWhileEnd JSON.isZeroDigit ds.
Proof.
  unfold Str.dropWhileEnd. now rewrite rev_app_distr, rev_zeros, dropWhile_zeros.
Qed.

(** Zeros in front of canonical digits do not count, zeros behind them
    raise the exponent. *)
Lemma mkNumber_pad neg ds e zl zr :
  canonicalDigits ds -> ds <> [] ->
  JSON.mkNumber neg (repeat 0%N zl ++ ds ++ repeat 0%N zr) e
  = Number neg ds (e + Z.of_nat zr).
Proof.
  intros (_ & Hlead & Htrail) Hne. unfold JSON.mkNumber.
  rewrite dropWhile_zeros.
  rewrite dropWhile_nil_app by (rewrite Hlead; exact Hne).
  rewrite Hlead, dropWhileEnd_zeros, Htrail.
  destruct ds as [|d ds]; [congruence|].
  f_equal. rewrite length_app, repeat_length. lia.
Qed.

Lemma mkNumber_canonical neg ds e :
  canonicalDigits ds -> ds <> [] -> JSON.mkNumber neg ds e = Number neg ds e.
Proof.
  intros Hc Hne. pose proof (mkNumber_pad neg ds e 0 0 Hc Hne) as Hp.
  simpl in Hp. rewrite app_nil_r, Z.add_0_r in Hp. exact Hp.
Qed.

Lemma canonical_head d ds : canonicalDigits (d :: ds) -> (d < 10)%N /\ d <> 0%N.
Proof.
  intros (Hlt & Hlead & _). split.
  - now inversion Hlt.
  - intros ->. simpl in Hlead.
    destruct (dropWhile_suffix JSON.isZeroDigit ds) as [t Ht].
    rewrite Hlead in Ht. apply (f_equal length) in Ht.
    rewrite length_app in Ht. simpl in Ht. lia.
Qed.

Lemma lexFrac_none rest : numberEnds rest -> JSON.lexFrac rest = Some ([], rest).
Proof.
  destruct rest as [|c r]; [reflexivity|]. intros (_ & Hc & _). simpl.
  destruct (N.eqb_spec c 46); [congruence|reflexivity].
Qed.

Lemma lexExp_none rest : numberEnds rest -> JSON.lexExp rest = Some (0%Z, rest).
Proof.
  destruct rest as [|c r]; [reflexivity|]. intros (_ & _ & Hc1 & Hc2). simpl.
  destruct (N.eqb_spec c 101); [congruence|].
  destruct (N.eqb_spec c 69); [congruence|reflexivity].
Qed.

Lemma numberEnds_not_digit rest :
  numberEnds rest -> match rest with [] => True | c :: _ => JSON.isDigit c = false end.
Proof. destruct rest; [trivial|]. now intros [? _]. Qed.

(** The exponent part written by [numberToString] is read back. *)
Lemma lexExp_written (e : Z) rest :
  numberEnds rest ->
  JSON.lexExp ([101%N; if (e <? 0)%Z then 45%N else 43%N]
                 ++ JSON.decimal (Z.to_N (Z.abs e)) ++ rest)
  = Some (e, rest).
Proof.
  intros Hrest.
  destruct (spanDigits_decimal (Z.to_N (Z.abs e)) rest (numberEnds_not_digit _ Hrest))
    as (d & ds & Hspan & Hval).
  cbn [app JSON.lexExp]. change ((101 =? 101)%N || (101 =? 69)%N) with true. cbv iota.
  destruct (Z.ltb_spec e 0) as [Hneg|Hpos].
  - change (45 =? 45)%N with true. cbv iota. rewrite Hspan, Hval. f_equal. f_equal. lia.
  - change (43 =? 45)%N with false. change (43 =? 43)%N with true. cbv iota.
    rewrite Hspan, Hval. f_equal. f_equal. lia.
Qed.

Lemma lexSign_written (neg : bool) (body : jsstring) c r :
  body = c :: r -> c <> 45%N ->
  JSON.lexSign ((if neg then [45%N] else []) ++ body) = (neg, body).
Proof.
  intros -> Hc. destruct neg; [reflexivity|]. simpl.
  destruct (N.eqb_spec c 45); [congruence|reflexivity].
Qed.

Lemma lexInt_digits d ds rest :
  (d < 10)%N -> d <> 0%N -> Forall (fun x => (x < 10)%N) ds ->
  match rest with [] => True | c :: _ => JSON.isDigit c = false end ->
  JSON.lexInt (JSON.digitChars (d :: ds) ++ rest) = Some (d :: ds, rest).
Proof.
  intros Hd Hnz Hds Hrest. unfold JSON.lexInt.
  cbn [JSON.digitChars map app].
  destruct (N.eqb_spec (48 + d) 48) as [Heq|_]; [lia|].
  rewrite (isDigit_digitChar d Hd).
  change ((48 + d)%N :: map (fun d0 => (48 + d0)%N) ds ++ rest)
    with (JSON.digitChars (d :: ds) ++ rest).
  rewrite spanDigits_digitChars; [reflexivity| |exact Hrest].
  now constructor.
Qed.

Lemma not_digit_46 : JSON.isDigit 46 = false. Proof. reflexivity. Qed.
Lemma not_digit_101 : JSON.isDigit 101 = false. Proof. reflexivity. Qed.

(** What [numberToString] writes is read back as the same number. *)
Lemma lexNumber_numberToString (x : number) (rest : jsstring) :
  wfNumber x -> numberEnds rest ->
  JSON.lexNumber (JSON.numberToString x ++ rest) = Some (x, rest).
Proof.
  destruct x as [neg ds e|neg]; [|intros (_ & [=] & _)].
  intros ([Hcanon Hzero] & _ & Hval) Hrest.
  unfold JSON.numberToString.
  destruct ds as [|d ds'].
  { destruct (Hzero eq_refl) as [-> ->].
    unfold JSON.lexNumber.
    change (JSON.lexSign ([48%N] ++ rest)) with (false, 48%N :: rest).
    cbv beta iota.
    change (JSON.lexInt (48%N :: rest)) with (Some ([0%N], rest)).
    cbn [mbind option_bind].
    rewrite (lexFrac_none _ Hrest). cbn [mbind option_bind].
    rewrite (lexExp_none _ Hrest). reflexivity. }
  clear Hzero.
  destruct (canonical_head _ _ Hcanon) as [Hd Hnz].
  assert (Hlt : Forall (fun x => (x < 10)%N) (d :: ds')) by apply Hcanon.
  assert (Hds' : Forall (fun x => (x < 10)%N) ds') by now inversion Hlt.
  set (full := d :: ds') in *.
  set (k := Z.of_nat (length full)).
  assert (Hk : (1 <= k)%Z) by (unfold k, full; simpl; lia).
  set (n := (e + k)%Z).
  unfold JSON.lexNumber. rewrite <- app_assoc.
  destruct ((k <=? n)%Z && (n <=? 21)%Z) eqn:HA.
  { (* digits and zeros *)
    erewrite lexSign_written; [|reflexivity|cbn; lia].
    rewrite digitChars_repeat, <- digitChars_app.
    unfold full at 1. cbn [app].
    rewrite lexInt_digits; try assumption.
    2:{ apply Forall_app. split; [exact Hds'|apply Forall_repeat0]. }
    2:{ exact (numberEnds_not_digit _ Hrest). }
    cbn [mbind option_bind].
    rewrite (lexFrac_none _ Hrest). cbn [mbind option_bind].
    rewrite (lexExp_none _ Hrest). cbn [mbind option_bind].
    rewrite app_nil_r.
    change (d :: ds' ++ repeat 0%N (Z.to_nat (n - k)))
      with ([] ++ full ++ repeat 0%N (Z.to_nat (n - k))).
    rewrite (mkNumber_pad neg full _ 0 _ Hcanon) by discriminate.
    apply andb_true_iff in HA as [HA1 HA2]. apply Z.leb_le in HA1.
    rewrite <- Hval. do 4 f_equal. cbn [length]. unfold n in *. lia. }
  destruct ((0 <? n)%Z && (n <=? 21)%Z) eqn:HB.
  { (* point inside the digits *)
    apply andb_true_iff in HB as [HB1 HB2]. apply Z.ltb_lt in HB1.
    assert (Hnk : (n < k)%Z).
    { apply andb_false_iff in HA as [HA|HA]; [apply Z.leb_gt in HA; lia|].
      rewrite HB2 in HA. discriminate. }
    set (j := Z.to_nat n).
    assert (Hj : (0 < j < length full)%nat) by (unfold j, k in *; lia).
    destruct (take j full) as [|t0 ts] eqn:Htake.
    { apply (f_equal length) in Htake. rewrite length_take in Htake.
      simpl in Htake. lia. }
    assert (Ht0 : t0 = d).
    { unfold full in Htake. destruct j; [lia|]. simpl in Htake. congruence. }
    subst t0.
    assert (Hts : Forall (fun x => (x < 10)%N) (d :: ts)).
    { rewrite <- Htake. now apply Forall_take. }
    erewrite lexSign_written; [|reflexivity|cbn; lia].
    rewrite <- !app_assoc.
    rewrite lexInt_digits; try assumption; [|now inversion Hts|cbn; reflexivity].
    cbn [mbind option_bind app JSON.lexFrac].
    change (46 =? 46)%N with true. cbv iota.
    assert (Hdrop : Forall (fun x => (x < 10)%N) (drop j full)) by now apply Forall_drop.
    rewrite (spanDigits_digitChars _ _ Hdrop (numberEnds_not_digit _ Hrest)).
    destruct (drop j full) as [|f0 fs] eqn:Hdropeq.
    { apply (f_equal length) in Hdropeq. rewrite length_drop in Hdropeq.
      change (length (@nil N)) with 0%nat in Hdropeq. lia. }
    cbn [mbind option_bind].
    rewrite (lexExp_none _ Hrest). cbn [mbind option_bind].
    change (d :: ts ++ f0 :: fs) with ((d :: ts) ++ f0 :: fs).
    rewrite <- Htake, <- Hdropeq, take_drop.
    rewrite (mkNumber_canonical neg full _ Hcanon) by discriminate.
    rewrite <- Hval. do 4 f_equal. rewrite length_drop. unfold n, j, k in *. lia. }
  destruct ((-6 <? n)%Z && (n <=? 0)%Z) eqn:HC.
  { (* zeros behind the point *)
    apply andb_true_iff in HC as [HC1 HC2]. apply Z.leb_le in HC2.
    erewrite lexSign_written; [|reflexivity|cbn; lia].
    cbn [app JSON.lexInt]. change (48 =? 48)%N with true. cbv iota.
    cbn [mbind option_bind JSON.lexFrac].
    change (46 =? 46)%N with true. cbv iota.
    rewrite <- app_assoc, digitChars_repeat, app_assoc, <- digitChars_app.
    rewrite spanDigits_digitChars;
      [| apply Forall_app; split; [apply Forall_repeat0|exact Hlt]
       | exact (numberEnds_not_digit _ Hrest)].
    destruct (repeat 0%N (Z.to_nat (- n)) ++ full) as [|f0 fs] eqn:Hfrac.
    { apply (f_equal length) in Hfrac. rewrite length_app in Hfrac.
      unfold full in Hfrac. simpl in Hfrac. lia. }
    cbn [mbind option_bind].
    rewrite (lexExp_none _ Hrest). cbn [mbind option_bind].
    rewrite <- Hfrac.
    change ([0%N] ++ repeat 0%N (Z.to_nat (- n)) ++ full)
      with (repeat 0%N (S (Z.to_nat (- n))) ++ full).
    rewrite <- (app_nil_r full) at 1.
    change (@nil N) with (repeat 0%N 0) at 1.
    rewrite (mkNumber_pad neg full _ _ 0 Hcanon) by discriminate.
    rewrite <- Hval. do 4 f_equal. rewrite length_app, repeat_length. unfold n, k in *. lia. }
  (* exponential notation *)
  erewrite lexSign_written; [|reflexivity|cbn; lia].
  rewrite <- !app_assoc.
  assert (Hexp : JSON.lexExp
                   ([101%N; if (n - 1 <? 0)%Z then 45%N else 43%N]
                      ++ JSON.decimal (Z.to_N (Z.abs (n - 1))) ++ rest)
                 = Some ((n - 1)%Z, rest)) by apply (lexExp_written _ _ Hrest).
  destruct ds' as [|d1 ds''].
  - rewrite lexInt_digits; try assumption; [|cbn; reflexivity].
    cbn [mbind option_bind app JSON.lexFrac] in *.
    change (101 =? 46)%N with false. cbv iota.
    cbn [mbind option_bind]. rewrite Hexp. cbn [mbind option_bind].
    rewrite (mkNumber_canonical neg [d] _ Hcanon) by discriminate.
    rewrite <- Hval. do 4 f_equal. unfold n, k, full. simpl. lia.
  - rewrite lexInt_digits; try assumption; [|constructor|cbn; reflexivity].
    cbn [mbind option_bind app JSON.lexFrac] in *.
    change (46 =? 46)%N with true. cbv iota.
    change (48 + d1 :: map (fun d0 => (48 + d0)%N) ds''
              ++ 101%N :: (if (n - 1 <? 0)%Z then 45%N else 43%N)
                 :: JSON.decimal (Z.to_N (Z.abs (n - 1))) ++ rest)%N
      with (JSON.digitChars (d1 :: ds'')
              ++ 101%N :: (if (n - 1 <? 0)%Z then 45%N else 43%N)
                 :: JSON.decimal (Z.to_N (Z.abs (n - 1))) ++ rest).
    rewrite (spanDigits_digitChars _ _ Hds') by reflexivity.
    cbn [mbind option_bind]. rewrite Hexp. cbn [mbind option_bind].
    change ([d] ++ d1 :: ds'') with full.
    rewrite (mkNumber_canonical neg full _ Hcanon) by discriminate.
    rewrite <- Hval. do 4 f_equal. unfold n, k, full. simpl. lia.
Qed.

Lemma hexValue_hexDigit x : (x < 16)%N -> JSON.hexValue (JSON.hexDigit x) = Some x.
Proof.
  intros Hx. destruct x as [|p]; [reflexivity|].
  do 4 (try destruct p as [p|p|]); try reflexivity; lia.
Qed.

Lemma nibble_lt c k : (N.land (N.shiftr c k) 15 < 16)%N.
Proof.
  change 15%N with (N.ones 4). rewrite N.land_ones.
  apply N.mod_lt. discriminate.
Qed.

Lemma nibble0_lt c : (N.land c 15 < 16)%N.
Proof. exact (nibble_lt c 0). Qed.

Lemma nibbles_value c :
  (c < 65536)%N ->
  (((N.land (N.shiftr c 12) 15 * 16 + N.land (N.shiftr c 8) 15) * 16
    + N.land (N.shiftr c 4) 15) * 16 + N.land c 15 = c)%N.
Proof.
  intros Hc. change 15%N with (N.ones 4). rewrite !N.land_ones.
  rewrite !N.shiftr_div_pow2.
  change (2 ^ 12)%N with 4096%N. change (2 ^ 8)%N with 256%N.
  change (2 ^ 4)%N with 16%N.
  zify. Z.to_euclidean_division_equations. lia.
Qed.

Lemma lexString_unicodeEscape c r :
  (c < 65536)%N ->
  JSON.lexString (JSON.unicodeEscape c ++ r)
  = '(str, rest) ← JSON.lexString r; Some (c :: str, rest).
Proof.
  intros Hc. unfold JSON.unicodeEscape. cbn [app JSON.lexString].
  change (92 =? 34)%N with false. change (92 =? 92)%N with true.
  change (117 =? 117)%N with true. cbv iota.
  rewrite !hexValue_hexDigit by (apply nibble_lt || apply nibble0_lt).
  cbn [mbind option_bind]. rewrite (nibbles_value c Hc). reflexivity.
Qed.

Lemma lexString_plain c r :
  (32 <= c)%N -> c <> 34%N -> c <> 92%N ->
  JSON.lexString (c :: r)
  = '(str, rest) ← JSON.lexString r; Some (c :: str, rest).
Proof.
  intros H32 H34 H92. cbn [JSON.lexString].
  destruct (N.eqb_spec c 34); [congruence|].
  destruct (N.eqb_spec c 92); [congruence|].
  destruct (N.ltb_spec c 32); [lia|]. reflexivity.
Qed.

Lemma shortEscape_Some c e :
  JSON.shortEscape c = Some e ->
  (e =? 117)%N = false /\ JSON.unescape e = Some c.
Proof.
  unfold JSON.shortEscape.
  repeat (match goal with
          | |- context [(c =? ?k)%N] =>
              destruct (N.eqb_spec c k) as [->|?]; [intros [= <-]; split; reflexivity|]
          end).
  discriminate.
Qed.

Lemma shortEscape_None c :
  JSON.shortEscape c = None -> c <> 34%N /\ c <> 92%N.
Proof.
  intros H. split; intros ->; discriminate H.
Qed.

Lemma lexString_short c e r :
  JSON.shortEscape c = Some e ->
  JSON.lexString (92%N :: e :: r)
  = '(str, rest) ← JSON.lexString r; Some (c :: str, rest).
Proof.
  intros He. apply shortEscape_Some in He as [Hu Hun].
  cbn [JSON.lexString]. change (92 =? 34)%N with false. change (92 =? 92)%N with true.
  cbv iota. rewrite Hu, Hun. reflexivity.
Qed.

Lemma surrogate_bounds c :
  JSON.isLeadingSurrogate c = true \/ JSON.isTrailingSurrogate c = true ->
  (32 <= c)%N /\ (c < 65536)%N /\ c <> 34%N /\ c <> 92%N.
Proof.
  unfold JSON.isLeadingSurrogate, JSON.isTrailingSurrogate, TextDecoder.between.
  intros [H|H]; apply andb_true_iff in H as [H1 H2];
    apply N.leb_le in H1, H2; lia.
Qed.

(** What [quote] writes between the quotation marks is read back as the
    same code units. *)
Lemma lexString_quoteBody (s rest : jsstring) :
  JSON.lexString (JSON.quoteBody s ++ 34%N :: rest) = Some (s, rest).
Proof.
  remember (length s) as n eqn:Hn.
  revert s Hn. induction n as [n IH] using lt_wf_ind. intros s Hn.
  destruct s as [|c r]; [reflexivity|].
  assert (IHr : JSON.lexString (JSON.quoteBody r ++ 34%N :: rest) = Some (r, rest)).
  { apply (IH (length r)); [subst n; simpl; lia|reflexivity]. }
  cbn [JSON.quoteBody].
  destruct (JSON.shortEscape c) as [e|] eqn:Hshort.
  { cbn [app]. rewrite (lexString_short c e _ Hshort), IHr. reflexivity. }
  destruct (shortEscape_None c Hshort) as [H34 H92].
  destruct (N.ltb_spec c 32) as [Hlt|Hge].
  { rewrite <- app_assoc, lexString_unicodeEscape by lia. now rewrite IHr. }
  destruct (JSON.isLeadingSurrogate c) eqn:Hlead.
  { destruct (surrogate_bounds c (or_introl Hlead)) as (_ & Hc & _).
    destruct r as [|d r'].
    - rewrite lexString_unicodeEscape by exact Hc. reflexivity.
    - destruct (JSON.isTrailingSurrogate d) eqn:Htrail.
      + destruct (surrogate_bounds d (or_intror Htrail)) as (Hd32 & _ & Hd34 & Hd92).
        cbn [app]. rewrite (lexString_plain c) by assumption.
        rewrite (lexString_plain d) by assumption.
        rewrite (IH (length r')); [reflexivity|subst n; simpl; lia|reflexivity].
      + rewrite <- app_assoc, lexString_unicodeEscape by exact Hc. now rewrite IHr. }
  destruct (JSON.isTrailingSurrogate c) eqn:Htrail.
  { destruct (surrogate_bounds c (or_intror Htrail)) as (_ & Hc & _).
    rewrite <- app_assoc, lexString_unicodeEscape by exact Hc. now rewrite IHr. }
  cbn [app]. rewrite (lexString_plain c) by assumption. now rewrite IHr.
Qed.

Lemma stringify_array items :
  JSON.stringify (JArray items) = 91%N :: elementsText items ++ [93%N].
Proof. reflexivity. Qed.

Lemma stringify_object props :
  JSON.stringify (JObject props) = 123%N :: membersText props ++ [125%N].
Proof. reflexivity. Qed.

Lemma jsize_array items : jsize (JArray items) = S (elementsSize items).
Proof. reflexivity. Qed.

Lemma jsize_object props : jsize (JObject props) = S (membersSize props).
Proof.
  simpl. f_equal. induction props as [|[k x] props IH]; simpl; [reflexivity|].
  now rewrite IH.
Qed.

Lemma wfJson_array items : wfJson (JArray items) <-> Forall wfJson items.
Proof.
  simpl. induction items as [|x items IH]; simpl.
  - split; [constructor|trivial].
  - rewrite IH. split.
    + intros [Hx Hi]. now constructor.
    + intros H. now inversion H.
Qed.

Lemma wfJson_object props :
  wfJson (JObject props)
  <-> canonicalKeys (map fst props) /\ Forall (fun kx => wfJson kx.2) props.
Proof.
  simpl. apply and_iff_compat_l.
  induction props as [|[k x] props IH]; simpl.
  - split; [constructor|trivial].
  - rewrite IH. split.
    + intros [Hx Hi]. now constructor.
    + intros H. now inversion H.
Qed.

(** Induction on values with the hypothesis for the values inside. *)
Lemma json_nested_ind (P : json -> Prop) :
  P JNull ->
  (forall b, P (JBool b)) ->
  (forall n, P (JNumber n)) ->
  (forall s, P (JString s)) ->
  (forall items, Forall P items -> P (JArray items)) ->
  (forall props, Forall (fun kx => P kx.2) props -> P (JObject props)) ->
  forall v, P v.
Proof.
  intros Hnull Hbool Hnum Hstr Harr Hobj.
  fix IH 1. intros [| b | n | s | items | props].
  - exact Hnull.
  - apply Hbool.
  - apply Hnum.
  - apply Hstr.
  - apply Harr. induction items as [|x items IHitems]; constructor.
    + apply IH.
    + exact IHitems.
  - apply Hobj. induction props as [|[k x] props IHprops]; constructor.
    + apply IH.
    + exact IHprops.
Qed.

Lemma parseValue_S fuel s :
  JSON.parseValue (S fuel) s =
  let s' := JSON.skipWs s in
  match s' with
  | [] => None
  | c :: r =>
      if (c =? 34)%N then
        '(str, rest) ← JSON.lexString r; Some (JString str, rest)
      else if (c =? 91)%N then
        match JSON.expect 93 (JSON.skipWs r) with
        | Some rest => Some (JArray [], rest)
        | None => '(items, rest) ← JSON.parseElements fuel r;
                  Some (JArray items, rest)
        end
      else if (c =? 123)%N then
        match JSON.expect 125 (JSON.skipWs r) with
        | Some rest => Some (JObject [], rest)
        | None => '(props, rest) ← JSON.parseMembers fuel [] r;
                  Some (JObject props, rest)
        end
      else if Str.startsWith s' (js "null") then Some (JNull, drop 4 s')
      else if Str.startsWith s' (js "true") then Some (JBool true, drop 4 s')
      else if Str.startsWith s' (js "false") then Some (JBool false, drop 5 s')
      else '(n, rest) ← JSON.lexNumber s'; Some (JNumber n, rest)
  end.
Proof. reflexivity. Qed.

Lemma parseElements_S fuel s :
  JSON.parseElements (S fuel) s =
  '(v, r) ← JSON.parseValue fuel s;
  match JSON.skipWs r with
  | c :: rest =>
      if (c =? 93)%N then Some ([v], rest)
      else if (c =? 44)%N then
        '(vs, rest') ← JSON.parseElements fuel rest; Some (v :: vs, rest')
      else None
  | [] => None
  end.
Proof. reflexivity. Qed.

Lemma parseMembers_S fuel acc s :
  JSON.parseMembers (S fuel) acc s =
  r0 ← JSON.expect 34 (JSON.skipWs s);
  '(k, r1) ← JSON.lexString r0;
  r2 ← JSON.expect 58 (JSON.skipWs r1);
  '(v, r3) ← JSON.parseValue fuel r2;
  let acc' := JSON.defineProperty k v acc in
  match JSON.skipWs r3 with
  | c :: rest =>
      if (c =? 125)%N then Some (acc', rest)
      else if (c =? 44)%N then JSON.parseMembers fuel acc' rest
      else None
  | [] => None
  end.
Proof. reflexivity. Qed.

Lemma isDigit_bounds c : JSON.isDigit c = true -> (48 <= c <= 57)%N.
Proof.
  unfold JSON.isDigit, TextDecoder.between.
  intros [H1 H2]%andb_true_iff. apply N.leb_le in H1, H2. lia.
Qed.

Lemma numberStart_bounds c : numberStart c -> c = 45%N \/ (48 <= c <= 57)%N.
Proof. intros [->|H]; [now left|right; now apply isDigit_bounds]. Qed.

Lemma numberToString_first x :
  wfNumber x -> exists c t, JSON.numberToString x = c :: t /\ numberStart c.
Proof.
  destruct x as [neg ds e|neg]; [|intros (_ & [=] & _)]. intros [[Hcanon _] _].
  unfold JSON.numberToString.
  destruct ds as [|d ds']; [exists 48%N, []; split; [reflexivity|now right]|].
  destruct neg; [eexists _, _; split; [reflexivity|now left]|].
  destruct (canonical_head _ _ Hcanon) as [Hd _].
  pose proof (isDigit_digitChar d Hd) as Hdigit.
  cbn [app].
  set (k := Z.of_nat (length (d :: ds'))). set (n := (e + k)%Z).
  destruct ((k <=? n)%Z && (n <=? 21)%Z) eqn:HA;
    [eexists _, _; split; [reflexivity|now right]|].
  destruct ((0 <? n)%Z && (n <=? 21)%Z) eqn:HB.
  { apply andb_true_iff in HB as [HB _]. apply Z.ltb_lt in HB.
    destruct (Z.to_nat n) eqn:Ej; [lia|].
    eexists _, _; split; [reflexivity|now right]. }
  destruct ((-6 <? n)%Z && (n <=? 0)%Z) eqn:HC;
    eexists _, _; (split; [reflexivity|now right]).
Qed.

Lemma numberStart_valueStart c : numberStart c -> valueStart c.
Proof.
  intros [->|H%isDigit_bounds]; [repeat split; discriminate|].
  unfold valueStart, JSON.isJsonWhiteSpace.
  repeat split; try lia.
  destruct (N.eqb_spec c 9); [lia|]. destruct (N.eqb_spec c 10); [lia|].
  destruct (N.eqb_spec c 13); [lia|]. destruct (N.eqb_spec c 32); [lia|].
  reflexivity.
Qed.

(** A finite number is written by [numberToString]. *)
Lemma stringify_number x :
  wfNumber x -> JSON.stringify (JNumber x) = JSON.numberToString x.
Proof. destruct x; [reflexivity|intros (_ & [=] & _)]. Qed.

Lemma stringify_first v :
  wfJson v -> exists c t, JSON.stringify v = c :: t /\ valueStart c.
Proof.
  destruct v as [|[|]|x|s|items|props]; intros Hwf;
    try (eexists _, _; split; [reflexivity|repeat split; discriminate]).
  destruct (numberToString_first x Hwf) as (c & t & Ht & Hc).
  exists c, t. rewrite (stringify_number x Hwf).
  split; [exact Ht|now apply numberStart_valueStart].
Qed.

Lemma skipWs_valueStart c t : valueStart c -> JSON.skipWs (c :: t) = c :: t.
Proof. intros [Hc _]. apply dropWhile_fixed. exact Hc. Qed.

Lemma expect_ne k c t : c <> k -> JSON.expect k (c :: t) = None.
Proof. intros Hc. simpl. destruct (N.eqb_spec c k); [congruence|reflexivity]. Qed.

Lemma startsWith_ne c t p ps : c <> p -> Str.startsWith (c :: t) (p :: ps) = false.
Proof. intros Hc. simpl. destruct (N.eqb_spec c p); [congruence|reflexivity]. Qed.

(** A number is parsed as what [lexNumber] reads. *)
Lemma parseValue_number fuel c t :
  numberStart c ->
  JSON.parseValue (S fuel) (c :: t)
  = '(n, rest) ← JSON.lexNumber (c :: t); Some (JNumber n, rest).
Proof.
  intros Hc. rewrite parseValue_S.
  rewrite (skipWs_valueStart c t (numberStart_valueStart c Hc)).
  cbv beta iota zeta.
  apply numberStart_bounds in Hc.
  rewrite (proj2 (N.eqb_neq c 34)) by lia.
  rewrite (proj2 (N.eqb_neq c 91)) by lia.
  rewrite (proj2 (N.eqb_neq c 123)) by lia.
  change (js "null") with (110%N :: js "ull").
  change (js "true") with (116%N :: js "rue").
  change (js "false") with (102%N :: js "alse").
  rewrite !startsWith_ne by lia. reflexivity.
Qed.

Lemma numberEnds_separator c rest :
  c = 44%N \/ c = 93%N \/ c = 125%N -> numberEnds (c :: rest).
Proof. intros [-> | [-> | ->]]; repeat split; discriminate. Qed.

Lemma elementsText_cons x y more :
  elementsText (x :: y :: more)
  = JSON.stringify x ++ 44%N :: elementsText (y :: more).
Proof. reflexivity. Qed.

Lemma membersText_cons k x kx more :
  membersText ((k, x) :: kx :: more)
  = JSON.quote k ++ 58%N :: JSON.stringify x ++ 44%N :: membersText (kx :: more).
Proof. reflexivity. Qed.

Lemma parseElements_elementsText items :
  items <> [] -> Forall readsBack items -> Forall wfJson items ->
  forall fuel rest,
    (elementsSize items <= fuel)%nat ->
    JSON.parseElements fuel (elementsText items ++ 93%N :: rest)
    = Some (items, rest).
Proof.
  intros Hne Hread Hwf. induction items as [|x items IH]; [congruence|].
  intros fuel rest Hfuel. clear Hne.
  apply Forall_cons in Hread as [Hx Hread]. apply Forall_cons in Hwf as [Hwx Hwf].
  cbn [elementsSize fold_right] in Hfuel. fold (elementsSize items) in Hfuel.
  destruct fuel as [|fuel]; [lia|]. rewrite parseElements_S.
  destruct items as [|y more].
  - cbn [elementsText].
    rewrite (Hx fuel (93%N :: rest) Hwx ltac:(lia)
               (numberEnds_separator _ _ (or_intror (or_introl eq_refl)))).
    reflexivity.
  - rewrite elementsText_cons, <- app_assoc. cbn [app].
    rewrite (Hx fuel _ Hwx ltac:(lia)
               (numberEnds_separator _ _ (or_introl eq_refl))).
    cbn [mbind option_bind JSON.skipWs Str.dropWhile].
    change (JSON.isJsonWhiteSpace 44) with false. cbv iota.
    change (44 =? 93)%N with false. change (44 =? 44)%N with true. cbv iota.
    rewrite (IH ltac:(discriminate) Hread Hwf fuel rest ltac:(lia)).
    reflexivity.
Qed.

Lemma skipWs_quote k t : JSON.skipWs (JSON.quote k ++ t) = JSON.quote k ++ t.
Proof. reflexivity. Qed.

Lemma parseMembers_membersText props :
  props <> [] -> Forall (fun kx => readsBack kx.2) props ->
  Forall (fun kx => wfJson kx.2) props ->
  forall fuel acc rest,
    (membersSize props <= fuel)%nat ->
    JSON.parseMembers fuel acc (membersText props ++ 125%N :: rest)
    = Some (replay props acc, rest).
Proof.
  intros Hne Hread Hwf. induction props as [|[k x] props IH]; [congruence|].
  intros fuel acc rest Hfuel. clear Hne.
  apply Forall_cons in Hread as [Hx Hread]. apply Forall_cons in Hwf as [Hwx Hwf].
  cbn [fst snd] in Hx, Hwx.
  cbn [membersSize fold_right snd] in Hfuel. fold (membersSize props) in Hfuel.
  destruct fuel as [|fuel]; [lia|]. rewrite parseMembers_S.
  assert (Hkey : forall t,
            JSON.expect 34 (JSON.skipWs (JSON.quote k ++ 58%N :: t))
            ≫= (fun r0 => JSON.lexString r0) = Some (k, 58%N :: t)).
  { intros t. unfold JSON.quote. cbn [app JSON.skipWs Str.dropWhile].
    change (JSON.isJsonWhiteSpace 34) with false. cbv iota.
    cbn [JSON.expect]. change (34 =? 34)%N with true. cbv iota.
    cbn [mbind option_bind]. rewrite <- app_assoc. cbn [app].
    apply lexString_quoteBody. }
  destruct props as [|kx more].
  - cbn [membersText].
    pose proof (Hkey (JSON.stringify x ++ 125%N :: rest)) as Hk.
    rewrite <- !app_assoc. cbn [app].
    destruct (JSON.expect 34 _) as [r0|]; [|discriminate Hk].
    cbn [mbind option_bind] in Hk |- *. rewrite Hk.
    cbn [mbind option_bind JSON.skipWs Str.dropWhile].
    change (JSON.isJsonWhiteSpace 58) with false. cbv iota.
    cbn [JSON.expect]. change (58 =? 58)%N with true. cbv iota.
    cbn [mbind option_bind].
    rewrite (Hx fuel (125%N :: rest) Hwx ltac:(lia)
               (numberEnds_separator _ _ (or_intror (or_intror eq_refl)))).
    reflexivity.
  - rewrite membersText_cons, <- !app_assoc. cbn [app].
    pose proof (Hkey (JSON.stringify x ++ 44%N :: membersText (kx :: more)
                        ++ 125%N :: rest)) as Hk.
    rewrite <- !app_assoc. cbn [app].
    destruct (JSON.expect 34 _) as [r0|]; [|discriminate Hk].
    cbn [mbind option_bind] in Hk |- *. rewrite Hk.
    cbn [mbind option_bind JSON.skipWs Str.dropWhile].
    change (JSON.isJsonWhiteSpace 58) with false. cbv iota.
    cbn [JSON.expect]. change (58 =? 58)%N with true. cbv iota.
    cbn [mbind option_bind].
    rewrite (Hx fuel _ Hwx ltac:(lia)
               (numberEnds_separator _ _ (or_introl eq_refl))).
    cbn [mbind option_bind JSON.skipWs Str.dropWhile].
    change (JSON.isJsonWhiteSpace 44) with false. cbv iota.
    change (44 =? 125)%N with false. change (44 =? 44)%N with true. cbv iota.
    rewrite (IH ltac:(discriminate) Hread Hwf fuel _ rest ltac:(lia)).
    reflexivity.
Qed.

Lemma Str_eqb_refl a : Str.eqb a a = true.
Proof. now apply Str_eqb_eq. Qed.

Lemma Str_eqb_neq a b : a <> b -> Str.eqb a b = false.
Proof.
  intros Hne. destruct (Str.eqb a b) eqn:E; [|reflexivity].
  apply Str_eqb_eq in E. congruence.
Qed.

(** A new key behind which no present key sorts goes to the end. *)
Lemma defineProperty_append k v acc :
  Forall (fun k0 => k0 <> k /\ JSON.sortsBefore k k0 = false) (map fst acc) ->
  JSON.defineProperty k v acc = acc ++ [(k, v)].
Proof.
  induction acc as [|[k0 v0] acc IH]; intros Hacc; [reflexivity|].
  cbn [map fst] in Hacc. apply Forall_cons in Hacc as [[Hne Hsort] Hacc].
  cbn [JSON.defineProperty app].
  rewrite (Str_eqb_neq _ _ Hne), Hsort. now rewrite (IH Hacc).
Qed.

Lemma canonicalKeys_app_inv pre k post :
  canonicalKeys (pre ++ k :: post) ->
  Forall (fun k0 => k <> k0 /\ JSON.sortsBefore k k0 = false) pre.
Proof.
  induction pre as [|k0 pre IH]; intros Hc; [constructor|].
  cbn [app canonicalKeys] in Hc. destruct Hc as [Hall Hc].
  constructor; [|now apply IH].
  apply Forall_app in Hall as [_ Hall]. now apply Forall_cons in Hall as [Hk _].
Qed.

(** Defining the properties of a canonical list one after the other
    gives the list back. *)
Lemma replay_canonical post pre :
  canonicalKeys (map fst (pre ++ post)) -> replay post pre = pre ++ post.
Proof.
  revert pre. induction post as [|[k v] post IH]; intros pre Hc.
  - now rewrite app_nil_r.
  - cbn [replay fold_left fst snd]. fold (replay post (JSON.defineProperty k v pre)).
    rewrite defineProperty_append.
    + rewrite IH; rewrite <- app_assoc; [reflexivity|exact Hc].
    + rewrite map_app in Hc. cbn [map fst] in Hc.
      apply canonicalKeys_app_inv in Hc.
      eapply Forall_impl; [exact Hc|]. intros k0 [Hne Hs]. split; congruence.
Qed.

Lemma readsBack_all v : readsBack v.
Proof.
  induction v as [| b | x | s | items IH | props IH] using json_nested_ind;
    intros fuel rest Hwf Hfuel Hrest.
  - destruct fuel as [|fuel]; [simpl in Hfuel; lia|]. reflexivity.
  - destruct fuel as [|fuel]; [simpl in Hfuel; lia|]. now destruct b.
  - destruct fuel as [|fuel]; [simpl in Hfuel; lia|].
    destruct (numberToString_first x Hwf) as (c & t & Ht & Hc).
    rewrite (stringify_number x Hwf), Ht. cbn [app].
    rewrite (parseValue_number fuel c _ Hc).
    change (c :: t ++ rest) with ((c :: t) ++ rest). rewrite <- Ht.
    now rewrite (lexNumber_numberToString x rest Hwf Hrest).
  - destruct fuel as [|fuel]; [simpl in Hfuel; lia|].
    cbn [JSON.stringify]. unfold JSON.quote. rewrite parseValue_S.
    cbn [app JSON.skipWs Str.dropWhile].
    change (JSON.isJsonWhiteSpace 34) with false. cbv beta iota zeta.
    change (34 =? 34)%N with true. cbv iota.
    rewrite <- app_assoc. cbn [app]. now rewrite lexString_quoteBody.
  - rewrite jsize_array in Hfuel.
    destruct fuel as [|fuel]; [lia|].
    apply wfJson_array in Hwf.
    rewrite stringify_array, parseValue_S.
    cbn [app JSON.skipWs Str.dropWhile].
    change (JSON.isJsonWhiteSpace 91) with false. cbv beta iota zeta.
    change (91 =? 34)%N with false. change (91 =? 91)%N with true. cbv iota.
    rewrite <- app_assoc. cbn [app].
    destruct items as [|x items]; [reflexivity|].
    assert (Hx : wfJson x) by now inversion Hwf.
    destruct (stringify_first x Hx) as (c & t & Ht & Hc).
    assert (Hstart : exists t', elementsText (x :: items) ++ 93%N :: rest = c :: t').
    { destruct items; cbn [elementsText]; rewrite Ht; eexists; reflexivity. }
    destruct Hstart as [t' Ht'].
    rewrite Ht' at 1. rewrite (skipWs_valueStart c t' Hc).
    rewrite (expect_ne 93 c t') by apply Hc.
    rewrite parseElements_elementsText; try assumption; [reflexivity|discriminate|lia].
  - rewrite jsize_object in Hfuel.
    destruct fuel as [|fuel]; [lia|].
    apply wfJson_object in Hwf as [Hkeys Hwf].
    rewrite stringify_object, parseValue_S.
    cbn [app JSON.skipWs Str.dropWhile].
    change (JSON.isJsonWhiteSpace 123) with false. cbv beta iota zeta.
    change (123 =? 34)%N with false. change (123 =? 91)%N with false.
    change (123 =? 123)%N with true. cbv iota.
    rewrite <- app_assoc. cbn [app].
    destruct props as [|[k x] props]; [reflexivity|].
    assert (Hstart : exists t', membersText ((k, x) :: props) ++ 125%N :: rest
                                = 34%N :: t').
    { destruct props; cbn [membersText]; unfold JSON.quote; eexists; reflexivity. }
    destruct Hstart as [t' Ht'].
    rewrite Ht' at 1.
    change (JSON.skipWs (34%N :: t')) with (34%N :: t').
    change (JSON.expect 125 (34%N :: t')) with (@None jsstring). cbv iota.
    rewrite parseMembers_membersText; try assumption; [|discriminate|lia].
    cbn [mbind option_bind]. now rewrite (replay_canonical _ [] Hkeys).
Qed.

Lemma numberToString_length x : (1 <= length (JSON.numberToString x))%nat.
Proof.
  destruct x as [neg [|d ds] e|neg]; [simpl; lia| |destruct neg; simpl; lia].
  unfold JSON.numberToString. rewrite length_app.
  set (k := Z.of_nat (length (d :: ds))). set (n := (e + k)%Z).
  destruct ((k <=? n)%Z && (n <=? 21)%Z).
  { rewrite length_app. simpl. lia. }
  destruct ((0 <? n)%Z && (n <=? 21)%Z).
  { rewrite !length_app. simpl. lia. }
  destruct ((-6 <? n)%Z && (n <=? 0)%Z); rewrite !length_app; simpl; lia.
Qed.

Lemma jsize_le_length v : (jsize v <= length (JSON.stringify v))%nat.
Proof.
  induction v as [| b | x | s | items IH | props IH] using json_nested_ind.
  - simpl. lia.
  - destruct b; simpl; lia.
  - cbn [jsize JSON.stringify].
    destruct x; [apply numberToString_length|simpl; lia].
  - cbn [jsize JSON.stringify]. unfold JSON.quote. simpl. lia.
  - rewrite jsize_array, stringify_array. cbn [length]. rewrite length_app.
    cbn [length]. apply le_n_S.
    induction IH as [|x items Hx _ IHitems]; [simpl; lia|].
    cbn [elementsSize fold_right]. fold (elementsSize items).
    destruct items as [|y more].
    + cbn [elementsText elementsSize fold_right] in *. lia.
    + rewrite elementsText_cons, length_app. cbn [length]. lia.
  - rewrite jsize_object, stringify_object. cbn [length]. rewrite length_app.
    cbn [length]. apply le_n_S.
    induction IH as [|[k x] props Hx _ IHprops]; [simpl; lia|].
    cbn [membersSize fold_right snd] in *. fold (membersSize props).
    destruct props as [|kx more].
    + cbn [membersText membersSize fold_right] in *.
      unfold JSON.quote.
      repeat (progress (rewrite ?length_app; cbn [length])). lia.
    + rewrite membersText_cons. unfold JSON.quote.
      repeat (progress (rewrite ?length_app; cbn [length])). lia.
Qed.

(** [JSON.parse (JSON.stringify v)] is [v] for every value without an
    infinity that [JSON.parse] can return. *)
Lemma parse_stringify v : wfJson v -> JSON.parse (JSON.stringify v) = Some v.
Proof.
  intros Hwf. unfold JSON.parse.
  pose proof (readsBack_all v (S (length (JSON.stringify v))) [] Hwf) as Hread.
  rewrite app_nil_r in Hread. rewrite Hread; [reflexivity| |exact I].
  pose proof (jsize_le_length v). lia.
Qed.

Lemma Forall_dropWhile (P : N -> Prop) p s : Forall P s -> Forall P (Str.dropWhile p s).
Proof.
  intros H. destruct (dropWhile_suffix p s) as [t Ht].
  rewrite Ht in H. now apply Forall_app in H as [_ H].
Qed.

Lemma Forall_dropWhileEnd (P : N -> Prop) p s :
  Forall P s -> Forall P (Str.dropWhileEnd p s).
Proof.
  intros H. destruct (dropWhileEnd_prefix p s) as [t Ht].
  rewrite Ht in H. now apply Forall_app in H as [H _].
Qed.

Lemma spanDigits_lt s :
  Forall (fun d => (d < 10)%N) (JSON.spanDigits s).1.
Proof.
  induction s as [|c s IH]; simpl; [constructor|].
  destruct (JSON.isDigit c) eqn:Hc; [|constructor].
  destruct (JSON.spanDigits s) as [ds r]. simpl in *.
  constructor; [|exact IH]. apply isDigit_bounds in Hc. lia.
Qed.

Lemma mkNumber_wf neg ds e :
  Forall (fun d => (d < 10)%N) ds -> canonicalNumber (JSON.mkNumber neg ds e).
Proof.
  intros Hds. unfold JSON.mkNumber.
  set (ds2 := Str.dropWhileEnd JSON.isZeroDigit (Str.dropWhile JSON.isZeroDigit ds)).
  assert (Hcanon : canonicalDigits ds2).
  { repeat split.
    - now apply Forall_dropWhileEnd, Forall_dropWhile.
    - apply dropWhile_dropWhileEnd.
    - apply dropWhileEnd_idem. }
  destruct ds2 as [|d ds'] eqn:E.
  - split; [repeat split; constructor|]. intros _. split; reflexivity.
  - split; [exact Hcanon|]. discriminate.
Qed.

Lemma lexInt_lt s ds r : JSON.lexInt s = Some (ds, r) -> Forall (fun d => (d < 10)%N) ds.
Proof.
  destruct s as [|c s]; [discriminate|]. unfold JSON.lexInt.
  pose proof (spanDigits_lt (c :: s)) as H.
  destruct (JSON.spanDigits (c :: s)) as [ds' r'].
  destruct (c =? 48)%N.
  - intros [= <- <-]. repeat constructor.
  - destruct (JSON.isDigit c); [|discriminate].
    now intros [= <- <-].
Qed.

Lemma lexFrac_lt s ds r : JSON.lexFrac s = Some (ds, r) -> Forall (fun d => (d < 10)%N) ds.
Proof.
  destruct s as [|c s]; [intros [= <- <-]; constructor|]. unfold JSON.lexFrac.
  destruct (c =? 46)%N; [|intros [= <- <-]; constructor].
  pose proof (spanDigits_lt s) as H.
  destruct (JSON.spanDigits s) as [[|d fd] r']; [discriminate|].
  now intros [= <- <-].
Qed.

Lemma Rounded_eqb_eq (a b : JSON.Rounded) : JSON.Rounded_eqb a b = true -> a = b.
Proof.
  destruct a as [| |m q], b as [| |m' q']; try discriminate; try reflexivity.
  cbn. intros [Hm Hq]%andb_true_iff.
  apply N.eqb_eq in Hm. apply Z.eqb_eq in Hq. now subst.
Qed.

Lemma digitsOf_lt n : Forall (fun d => (d < 10)%N) (JSON.digitsOf n).
Proof. apply uintDigits_lt. Qed.

Lemma nearestDecimals_lt k ds e :
  Forall (fun d => (d < 10)%N) ds ->
  Forall (fun c => Forall (fun d => (d < 10)%N) c.1) (JSON.nearestDecimals k ds e).
Proof.
  intros Hds. unfold JSON.nearestDecimals.
  assert (Hbelow : Forall (fun d => (d < 10)%N) (take k ds)) by now apply Forall_take.
  pose proof (digitsOf_lt (JSON.digitsToN (take k ds) + 1)) as Habove.
  destruct (_ <=? _)%nat; [now repeat constructor|].
  destruct (_ <? _)%N; [now repeat constructor|].
  destruct (_ <? _)%N; [now repeat constructor|].
  destruct (N.even _); now repeat constructor.
Qed.

Lemma exactDecimal_lt mant exp2 :
  Forall (fun d => (d < 10)%N) (JSON.exactDecimal mant exp2).1.
Proof. unfold JSON.exactDecimal. destruct (_ <=? _)%Z; apply digitsOf_lt. Qed.

(** What is found for a double: a decimal in canonical form, with the
    sign asked for unless it is zero, which is rounded to the double. *)
Lemma shortestDecimal_Some neg mant exp2 y :
  JSON.shortestDecimal neg mant exp2 = Some y ->
  canonicalNumber y
  /\ match y with
     | Number neg' ds e =>
         (ds <> [] -> neg' = neg)
         /\ JSON.roundDigits ds e = JSON.ToDouble mant exp2
     | Infinity _ => False
     end.
Proof.
  unfold JSON.shortestDecimal.
  pose proof (exactDecimal_lt mant exp2) as Hlt.
  destruct (JSON.exactDecimal mant exp2) as [ds e]. cbn [fst] in Hlt.
  intros [Hin Hround]%find_some.
  apply in_flat_map in Hin as (k & _ & Hin).
  apply in_map_iff in Hin as ([cds ce] & <- & Hin). cbn [fst snd] in *.
  pose proof (nearestDecimals_lt k ds e Hlt) as Hall.
  rewrite Forall_forall in Hall.
  assert (Hcds : Forall (fun d => (d < 10)%N) cds).
  { apply (Hall (cds, ce)). now apply list_elem_of_In. }
  split; [now apply mkNumber_wf|].
  revert Hround. unfold JSON.mkNumber.
  destruct (Str.dropWhileEnd _ _) as [|d0 ds0]; [|split].
  - intros Hround. split; [congruence|]. now apply Rounded_eqb_eq.
  - reflexivity.
  - now apply Rounded_eqb_eq.
Qed.

(** The value of a value is that value. *)
Lemma numberValue_idem x : JSON.numberValue (JSON.numberValue x) = JSON.numberValue x.
Proof.
  destruct x as [neg [|d ds] e|neg]; try reflexivity.
  cbn [JSON.numberValue].
  destruct (JSON.roundDigits (d :: ds) e) as [| |mant exp2] eqn:Hr; try reflexivity.
  destruct (JSON.shortestDecimal neg mant exp2) as [y|] eqn:Hs.
  - destruct (shortestDecimal_Some _ _ _ _ Hs) as [_ Hy].
    destruct y as [neg' [|d' ds'] e'|neg']; [reflexivity| |contradiction].
    destruct Hy as [Hsign Hround]. rewrite (Hsign ltac:(discriminate)) in *.
    cbn [JSON.numberValue]. now rewrite Hround, Hs.
  - cbn [JSON.numberValue]. now rewrite Hr, Hs.
Qed.

Lemma numberValue_canonical x : canonicalNumber x -> canonicalNumber (JSON.numberValue x).
Proof.
  destruct x as [neg [|d ds] e|neg]; try (intros Hc; exact Hc).
  intros Hc. cbn [JSON.numberValue].
  destruct (JSON.roundDigits (d :: ds) e) as [| |mant exp2]; [|exact I|].
  - split; [repeat split; constructor|]. intros _. now split.
  - destruct (JSON.shortestDecimal neg mant exp2) as [y|] eqn:Hs; [|exact Hc].
    exact (proj1 (shortestDecimal_Some _ _ _ _ Hs)).
Qed.

(** The finite values of decimals are the numbers in canonical form. *)
Lemma numberValue_wf x :
  canonicalNumber x -> isFinite (JSON.numberValue x) = true ->
  wfNumber (JSON.numberValue x).
Proof.
  intros Hc Hfin. split; [now apply numberValue_canonical|].
  split; [exact Hfin|apply numberValue_idem].
Qed.

Lemma lexNumber_wf s x rest :
  JSON.lexNumber s = Some (x, rest) -> isFinite x = true -> wfNumber x.
Proof.
  unfold JSON.lexNumber. destruct (JSON.lexSign s) as [neg s1].
  destruct (JSON.lexInt s1) as [[intDigits s2]|] eqn:Hint; [|discriminate].
  cbn [mbind option_bind].
  destruct (JSON.lexFrac s2) as [[fracDigits s3]|] eqn:Hfrac; [|discriminate].
  cbn [mbind option_bind].
  destruct (JSON.lexExp s3) as [[e s4]|]; [|discriminate].
  cbn [mbind option_bind]. intros [= <- <-].
  apply numberValue_wf, mkNumber_wf, Forall_app. split.
  - exact (lexInt_lt _ _ _ Hint).
  - exact (lexFrac_lt _ _ _ Hfrac).
Qed.

Lemma wfIfFinite_all (l : list json) :
  Forall wfIfFinite l -> forallb finiteJson l = true -> Forall wfJson l.
Proof.
  induction 1 as [|x l Hx _ IH]; [constructor|].
  cbn [forallb]. intros [Hfx Hfl]%andb_true_iff.
  constructor; [exact (Hx Hfx)|exact (IH Hfl)].
Qed.

Lemma sortsBefore_asym k k0 :
  JSON.sortsBefore k k0 = true -> JSON.sortsBefore k0 k = false.
Proof.
  unfold JSON.sortsBefore.
  destruct (JSON.arrayIndex k) as [i|], (JSON.arrayIndex k0) as [j|];
    try discriminate; try reflexivity.
  intros H%N.ltb_lt. apply N.ltb_ge. lia.
Qed.

Lemma sortsBefore_between k k0 k' :
  JSON.sortsBefore k k0 = true -> JSON.sortsBefore k' k0 = false ->
  JSON.sortsBefore k' k = false.
Proof.
  unfold JSON.sortsBefore.
  destruct (JSON.arrayIndex k) as [i|], (JSON.arrayIndex k0) as [j|],
    (JSON.arrayIndex k') as [i'|]; try discriminate; try reflexivity.
  intros H1%N.ltb_lt H2%N.ltb_ge. apply N.ltb_ge. lia.
Qed.

Lemma defineProperty_keys k v acc k' :
  k' ∈ map fst (JSON.defineProperty k v acc) -> k' = k \/ k' ∈ map fst acc.
Proof.
  induction acc as [|[k0 v0] acc IH]; cbn [JSON.defineProperty map fst].
  - intros [->|Hin%elem_of_nil]%elem_of_cons; [now left|contradiction].
  - destruct (Str.eqb k0 k); [now right|].
    destruct (JSON.sortsBefore k k0).
    + cbn [map fst]. intros [->|Hin]%elem_of_cons; [now left|now right].
    + cbn [map fst]. intros [->|Hin]%elem_of_cons.
      * right. now left.
      * destruct (IH Hin) as [->|Hin']; [now left|]. right. now right.
Qed.

Lemma defineProperty_canonical k v acc :
  canonicalKeys (map fst acc) ->
  canonicalKeys (map fst (JSON.defineProperty k v acc)).
Proof.
  induction acc as [|[k0 v0] acc IH]; intros Hc.
  - cbn. split; [constructor|exact I].
  - cbn [map fst canonicalKeys] in Hc. destruct Hc as [Hall Hc].
    cbn [JSON.defineProperty].
    destruct (Str.eqb k0 k) eqn:Heq; [cbn [map fst canonicalKeys]; now split|].
    assert (Hne : k0 <> k).
    { intros ->. now rewrite Str_eqb_refl in Heq. }
    destruct (JSON.sortsBefore k k0) eqn:Hsort.
    + cbn [map fst canonicalKeys]. split; [|now split].
      constructor.
      * split; [exact Hne|now apply sortsBefore_asym].
      * eapply Forall_impl; [exact Hall|]. intros k' [Hk' Hs']. split.
        -- intros ->. congruence.
        -- now apply (sortsBefore_between k k0 k').
    + cbn [map fst canonicalKeys]. split; [|now apply IH].
      apply Forall_forall. intros k' Hin.
      destruct (defineProperty_keys k v acc k' Hin) as [->|Hin'].
      * split; [congruence|exact Hsort].
      * rewrite Forall_forall in Hall. now apply Hall.
Qed.

Lemma defineProperty_values (P : json -> Prop) k v acc :
  P v -> Forall (fun kx => P kx.2) acc ->
  Forall (fun kx => P kx.2) (JSON.defineProperty k v acc).
Proof.
  intros Hv. induction acc as [|[k0 v0] acc IH]; intros Hacc.
  - now repeat constructor.
  - apply Forall_cons in Hacc as [H0 Hacc]. cbn [JSON.defineProperty].
    destruct (Str.eqb k0 k); [now constructor|].
    destruct (JSON.sortsBefore k k0); [now repeat constructor|].
    constructor; [exact H0|now apply IH].
Qed.

Lemma parser_wf fuel :
  (forall s v rest, JSON.parseValue fuel s = Some (v, rest) -> wfIfFinite v)
  /\ (forall s items rest,
        JSON.parseElements fuel s = Some (items, rest) -> Forall wfIfFinite items)
  /\ (forall acc s props rest,
        canonicalKeys (map fst acc) -> Forall (fun kx => wfIfFinite kx.2) acc ->
        JSON.parseMembers fuel acc s = Some (props, rest) ->
        canonicalKeys (map fst props) /\ Forall (fun kx => wfIfFinite kx.2) props).
Proof.
  induction fuel as [|fuel (IHv & IHe & IHm)];
    [repeat split; intros; discriminate|].
  split; [|split].
  - intros s v rest. rewrite parseValue_S. cbv zeta.
    destruct (JSON.skipWs s) as [|c r]; [discriminate|].
    destruct (c =? 34)%N.
    { destruct (JSON.lexString r) as [[str rest']|]; [|discriminate].
      now intros [= <- <-]. }
    destruct (c =? 91)%N.
    { destruct (JSON.expect 93 (JSON.skipWs r)); [now intros [= <- <-]|].
      destruct (JSON.parseElements fuel r) as [[items rest']|] eqn:He; [|discriminate].
      intros [= <- <-] Hfin. apply wfJson_array.
      exact (wfIfFinite_all items (IHe _ _ _ He) Hfin). }
    destruct (c =? 123)%N.
    { destruct (JSON.expect 125 (JSON.skipWs r)).
      { intros [= <- <-] _. cbn. split; exact I. }
      destruct (JSON.parseMembers fuel [] r) as [[props rest']|] eqn:Hm; [|discriminate].
      intros [= <- <-] Hfin. apply wfJson_object.
      destruct (IHm [] r props rest' I ltac:(constructor) Hm) as [Hkeys Hvals].
      split; [exact Hkeys|]. cbn [finiteJson] in Hfin.
      clear Hkeys Hm. induction Hvals as [|[k x] props Hx _ IH]; [constructor|].
      cbn [forallb snd] in Hfin. apply andb_true_iff in Hfin as [Hfx Hfl].
      constructor; [exact (Hx Hfx)|exact (IH Hfl)]. }
    destruct (Str.startsWith (c :: r) (js "null")); [now intros [= <- <-]|].
    destruct (Str.startsWith (c :: r) (js "true")); [now intros [= <- <-]|].
    destruct (Str.startsWith (c :: r) (js "false")); [now intros [= <- <-]|].
    destruct (JSON.lexNumber (c :: r)) as [[n rest']|] eqn:Hn; [|discriminate].
    intros [= <- <-]. exact (lexNumber_wf _ _ _ Hn).
  - intros s items rest. rewrite parseElements_S.
    destruct (JSON.parseValue fuel s) as [[v r]|] eqn:Hv; [|discriminate].
    cbn [mbind option_bind].
    destruct (JSON.skipWs r) as [|c rest']; [discriminate|].
    destruct (c =? 93)%N.
    { intros [= <- <-]. constructor; [exact (IHv _ _ _ Hv)|constructor]. }
    destruct (c =? 44)%N; [|discriminate].
    destruct (JSON.parseElements fuel rest') as [[vs rest'']|] eqn:He; [|discriminate].
    intros [= <- <-]. constructor; [exact (IHv _ _ _ Hv)|exact (IHe _ _ _ He)].
  - intros acc s props rest Hkeys Hvals. rewrite parseMembers_S.
    destruct (JSON.expect 34 (JSON.skipWs s)) as [r0|]; [|discriminate].
    cbn [mbind option_bind].
    destruct (JSON.lexString r0) as [[k r1]|]; [|discriminate].
    cbn [mbind option_bind].
    destruct (JSON.expect 58 (JSON.skipWs r1)) as [r2|]; [|discriminate].
    cbn [mbind option_bind].
    destruct (JSON.parseValue fuel r2) as [[v r3]|] eqn:Hv; [|discriminate].
    cbn [mbind option_bind]. cbv zeta.
    assert (Hkeys' : canonicalKeys (map fst (JSON.defineProperty k v acc)))
      by now apply defineProperty_canonical.
    assert (Hvals' : Forall (fun kx => wfIfFinite kx.2) (JSON.defineProperty k v acc)).
    { apply (defineProperty_values wfIfFinite); [exact (IHv _ _ _ Hv)|exact Hvals]. }
    destruct (JSON.skipWs r3) as [|c rest']; [discriminate|].
    destruct (c =? 125)%N; [now intros [= <- <-]|].
    destruct (c =? 44)%N; [|discriminate].
    apply IHm; assumption.
Qed.

(** A value that [JSON.parse] returns is in canonical form, unless it
    holds an infinity. *)
Lemma parse_wf text v : JSON.parse text = Some v -> wfIfFinite v.
Proof.
  unfold JSON.parse.
  destruct (JSON.parseValue (S (length text)) text) as [[v' rest]|] eqn:Hv;
    [|discriminate].
  cbn [mbind option_bind]. destruct (JSON.skipWs rest); [|discriminate].
  intros [= <-]. exact (proj1 (parser_wf _) _ _ _ Hv).
Qed.

(** Code units from the exclamation mark to the tilde are not white
    space. *)
Lemma isWhiteSpace_printable c : (33 <= c <= 126)%N -> Str.isWhiteSpace c = false.
Proof.
  intros Hc. unfold Str.isWhiteSpace, TextDecoder.between.
  rewrite (proj2 (N.leb_gt c 13)) by lia.
  rewrite (proj2 (N.leb_gt 0x2000 c)) by lia.
  rewrite !(proj2 (N.eqb_neq c _)) by lia.
  now rewrite !andb_false_r.
Qed.

Lemma trim_ends (s : jsstring) c t u l :
  s = c :: t -> s = u ++ [l] ->
  Str.isWhiteSpace c = false -> Str.isWhiteSpace l = false ->
  Str.trim s = s.
Proof.
  intros Hs Hl Hc Hlw. unfold Str.trim, Str.trimStart, Str.trimEnd, Str.dropWhileEnd.
  rewrite Hs at 1. rewrite (dropWhile_fixed _ c t Hc), <- Hs.
  rewrite Hl at 1. rewrite rev_app_distr. cbn [rev app].
  rewrite (dropWhile_fixed _ l _ Hlw).
  cbn [rev]. rewrite rev_involutive. now symmetry.
Qed.

Lemma digitChars_printable ds :
  Forall (fun d => (d < 10)%N) ds ->
  Forall (fun c => (33 <= c <= 126)%N) (JSON.digitChars ds).
Proof.
  intros H. apply Forall_map. eapply Forall_impl; [exact H|]. simpl. intros; lia.
Qed.

Lemma zeros_printable m : Forall (fun c => (33 <= c <= 126)%N) (repeat 48%N m).
Proof. induction m; simpl; constructor; (lia || assumption). Qed.

Lemma numberToString_printable x :
  wfNumber x -> Forall (fun c => (33 <= c <= 126)%N) (JSON.numberToString x).
Proof.
  destruct x as [neg ds e|neg]; [|intros (_ & [=] & _)]. intros [[(Hlt & _) _] _].
  unfold JSON.numberToString.
  destruct ds as [|d ds']; [repeat constructor; lia|].
  set (full := d :: ds') in *.
  pose proof (digitChars_printable full Hlt) as Hfull.
  apply Forall_app. split; [destruct neg; repeat constructor; lia|].
  destruct (_ && _).
  { apply Forall_app. split; [exact Hfull|apply zeros_printable]. }
  destruct (_ && _).
  { apply Forall_app. split; [apply digitChars_printable; now apply Forall_take|].
    constructor; [lia|]. apply digitChars_printable. now apply Forall_drop. }
  destruct (_ && _).
  { apply Forall_app. split; [repeat constructor; lia|].
    apply Forall_app. split; [apply zeros_printable|exact Hfull]. }
  apply Forall_app. split.
  { apply digitChars_printable. constructor; [now inversion Hlt|constructor]. }
  apply Forall_app. split.
  { destruct ds'; [constructor|]. constructor; [lia|].
    apply digitChars_printable. now inversion Hlt. }
  apply Forall_app. split.
  { constructor; [lia|]. constructor; [destruct (_ <? _)%Z; lia|constructor]. }
  unfold JSON.decimal. rewrite uintChars_digits.
  apply digitChars_printable, uintDigits_lt.
Qed.

Lemma stringify_trimmed v : wfJson v -> Str.trim (JSON.stringify v) = JSON.stringify v.
Proof.
  intros Hwf. destruct v as [|[|]|x|s|items|props]; try reflexivity.
  - (* number *)
    cbn [wfJson] in Hwf. rewrite (stringify_number x Hwf).
    pose proof (numberToString_printable x Hwf) as Hp.
    pose proof (numberToString_length x) as Hlen.
    destruct (JSON.numberToString x) as [|c t] eqn:E; [simpl in Hlen; lia|].
    destruct (exists_last (l := c :: t) ltac:(discriminate)) as (u & l & Hl).
    apply (trim_ends _ c t u l eq_refl Hl).
    + apply isWhiteSpace_printable. now inversion Hp.
    + apply isWhiteSpace_printable. rewrite Hl in Hp.
      apply Forall_app in Hp as [_ Hp]. now inversion Hp.
  - (* string *)
    cbn [JSON.stringify]. unfold JSON.quote.
    apply (trim_ends _ 34%N (JSON.quoteBody s ++ [34%N])
             (34%N :: JSON.quoteBody s) 34%N); reflexivity.
  - rewrite stringify_array.
    apply (trim_ends _ 91%N (elementsText items ++ [93%N])
             (91%N :: elementsText items) 93%N); reflexivity.
  - rewrite stringify_object.
    apply (trim_ends _ 123%N (membersText props ++ [125%N])
             (123%N :: membersText props) 125%N); reflexivity.
Qed.

Lemma tryParse_wf str : wfIfFinite (tryParse str).
Proof.
  unfold tryParse.
  destruct (JSON.parse (stripTrailingCommas str)) as [v|] eqn:E1;
    [exact (parse_wf _ _ E1)|].
  destruct (JSON.parse str) as [v|] eqn:E2; [exact (parse_wf _ _ E2)|].
  intros _. exact I.
Qed.

Lemma structuralParse_wf jsonString : wfIfFinite (structuralParse jsonString).
Proof.
  unfold structuralParse.
  set (p1 := tryParse jsonString).
  assert (H1 : wfIfFinite p1) by apply tryParse_wf.
  set (p2 := if negb (toBoolean p1) then _ else p1).
  assert (H2 : wfIfFinite p2).
  { unfold p2. destruct (negb (toBoolean p1)); [|exact H1].
    destruct (markdownMatch jsonString) as [[|c m]|]; try exact H1.
    apply tryParse_wf. }
  destruct (negb (toBoolean p2)); [|exact H2].
  destruct (bracketSpan jsonString) as [[a b]|]; [apply tryParse_wf|exact H2].
Qed.

(** What a successful result of [parseJsonResponse] holds. *)
Lemma parseJsonResponse_recovered `{Host} (T : Type) responseText v :
  parseJsonResponse T responseText = ParseResult.Make v None None ->
  wfIfFinite v /\ v <> JNull.
Proof.
  unfold parseJsonResponse.
  pose proof (structuralParse_wf (Str.trim responseText)) as Hwf.
  destruct (structuralParse (Str.trim responseText)) as [|b|x|s|items|props];
    try (intros [= <-]; split; [exact Hwf|discriminate]).
  destruct (isArray (JArray []) && hasNoIssuesPhrase responseText).
  - intros [= <-]. split; [intros _; exact I|discriminate].
  - discriminate.
Qed.

(** The text of a value without trailing-comma matches is parsed back to
    the value by the whole parser. *)
Lemma parseJsonResponse_stringify `{Host} (T : Type) v :
  wfJson v -> v <> JNull ->
  hasTrailingComma (JSON.stringify v) = false ->
  parseJsonResponse T (JSON.stringify v) = ParseResult.Make v None None.
Proof.
  intros Hwf Hnull Hcomma.
  assert (Htry : tryParse (JSON.stringify v) = v).
  { unfold tryParse.
    rewrite (proj2 (stripTrailingCommas_fixed _) Hcomma).
    now rewrite (parse_stringify v Hwf). }
  unfold parseJsonResponse. rewrite (stringify_trimmed v Hwf).
  assert (Hstruct : structuralParse (JSON.stringify v) = v).
  { unfold structuralParse. rewrite Htry.
    destruct (toBoolean v) eqn:Htruthy;
      [cbn [negb]; rewrite Htruthy; reflexivity|].
    destruct v as [|[|]|[neg ds e|neg]|[|c s]|items|props]; try discriminate;
      try congruence; try reflexivity.
    destruct ds as [|d ds]; [|discriminate].
    destruct Hwf as [[_ Hzero] _]. destruct (Hzero eq_refl) as [-> ->].
    reflexivity. }
  rewrite Hstruct. destruct v; try reflexivity. congruence.
Qed.

(* ------------------------------------------------------------------ *)
(** ** parseJsonResponse: parsing the serialization again *)
(* ------------------------------------------------------------------ *)

(** C5, as stated, fails: from a text whose string holds two commas in
    front of a bracket the parser recovers a string with one such comma;
    the serialization of that value is valid JSON, and parsing it again
    gives a string without the comma. *)
Lemma parseJsonResponse_not_idempotent :
  let input := jq "['x,,]']" in
  let recovered := JArray [JString (js "x,]")] in
  @parseJsonResponse exampleHost json input = ParseResult.Make recovered None None
  /\ JSON.stringify recovered = jq "['x,]']"
  /\ @parseJsonResponse exampleHost json (JSON.stringify recovered)
     = ParseResult.Make (JArray [JString (js "x]")]) None None
  /\ @parseJsonResponse exampleHost json (JSON.stringify recovered)
     <> ParseResult.Make recovered None None.
Proof. vm_compute. repeat split. discriminate. Qed.

(** Nor is a number beyond the range of a double read back: it is
    recovered as an infinity, which is serialized as [null]. *)
Example parseJsonResponse_infinity_not_restored :
  let recovered := JArray [JNumber (Infinity false)] in
  @parseJsonResponse exampleHost json (js "[1e400]")
  = ParseResult.Make recovered None None
  /\ JSON.stringify recovered = js "[null]"
  /\ @parseJsonResponse exampleHost json (JSON.stringify recovered)
     = ParseResult.Make (JArray [JNull]) None None.
Proof. vm_compute. repeat split. Qed.

(** A number is recovered as the double next to its literal, and is
    serialized with the fewest digits that denote that double. *)
Example parseJsonResponse_numbers_are_doubles :
  JSON.stringify
    (ParseResult.data
       (@parseJsonResponse exampleHost json
          (js "[9007199254740993,0.1000000000000000055,0.30000000000000004,1e21,123456789012345680000,5e-324,2e-324,-1e400]")))
  = js "[9007199254740992,0.1,0.30000000000000004,1e+21,123456789012345680000,5e-324,0,null]".
Proof. vm_compute. reflexivity. Qed.

(** C5, amended. For every value that [parseJsonResponse] recovers without
    an error from some input: if it holds no infinity, and in its
    serialization no comma is followed by white space and a closing brace
    or bracket (which can only happen inside a string), then parsing the
    serialization again succeeds and returns the same value. *)
Theorem parseJsonResponse_roundtrip `{Host} (T : Type) (responseText : jsstring)
    (v : json) :
  parseJsonResponse T responseText = ParseResult.Make v None None ->
  finiteJson v = true ->
  hasTrailingComma (JSON.stringify v) = false ->
  parseJsonResponse T (JSON.stringify v) = ParseResult.Make v None None.
Proof.
  intros Hrecovered Hfinite Hcomma.
  destruct (parseJsonResponse_recovered T responseText v Hrecovered) as [Hwf Hnull].
  apply parseJsonResponse_stringify; [exact (Hwf Hfinite)|exact Hnull|exact Hcomma].
Qed.

(** An object recovered from a fenced block with trailing commas and a
    number with a fraction: its serialization is parsed back to it. *)
Lemma parseJsonResponse_roundtrip_witness :
  let input := jq "Sure, here:
```json
{'b': [1, 2.50, -3e2,], '10': 'x, y', '9': null, }
```" in
  let recovered :=
    JObject [(js "9", JNull);
             (js "10", JString (js "x, y"));
             (js "b", JArray [JNumber (Number false [1%N] 0);
                              JNumber (Number false [2%N; 5%N] (-1));
                              JNumber (Number true [3%N] 2)])] in
  JSON.stringify recovered = jq "{'9':null,'10':'x, y','b':[1,2.5,-300]}"
  /\ @parseJsonResponse exampleHost json (JSON.stringify recovered)
     = ParseResult.Make recovered None None.
Proof.
  intros input recovered. split; [vm_compute; reflexivity|].
  apply (@parseJsonResponse_roundtrip exampleHost json input recovered).
  - vm_compute. reflexivity.
  - reflexivity.
  - vm_compute. reflexivity.
Defined.

(* ------------------------------------------------------------------ *)
(** ** Valid texts that denote a falsy value *)
(* ------------------------------------------------------------------ *)

Lemma dropWhile_split (p : N -> bool) s :
  exists t, s = t ++ Str.dropWhile p s /\ Forall (fun c => p c = true) t.
Proof.
  induction s as [|x s (t & Ht & Hall)]; simpl.
  - exists []. split; [reflexivity|constructor].
  - destruct (p x) eqn:Hx.
    + exists (x :: t). split; [simpl; now f_equal|now constructor].
    + exists []. split; [reflexivity|constructor].
Qed.

Lemma dropWhile_nil_all (p : N -> bool) s :
  Str.dropWhile p s = [] -> Forall (fun c => p c = true) s.
Proof.
  intros H. destruct (dropWhile_split p s) as (t & Ht & Hall).
  rewrite H, app_nil_r in Ht. now subst t.
Qed.

Lemma spanDigits_split s ds r :
  JSON.spanDigits s = (ds, r) ->
  exists tok, s = tok ++ r /\ Forall (fun c => isNumberChar c = true) tok.
Proof.
  revert ds r. induction s as [|c s IH]; intros ds r; simpl.
  - intros [= <- <-]. exists []. split; [reflexivity|constructor].
  - destruct (JSON.isDigit c) eqn:Hc.
    + destruct (JSON.spanDigits s) as [ds' r'] eqn:E. intros [= <- <-].
      destruct (IH ds' r' eq_refl) as (tok & -> & Htok).
      exists (c :: tok). split; [reflexivity|].
      constructor; [|exact Htok]. unfold isNumberChar. now rewrite Hc.
    + intros [= <- <-]. exists []. split; [reflexivity|constructor].
Qed.

Lemma isNumberChar_eq c k :
  (c =? k)%N = true -> isNumberChar k = true -> isNumberChar c = true.
Proof. intros ->%N.eqb_eq. trivial. Qed.

(** What [lexNumber] consumes is made of number characters. *)
Lemma lexNumber_split s x rest :
  JSON.lexNumber s = Some (x, rest) ->
  exists tok, s = tok ++ rest /\ Forall (fun c => isNumberChar c = true) tok.
Proof.
  unfold JSON.lexNumber.
  assert (Hsign : exists t0, s = t0 ++ (JSON.lexSign s).2
                             /\ Forall (fun c => isNumberChar c = true) t0).
  { destruct s as [|c s]; [exists []; split; [reflexivity|constructor]|].
    unfold JSON.lexSign. destruct (c =? 45)%N eqn:Hc.
    - exists [c]. split; [reflexivity|].
      constructor; [now apply (isNumberChar_eq c 45)|constructor].
    - exists []. split; [reflexivity|constructor]. }
  destruct Hsign as (t0 & Hs & H0).
  destruct (JSON.lexSign s) as [neg s1]. cbn [snd] in Hs.
  destruct (JSON.lexInt s1) as [[intDigits s2]|] eqn:Hint; [|discriminate].
  cbn [mbind option_bind].
  assert (H1 : exists t1, s1 = t1 ++ s2 /\ Forall (fun c => isNumberChar c = true) t1).
  { destruct s1 as [|c s1']; [discriminate|]. unfold JSON.lexInt in Hint.
    destruct (JSON.spanDigits (c :: s1')) as [ds' r'] eqn:Hspan.
    destruct (c =? 48)%N eqn:Hc.
    - injection Hint as <- <-. exists [c]. split; [reflexivity|].
      constructor; [now apply (isNumberChar_eq c 48)|constructor].
    - destruct (JSON.isDigit c); [|discriminate].
      injection Hint as <- <-. exact (spanDigits_split _ _ _ Hspan). }
  destruct H1 as (t1 & -> & H1).
  destruct (JSON.lexFrac s2) as [[fracDigits s3]|] eqn:Hfrac; [|discriminate].
  cbn [mbind option_bind].
  assert (H2 : exists t2, s2 = t2 ++ s3 /\ Forall (fun c => isNumberChar c = true) t2).
  { destruct s2 as [|c s2'].
    { injection Hfrac as <- <-. exists []. split; [reflexivity|constructor]. }
    unfold JSON.lexFrac in Hfrac. destruct (c =? 46)%N eqn:Hc.
    - destruct (JSON.spanDigits s2') as [[|d fd] r'] eqn:E; [discriminate|].
      injection Hfrac as <- <-.
      destruct (spanDigits_split _ _ _ E) as (tok & -> & Htok).
      exists (c :: tok). split; [reflexivity|].
      constructor; [now apply (isNumberChar_eq c 46)|exact Htok].
    - injection Hfrac as <- <-. exists []. split; [reflexivity|constructor]. }
  destruct H2 as (t2 & -> & H2).
  destruct (JSON.lexExp s3) as [[e s4]|] eqn:Hexp; [|discriminate].
  cbn [mbind option_bind]. intros [= <- <-].
  assert (H3 : exists t3, s3 = t3 ++ s4 /\ Forall (fun c => isNumberChar c = true) t3).
  { destruct s3 as [|c s3'].
    { injection Hexp as <- <-. exists []. split; [reflexivity|constructor]. }
    unfold JSON.lexExp in Hexp.
    destruct ((c =? 101)%N || (c =? 69)%N) eqn:Hc.
    2:{ injection Hexp as <- <-. exists []. split; [reflexivity|constructor]. }
    assert (Hcn : isNumberChar c = true).
    { apply orb_true_iff in Hc as [Hc|Hc];
        [now apply (isNumberChar_eq c 101)|now apply (isNumberChar_eq c 69)]. }
    assert (Hsg : exists sg r1, s3' = sg ++ r1
                   /\ Forall (fun c => isNumberChar c = true) sg
                   /\ exists eneg,
                        match s3' with
                        | sg0 :: r' =>
                            if (sg0 =? 45)%N then (true, r')
                            else if (sg0 =? 43)%N then (false, r')
                            else (false, s3')
                        | [] => (false, s3')
                        end = (eneg, r1)).
    { destruct s3' as [|sg0 r']; [exists [], []; repeat split; eauto|].
      destruct (sg0 =? 45)%N eqn:H45.
      { exists [sg0], r'. repeat split; eauto.
        constructor; [now apply (isNumberChar_eq sg0 45)|constructor]. }
      destruct (sg0 =? 43)%N eqn:H43.
      { exists [sg0], r'. repeat split; eauto.
        constructor; [now apply (isNumberChar_eq sg0 43)|constructor]. }
      exists [], (sg0 :: r'). repeat split; eauto. }
    destruct Hsg as (sg & r1 & -> & Hsgc & eneg & Heq).
    rewrite Heq in Hexp.
    destruct (JSON.spanDigits r1) as [[|d ed] r2] eqn:E; [discriminate|].
    injection Hexp as _ <-.
    destruct (spanDigits_split _ _ _ E) as (tok & -> & Htok).
    exists (c :: sg ++ tok). split; [cbn [app]; now rewrite <- app_assoc|].
    constructor; [exact Hcn|]. apply Forall_app. now split. }
  destruct H3 as (t3 & -> & H3).
  exists (t0 ++ t1 ++ t2 ++ t3). split.
  - rewrite Hs. now rewrite <- !app_assoc.
  - repeat (apply Forall_app; split); assumption.
Qed.

Lemma lexString_nil r rest : JSON.lexString r = Some ([], rest) -> r = 34%N :: rest.
Proof.
  destruct r as [|c r]; [discriminate|]. cbn [JSON.lexString].
  destruct (N.eqb_spec c 34) as [->|_]; [now intros [= <-]|].
  destruct (c =? 92)%N.
  - destruct r as [|e r1]; [discriminate|].
    destruct (e =? 117)%N.
    + destruct r1 as [|h1 [|h2 [|h3 [|h4 r2]]]]; try discriminate.
      destruct (JSON.hexValue h1); [|discriminate].
      destruct (JSON.hexValue h2); [|discriminate].
      destruct (JSON.hexValue h3); [|discriminate].
      destruct (JSON.hexValue h4); [|discriminate].
      cbn [mbind option_bind].
      destruct (JSON.lexString r2) as [[str rest']|]; discriminate.
    + destruct (JSON.unescape e); [|discriminate]. cbn [mbind option_bind].
      destruct (JSON.lexString r1) as [[str rest']|]; discriminate.
  - destruct (c <? 32)%N; [discriminate|].
    destruct (JSON.lexString r) as [[str rest']|]; discriminate.
Qed.

Lemma startsWith_split s p : Str.startsWith s p = true -> s = p ++ drop (length p) s.
Proof.
  revert s. induction p as [|x p IH]; intros s; [reflexivity|].
  destruct s as [|c s]; [discriminate|]. simpl.
  intros [Hc Hs]%andb_true_iff. apply N.eqb_eq in Hc. subst c.
  f_equal. now apply IH.
Qed.

Lemma isNumberChar_plain c : isNumberChar c = true -> isStructural c = false.
Proof.
  unfold isNumberChar, isStructural, JSON.isDigit, TextDecoder.between.
  intros H. repeat (apply orb_true_iff in H as [H|H]).
  - apply andb_true_iff in H as [H1 H2]. apply N.leb_le in H1, H2.
    rewrite !(proj2 (N.eqb_neq c _)) by lia. reflexivity.
  - apply N.eqb_eq in H. now subst c.
  - apply N.eqb_eq in H. now subst c.
  - apply N.eqb_eq in H. now subst c.
  - apply N.eqb_eq in H. now subst c.
  - apply N.eqb_eq in H. now subst c.
Qed.

Lemma isJsonWhiteSpace_plain c : JSON.isJsonWhiteSpace c = true -> isStructural c = false.
Proof.
  unfold JSON.isJsonWhiteSpace. intros H.
  repeat (apply orb_true_iff in H as [H|H]); apply N.eqb_eq in H; now subst c.
Qed.

(** A text that parses to [false], to zero or to the empty string holds
    no bracket, brace or backtick. *)
Lemma parse_falsy_plain s v :
  JSON.parse s = Some v -> toBoolean v = false -> v <> JNull ->
  Forall (fun c => isStructural c = false) s.
Proof.
  unfold JSON.parse. intros Hparse Hfalsy Hnull.
  destruct (JSON.parseValue (S (length s)) s) as [[v' rest]|] eqn:Hv;
    [|discriminate].
  cbn [mbind option_bind] in Hparse.
  destruct (JSON.skipWs rest) eqn:Hrest; [|discriminate].
  injection Hparse as ->.
  assert (Hrest' : Forall (fun c => isStructural c = false) rest).
  { eapply Forall_impl; [exact (dropWhile_nil_all _ _ Hrest)|].
    exact isJsonWhiteSpace_plain. }
  destruct (dropWhile_split JSON.isJsonWhiteSpace s) as (t & Hs & Ht).
  fold (JSON.skipWs s) in Hs.
  assert (Ht' : Forall (fun c => isStructural c = false) t).
  { eapply Forall_impl; [exact Ht|]. exact isJsonWhiteSpace_plain. }
  rewrite parseValue_S in Hv. cbv zeta in Hv.
  rewrite Hs. apply Forall_app. split; [exact Ht'|].
  destruct (JSON.skipWs s) as [|c r]; [discriminate|].
  destruct (c =? 34)%N eqn:H34.
  { destruct (JSON.lexString r) as [[str rest']|] eqn:Hstr; [|discriminate].
    injection Hv as <- <-. destruct str; [|discriminate].
    apply lexString_nil in Hstr. subst r. apply N.eqb_eq in H34. subst c.
    now repeat constructor. }
  destruct (c =? 91)%N.
  { destruct (JSON.expect 93 (JSON.skipWs r)); [injection Hv as <- _; discriminate|].
    destruct (JSON.parseElements (length s) r) as [[items rest']|]; [|discriminate].
    injection Hv as <- _. discriminate. }
  destruct (c =? 123)%N.
  { destruct (JSON.expect 125 (JSON.skipWs r)); [injection Hv as <- _; discriminate|].
    destruct (JSON.parseMembers (length s) [] r) as [[props rest']|]; [|discriminate].
    injection Hv as <- _. discriminate. }
  destruct (Str.startsWith (c :: r) (js "null")); [injection Hv as <- _; congruence|].
  destruct (Str.startsWith (c :: r) (js "true")); [injection Hv as <- _; discriminate|].
  destruct (Str.startsWith (c :: r) (js "false")) eqn:Hf.
  { injection Hv as _ Hr. apply startsWith_split in Hf.
    change (drop (length (js "false")) (c :: r)) with (drop 4 r) in Hf.
    rewrite Hr in Hf. rewrite Hf.
    apply Forall_app. split; [now repeat constructor|exact Hrest']. }
  destruct (JSON.lexNumber (c :: r)) as [[n rest']|] eqn:Hn; [|discriminate].
  injection Hv as _ <-.
  destruct (lexNumber_split _ _ _ Hn) as (tok & -> & Htok).
  apply Forall_app. split; [|exact Hrest'].
  eapply Forall_impl; [exact Htok|]. exact isNumberChar_plain.
Qed.

Lemma indexOfChar_absent s k :
  Forall (fun c => c <> k) s -> Str.indexOfChar s k = None.
Proof.
  induction 1 as [|c s Hc _ IH]; [reflexivity|]. simpl.
  rewrite (proj2 (N.eqb_neq c k) Hc). now rewrite IH.
Qed.

Lemma indexOf_absent s k pat :
  Forall (fun c => c <> k) s -> Str.indexOf s (k :: pat) = None.
Proof.
  induction 1 as [|c s Hc _ IH]; [reflexivity|].
  cbn [Str.indexOf Str.startsWith].
  rewrite (proj2 (N.eqb_neq c k) Hc). cbn [andb]. now rewrite IH.
Qed.

Lemma isStructural_ne c k :
  isStructural k = true -> isStructural c = false -> c <> k.
Proof. intros Hk Hc ->. congruence. Qed.

(** In a text without brackets, braces and backticks the later stages
    find nothing. *)
Lemma plain_no_stage s :
  Forall (fun c => isStructural c = false) s ->
  markdownMatch s = None /\ bracketSpan s = None.
Proof.
  intros Hs.
  assert (Hne : forall k, isStructural k = true -> Forall (fun c => c <> k) s).
  { intros k Hk. eapply Forall_impl; [exact Hs|].
    intros c Hc. now apply (isStructural_ne c k). }
  split.
  - unfold markdownMatch.
    change fence with (96%N :: [96%N; 96%N]).
    now rewrite (indexOf_absent s 96 _ (Hne 96%N eq_refl)).
  - unfold bracketSpan.
    rewrite (indexOfChar_absent s 91 (Hne 91%N eq_refl)).
    now rewrite (indexOfChar_absent s 123 (Hne 123%N eq_refl)).
Qed.

(** Stage 1 on a valid text without trailing-comma matches decides the
    result of the whole parser, null apart. *)
Lemma parseJsonResponse_valid `{Host} (T : Type) responseText v :
  hasTrailingComma (Str.trim responseText) = false ->
  JSON.parse (Str.trim responseText) = Some v ->
  v <> JNull ->
  parseJsonResponse T responseText = ParseResult.Make v None None.
Proof.
  intros Hcomma Hparse Hnull.
  assert (Htry : tryParse (Str.trim responseText) = v).
  { unfold tryParse. rewrite (proj2 (stripTrailingCommas_fixed _) Hcomma).
    now rewrite Hparse. }
  assert (Hstruct : structuralParse (Str.trim responseText) = v).
  { unfold structuralParse. rewrite Htry.
    destruct (toBoolean v) eqn:Htruthy;
      [cbn [negb]; rewrite Htruthy; reflexivity|].
    destruct (plain_no_stage _ (parse_falsy_plain _ _ Hparse Htruthy Hnull))
      as [-> ->].
    cbn [negb]. now rewrite Htruthy. }
  unfold parseJsonResponse. rewrite Hstruct.
  destruct v; try reflexivity. congruence.
Qed.

(* ------------------------------------------------------------------ *)
(** ** tryParse: which attempt decides *)
(* ------------------------------------------------------------------ *)

(** C4, as stated, fails: on a valid JSON text with a comma before a
    bracket inside a string, the stripped variant is tried first and
    wins, so the value returned is not the value of the direct parse. *)
Lemma tryParse_stripped_variant_first :
  let input := js "[" ++ QUOTE ++ js "a,]" ++ QUOTE ++ js "]" in
  JSON.parse input = Some (JArray [JString (js "a,]")])
  /\ tryParse input = JArray [JString (js "a]")]
  /\ ParseResult.data (@parseJsonResponse exampleHost json input)
     = JArray [JString (js "a]")]
  /\ Some (ParseResult.data (@parseJsonResponse exampleHost json input))
     <> JSON.parse input.
Proof. vm_compute. repeat split. discriminate. Qed.

(** C4, amended. In stage 1 the variant with the trailing commas stripped
    is attempted first, and the direct parse of the text only if that
    variant does not parse. Hence for an input that is valid JSON and in
    which no comma is followed by white space and a closing brace or
    bracket, stage 1 returns exactly the value of the direct parse, and
    the parser returns that value, unless it is null, without an error. *)
Theorem tryParse_order `{Host} :
  (forall str v, JSON.parse (stripTrailingCommas str) = Some v -> tryParse str = v)
  /\ (forall str,
        JSON.parse (stripTrailingCommas str) = None ->
        tryParse str = default JNull (JSON.parse str))
  /\ (forall str v,
        hasTrailingComma str = false -> JSON.parse str = Some v ->
        tryParse str = v)
  /\ (forall (T : Type) responseText v,
        hasTrailingComma (Str.trim responseText) = false ->
        JSON.parse (Str.trim responseText) = Some v ->
        v <> JNull ->
        parseJsonResponse T responseText = ParseResult.Make v None None).
Proof.
  assert (Hdirect : forall str v,
            hasTrailingComma str = false -> JSON.parse str = Some v ->
            tryParse str = v).
  { intros str v Hno Hv. unfold tryParse.
    rewrite (proj2 (stripTrailingCommas_fixed str) Hno). now rewrite Hv. }
  split; [|split; [|split]].
  - intros str v Hv. unfold tryParse. now rewrite Hv.
  - intros str Hnone. unfold tryParse. rewrite Hnone.
    now destruct (JSON.parse str).
  - exact Hdirect.
  - intros T responseText v Hno Hv Hnull.
    now apply parseJsonResponse_valid.
Qed.

(** A text without trailing commas is parsed as it is. *)
Lemma tryParse_order_witness :
  let input := js " {" ++ QUOTE ++ js "conclusion" ++ QUOTE ++ js ": [1, 2]} " in
  @parseJsonResponse exampleHost json input
  = ParseResult.Make
      (JObject [(js "conclusion",
                 JArray [JNumber (Number false [1%N] 0);
                         JNumber (Number false [2%N] 0)])])
      None None.
Proof.
  intros input.
  apply (proj2 (proj2 (proj2 (@tryParse_order exampleHost)))).
  - vm_compute. reflexivity.
  - vm_compute. reflexivity.
  - discriminate.
Defined.

(* ------------------------------------------------------------------ *)
(** ** cleanEnv: what is left of a value *)
(* ------------------------------------------------------------------ *)

Lemma dropWhile_skip (p : N -> bool) (a : jsstring) c r :
  Forall (fun x => p x = true) a -> p c = false ->
  Str.dropWhile p (a ++ c :: r) = c :: r.
Proof.
  intros Ha Hc. induction Ha as [|x a Hx _ IH]; simpl.
  - now rewrite Hc.
  - now rewrite Hx.
Qed.

Lemma dropWhileEnd_skip (p : N -> bool) (a : jsstring) c r :
  Forall (fun x => p x = true) a -> p c = false ->
  Str.dropWhileEnd p (r ++ c :: a) = r ++ [c].
Proof.
  intros Ha Hc. unfold Str.dropWhileEnd.
  rewrite rev_app_distr. cbn [rev]. rewrite <- app_assoc. cbn [app].
  rewrite dropWhile_skip; [|now apply Forall_rev|exact Hc].
  cbn [rev]. now rewrite rev_involutive.
Qed.

Lemma dropWhileEnd_last (p : N -> bool) (s r : jsstring) c :
  Str.dropWhileEnd p s = r ++ [c] -> p c = false.
Proof.
  unfold Str.dropWhileEnd. intros Heq.
  apply (f_equal (@rev N)) in Heq. rewrite rev_involutive, rev_app_distr in Heq.
  cbn in Heq. eapply dropWhile_head, Heq.
Qed.

(** X1. Whatever the environment holds, what [cleanEnv] returns
    neither starts with a straight or left smart quote nor ends with a
    straight or right smart quote. *)
Theorem cleanEnv_no_outer_quotes (value : option jsstring) (s : jsstring) :
  cleanEnv value = Some s ->
  (forall c r, s = c :: r -> isLeadingQuote c = false)
  /\ (forall r c, s = r ++ [c] -> isTrailingQuote c = false).
Proof.
  destruct value as [[|x v]|]; try discriminate. cbn [cleanEnv].
  intros [= <-]. unfold stripQuotes.
  set (t := Str.trim (x :: v)). split.
  - intros c r Hs.
    destruct (dropWhileEnd_prefix isTrailingQuote (Str.dropWhile isLeadingQuote t))
      as [u Hu].
    rewrite Hs in Hu. cbn [app] in Hu. eapply dropWhile_head, Hu.
  - intros r c Hs. eapply dropWhileEnd_last, Hs.
Qed.

Lemma cleanEnv_no_outer_quotes_witness :
  cleanEnv (Some (js " 'sk-123' ")) = Some (js "sk-123")
  /\ (forall c r, js "sk-123" = c :: r -> isLeadingQuote c = false)
  /\ (forall r c, js "sk-123" = r ++ [c] -> isTrailingQuote c = false).
Proof.
  split; [vm_compute; reflexivity|].
  apply (cleanEnv_no_outer_quotes (Some (js " 'sk-123' "))).
  vm_compute. reflexivity.
Defined.

Lemma last_snoc_inv (s : jsstring) l :
  last s = Some l -> exists r, s = r ++ [l].
Proof.
  intros Hl. destruct (exists_last (l := s)) as (r & l' & ->).
  - intros ->. discriminate.
  - exists r. rewrite last_snoc in Hl. now injection Hl as ->.
Qed.

(** X2. A value wrapped in white space and, inside of that, in
    quotes is cleaned to the value itself, provided the value neither
    starts nor ends with white space or with a quote of the kind removed
    at that end. *)
Theorem cleanEnv_unwraps (pad1 q1 core q2 pad2 : jsstring) (c l : N) :
  Forall (fun x => Str.isWhiteSpace x = true) pad1 ->
  Forall (fun x => isLeadingQuote x = true) q1 ->
  Forall (fun x => isTrailingQuote x = true) q2 ->
  Forall (fun x => Str.isWhiteSpace x = true) pad2 ->
  head core = Some c -> last core = Some l ->
  Str.isWhiteSpace c = false -> isLeadingQuote c = false ->
  Str.isWhiteSpace l = false -> isTrailingQuote l = false ->
  cleanEnv (Some (pad1 ++ q1 ++ core ++ q2 ++ pad2)) = Some core.
Proof.
  intros Hp1 Hq1 Hq2 Hp2 Hc Hl Hcw Hcq Hlw Hlq.
  destruct core as [|c' core']; [discriminate|]. injection Hc as ->.
  destruct (last_snoc_inv _ _ Hl) as [r Hr].
  assert (Hws_lead : forall x, isLeadingQuote x = true -> Str.isWhiteSpace x = false).
  { intros x Hx. unfold isLeadingQuote in Hx.
    repeat (apply orb_true_iff in Hx as [Hx|Hx]); apply N.eqb_eq in Hx; now subst x. }
  assert (Hws_trail : forall x, isTrailingQuote x = true -> Str.isWhiteSpace x = false).
  { intros x Hx. unfold isTrailingQuote in Hx.
    repeat (apply orb_true_iff in Hx as [Hx|Hx]); apply N.eqb_eq in Hx; now subst x. }
  (* the trimmed value *)
  assert (Htrim : Str.trim (pad1 ++ q1 ++ (c :: core') ++ q2 ++ pad2)
                  = q1 ++ (c :: core') ++ q2).
  { unfold Str.trim, Str.trimStart, Str.trimEnd.
    assert (Hstart : Str.dropWhile Str.isWhiteSpace
                       (pad1 ++ q1 ++ (c :: core') ++ q2 ++ pad2)
                     = q1 ++ (c :: core') ++ q2 ++ pad2).
    { destruct q1 as [|x q1'].
      - cbn [app]. now apply dropWhile_skip.
      - cbn [app]. apply dropWhile_skip; [exact Hp1|].
        apply Hws_lead. now inversion Hq1. }
    rewrite Hstart.
    rewrite Hr.
    destruct q2 as [|y q2' _] using rev_ind.
    - replace (q1 ++ (r ++ [l]) ++ [] ++ pad2) with ((q1 ++ r) ++ l :: pad2)
        by (now rewrite <- !app_assoc).
      rewrite dropWhileEnd_skip by assumption.
      now rewrite app_nil_r, app_assoc.
    - apply Forall_app in Hq2 as [_ Hy]. inversion_clear Hy as [|? ? Hy' _].
      replace (q1 ++ (r ++ [l]) ++ (q2' ++ [y]) ++ pad2)
        with ((q1 ++ (r ++ [l]) ++ q2') ++ y :: pad2)
        by (now rewrite <- !app_assoc).
      rewrite dropWhileEnd_skip; [|exact Hp2|now apply Hws_trail].
      now rewrite <- !app_assoc. }
  destruct (pad1 ++ q1 ++ (c :: core') ++ q2 ++ pad2) as [|z zs] eqn:Hz.
  { destruct pad1; [destruct q1|]; discriminate Hz. }
  cbn [cleanEnv]. rewrite Htrim. f_equal. unfold stripQuotes.
  cbn [app]. rewrite dropWhile_skip by assumption.
  change (c :: core' ++ q2) with ((c :: core') ++ q2).
  rewrite Hr. destruct q2 as [|y q2' _] using rev_ind.
  - rewrite app_nil_r. unfold Str.dropWhileEnd. rewrite rev_app_distr. cbn [rev app].
    rewrite dropWhile_fixed by assumption. cbn [rev]. now rewrite rev_involutive.
  - replace ((r ++ [l]) ++ q2' ++ [y]) with (r ++ l :: (q2' ++ [y]))
      by (now rewrite <- !app_assoc).
    now rewrite dropWhileEnd_skip.
Qed.

Lemma cleanEnv_unwraps_witness :
  cleanEnv (Some (js "  “https://notes.example”" ++ QUOTE ++ js " "))
  = Some (js "https://notes.example").
Proof.
  apply (cleanEnv_unwraps (js "  ") (js "“") (js "https://notes.example")
           (js "”" ++ QUOTE) (js " ") 104 101);
    try (repeat constructor); reflexivity.
Defined.

(* ------------------------------------------------------------------ *)
(** ** getBackendErrorMessage *)
(* ------------------------------------------------------------------ *)

(** X3. The message for the user is never the empty string,
    whatever the error and the address are. *)
Theorem getBackendErrorMessage_nonempty `{Host} (error : JsError) (url : jsstring) :
  exists c rest, getBackendErrorMessage error url = c :: rest.
Proof.
  destruct (getBackendErrorMessage error url) as [|c rest] eqn:E; [|now eexists _, _].
  exfalso. revert E. unfold getBackendErrorMessage.
  destruct (isHttpsPage && Str.startsWith url (js "http:")); [discriminate|].
  destruct (isTypeError error && _); [discriminate|].
  destruct (message error); discriminate.
Qed.

(* ------------------------------------------------------------------ *)
(** ** The frontend mode of callGenerativeAi *)
(* ------------------------------------------------------------------ *)

Lemma frontendApiConfig_key (env : jsstring -> option jsstring) (provider : ModelProvider) :
  ProviderConfig.apiKey (frontendApiConfig env provider)
  = cleanEnv (env (keyVariable provider)).
Proof. destruct provider; reflexivity. Qed.

(** X4. For every provider, the variable that the error
    for a missing key asks the user to set is the one from which the
    configuration reads the key: if that variable is unset or cleans to
    the empty string while a model is configured, the call is rejected
    with that error and the provider is not reached. *)
Theorem callGenerativeAi_frontend_names_key (env : jsstring -> option jsstring)
    (provider : ModelProvider) (sdk api : Settled) :
  truthyString (ProviderConfig.model (frontendApiConfig env provider)) = true ->
  truthyString (cleanEnv (env (keyVariable provider))) = false ->
  callGenerativeAi_frontend env provider sdk api
  = Rejected (Error (js "Frontend Direct mode for " ++ providerName provider
                     ++ js " is not configured. Please set " ++ keyVariable provider
                     ++ js " in your environment.")).
Proof.
  intros Hmodel Hkey. unfold callGenerativeAi_frontend.
  rewrite Hmodel, frontendApiConfig_key, Hkey. cbn [negb].
  destruct provider; vm_compute; reflexivity.
Qed.

(** A key that consists of two quotes. *)
Lemma callGenerativeAi_frontend_names_key_witness :
  callGenerativeAi_frontend
    (fun name => if Str.eqb name (js "VITE_DEPOCR_MODEL") then Some (js "ocr-1")
                 else if Str.eqb name (js "VITE_DEPOCR_API_KEY") then Some (js "''")
                 else None)
    depOCR (Fulfilled (Some (JString []))) (Fulfilled (Some (JString [])))
  = Rejected (Error (js "Frontend Direct mode for depOCR is not configured. Please set VITE_DEPOCR_API_KEY in your environment.")).
Proof.
  apply (callGenerativeAi_frontend_names_key
           (fun name => if Str.eqb name (js "VITE_DEPOCR_MODEL") then Some (js "ocr-1")
                        else if Str.eqb name (js "VITE_DEPOCR_API_KEY") then Some (js "''")
                        else None)
           depOCR (Fulfilled (Some (JString []))) (Fulfilled (Some (JString [])))); reflexivity.
Defined.

(* ------------------------------------------------------------------ *)
(** ** Streaming: how a stream of callbacks ends *)
(* ------------------------------------------------------------------ *)

Lemma processLines_chunks (lines : list jsstring) :
  exists chunks,
    Forall (fun c => toBoolean c = true) chunks
    /\ processLines lines
       = (map OnChunk chunks ++ (if (processLines lines).2 then [OnComplete] else []),
          (processLines lines).2).
Proof.
  induction lines as [|line rest (chunks & Htruthy & IH)]; simpl.
  - exists []. split; [constructor|reflexivity].
  - unfold processLine.
    destruct (Str.startsWith (Str.trim line) (js "data: ")); [|exists chunks; now split].
    destruct (Str.eqb _ _); [exists []; split; [constructor|reflexivity]|].
    destruct (JSON.parse _) as [data|]; [|exists chunks; now split].
    destruct (deltaContent data) as [[content|]|]; try (exists chunks; now split).
    destruct (toBoolean content) eqn:Hc; [|exists chunks; now split].
    exists (content :: chunks). split; [now constructor|].
    rewrite IH at 1. destruct (processLines rest) as [cbs fin]. reflexivity.
Qed.

Lemma consumeReads_chunks (rs : list (list byte)) :
  forall decoder buffer failed,
  exists chunks last,
    consumeReads decoder buffer rs failed = map OnChunk chunks ++ [last]
    /\ isTerminal last = true
    /\ Forall (fun c => toBoolean c = true) chunks.
Proof.
  induction rs as [|value rest IH]; intros decoder buffer failed; cbn [consumeReads].
  - exists []. destruct failed as [e|]; eexists; repeat split; constructor.
  - destruct (TextDecoder.decode decoder value) as [decoder' text].
    destruct (popLast (Str.split_lf (buffer ++ text))) as [lines buffer'].
    destruct (processLines_chunks lines) as (chunks & Htruthy & Hlines).
    rewrite Hlines. destruct (processLines lines).2.
    + exists chunks, OnComplete. repeat split; assumption.
    + destruct (IH decoder' buffer' failed) as (chunks' & last & -> & Hlast & Htruthy').
      exists (chunks ++ chunks'), last.
      rewrite app_nil_r, map_app, <- app_assoc.
      repeat split; [assumption|]. now apply Forall_app.
Qed.

(** X5. Whatever the request meets, the consumer of
    the direct path calls [onChunk] with truthy values only and then makes
    exactly one call of [onComplete] or [onError], after which it calls
    nothing. *)
Theorem callOpenAiCompatibleApiStream_ends_once (o : StreamOutcome) :
  exists chunks last,
    callOpenAiCompatibleApiStream o = map OnChunk chunks ++ [last]
    /\ isTerminal last = true
    /\ Forall (fun c => toBoolean c = true) chunks.
Proof.
  destruct o as [e|status errorText body]; simpl.
  - exists [], (OnError e). repeat split. constructor.
  - destruct (if ok status then body else None) as [stream|].
    + apply consumeReads_chunks.
    + eexists [], _. repeat split. constructor.
Qed.

(** X6. Whatever the request meets, the backend
    path calls [onChunk] with strings only and then makes exactly one call
    of [onComplete] or [onError], after which it calls nothing. *)
Theorem callGenerativeAiStream_backend_ends_once `{Host} (o : StreamOutcome) :
  exists texts last,
    callGenerativeAiStream_backend o
    = map (fun text => OnChunk (JString text)) texts ++ [last]
    /\ isTerminal last = true.
Proof.
  destruct o as [e|status errorText body]; simpl.
  - exists [], (OnError (Error (getBackendErrorMessage e API_BASE_URL))). now split.
  - destruct (if ok status then body else None) as [stream|].
    + rewrite forwardReads_decodedReads.
      exists (decodedReads TextDecoder.new (reads stream)).
      destruct (failure stream) as [e|]; eexists; split; reflexivity.
    + eexists [], _. now split.
Qed.

(* ------------------------------------------------------------------ *)
(** ** debounce *)
(* ------------------------------------------------------------------ *)

Section Debounce.

Context {A : Type}.
Variable waitFor : N.

Lemma run_app (d : Debounced.t A) (e1 e2 : list (Debounced.Event A)) :
  Debounced.run waitFor d (e1 ++ e2)
  = let '(r1, d1) := Debounced.run waitFor d e1 in
    let '(r2, d2) := Debounced.run waitFor d1 e2 in
    (r1 ++ r2, d2).
Proof.
  revert d. induction e1 as [|e e1 IH]; intros d; cbn [app Debounced.run].
  - now destruct (Debounced.run waitFor d e2).
  - destruct (Debounced.step waitFor d e) as [ran d']. rewrite IH.
    destruct (Debounced.run waitFor d' e1) as [r1 d1].
    destruct (Debounced.run waitFor d1 e2) as [r2 d2].
    now rewrite app_assoc.
Qed.

Lemma step_single (d : Debounced.t A) (e : Debounced.Event A) :
  atMostOneTimer d -> atMostOneTimer (Debounced.step waitFor d e).2.
Proof.
  unfold atMostOneTimer. destruct d as [timeout [now nextId pending]].
  cbn [Debounced.timers Debounced.timeout Timers.pending].
  intros Hone. destruct e as [args| |ms]; cbn.
  - destruct timeout as [id|]; cbn.
    + destruct pending as [|[id' x] [|y rest]]; cbn; try reflexivity; [|destruct Hone].
      injection Hone as ->. now rewrite Pos.eqb_refl.
    + destruct pending as [|[id' x] [|y rest]]; cbn; try reflexivity;
        [discriminate Hone|destruct Hone].
  - destruct timeout as [id|]; cbn; [|exact Hone].
    destruct pending as [|[id' x] [|y rest]]; cbn; try exact I; [|destruct Hone].
    injection Hone as ->. now rewrite Pos.eqb_refl.
  - destruct pending as [|[id' x] [|y rest]]; cbn; try exact I; [|destruct Hone].
    destruct (_ <=? _)%N; cbn; [exact I|exact Hone].
Qed.

Lemma run_single (events : list (Debounced.Event A)) (d : Debounced.t A) :
  atMostOneTimer d -> atMostOneTimer (Debounced.run waitFor d events).2.
Proof.
  revert d. induction events as [|e events IH]; intros d Hone; [exact Hone|].
  cbn [Debounced.run].
  pose proof (step_single d e Hone) as Hstep.
  destruct (Debounced.step waitFor d e) as [ran d'].
  specialize (IH d' Hstep). now destruct (Debounced.run waitFor d' events).
Qed.

Lemma call_armed (d : Debounced.t A) (a : A) :
  atMostOneTimer d -> armed waitFor (Debounced.call waitFor a d) a.
Proof.
  unfold atMostOneTimer, armed. destruct d as [timeout [now nextId pending]].
  cbn [Debounced.timers Debounced.timeout Timers.pending].
  intros Hone. unfold Debounced.call. cbn.
  destruct timeout as [id|]; cbn.
  - destruct pending as [|[id' x] [|y rest]]; cbn; [| |destruct Hone].
    + now eexists.
    + injection Hone as ->. rewrite Pos.eqb_refl. cbn. now eexists.
  - destruct pending as [|[id' x] [|y rest]]; cbn;
      [now eexists|discriminate Hone|destruct Hone].
Qed.

Lemma elapse_early (d : Debounced.t A) (a : A) (ms : N) :
  armed waitFor d a -> (ms < waitFor)%N ->
  exists d', Debounced.step waitFor d (Debounced.Elapse ms) = ([], d')
             /\ atMostOneTimer d'.
Proof.
  intros (id & Hid & Hp) Hms. destruct d as [timeout [now nextId pending]].
  cbn [Debounced.timers Debounced.timeout Timers.pending Timers.now] in *.
  subst timeout pending. cbn.
  rewrite (proj2 (N.leb_gt (now + waitFor) (now + ms))) by lia. cbn.
  eexists. split; [reflexivity|]. reflexivity.
Qed.

Lemma elapse_due (d : Debounced.t A) (a : A) (ms : N) :
  armed waitFor d a -> (waitFor <= ms)%N ->
  exists d', Debounced.step waitFor d (Debounced.Elapse ms) = ([a], d')
             /\ Timers.pending (Debounced.timers d') = [].
Proof.
  intros (id & Hid & Hp) Hms. destruct d as [timeout [now nextId pending]].
  cbn [Debounced.timers Debounced.timeout Timers.pending Timers.now] in *.
  subst timeout pending. cbn.
  rewrite (proj2 (N.leb_le (now + waitFor) (now + ms))) by lia. cbn.
  eexists. split; reflexivity.
Qed.

Lemma last_cons_default (x d : A) (l : list A) :
  List.last (x :: l) d = List.last l x.
Proof.
  revert x d. induction l as [|y l IH]; intros x d; [reflexivity|].
  change (List.last (x :: y :: l) d) with (List.last (y :: l) d).
  now rewrite (IH y d), (IH y x).
Qed.

Lemma burst_more_armed (more : list (N * A)) (d : Debounced.t A) (a : A) :
  armed waitFor d a ->
  Forall (fun '(ms, _) => (ms < waitFor)%N) more ->
  exists d',
    Debounced.run waitFor d
      (flat_map (fun '(ms, args) => [Debounced.Elapse ms; Debounced.Call args]) more)
    = ([], d')
    /\ armed waitFor d' (List.last (map snd more) a).
Proof.
  revert d a. induction more as [|[ms a'] more IH]; intros d a Harmed Hmore.
  - exists d. now split.
  - apply Forall_cons in Hmore as [Hms Hmore].
    destruct (elapse_early d a ms Harmed Hms) as (d1 & Hstep & Hone).
    cbn [flat_map app]. cbn [Debounced.run]. rewrite Hstep.
    cbn [Debounced.step].
    destruct (IH (Debounced.call waitFor a' d1) a' (call_armed d1 a' Hone) Hmore)
      as (d' & Hrun & Harmed').
    rewrite Hrun. exists d'. split; [reflexivity|].
    cbn [map snd]. now rewrite last_cons_default.
Qed.

Lemma elapse_idle (waits : list N) (d : Debounced.t A) :
  Timers.pending (Debounced.timers d) = [] ->
  (Debounced.run waitFor d (map Debounced.Elapse waits)).1 = [].
Proof.
  revert d. induction waits as [|ms waits IH]; intros d Hidle; [reflexivity|].
  cbn [map Debounced.run Debounced.step]. unfold Timers.elapse. rewrite Hidle. cbn.
  specialize (IH (Debounced.Make (Debounced.timeout d)
                    (Timers.Make (Timers.now (Debounced.timers d) + ms)
                       (Timers.nextId (Debounced.timers d)) [])) eq_refl).
  destruct (Debounced.run waitFor _ (map Debounced.Elapse waits)) as [r d'].
  exact IH.
Qed.

Lemma create_single : atMostOneTimer (@Debounced.create A).
Proof. exact I. Qed.

End Debounce.

(** X7. Whatever happened to a debounced function before: of a
    burst of calls, each less than [waitFor] after the one before, none
    calls [func] by itself, and once [waitFor] has passed since the last
    of them [func] has been called once, with the arguments of the last
    call. *)
Theorem debounce_burst {A} (waitFor : N) (before : list (Debounced.Event A))
    (first : A) (more : list (N * A)) (ms : N) :
  Forall (fun '(gap, _) => (gap < waitFor)%N) more ->
  (waitFor <= ms)%N ->
  (Debounced.run waitFor Debounced.create (before ++ burst first more)).1
  = (Debounced.run waitFor Debounced.create before).1
  /\ (Debounced.run waitFor Debounced.create
        (before ++ burst first more ++ [Debounced.Elapse ms])).1
     = (Debounced.run waitFor Debounced.create before).1
       ++ [List.last (map snd more) first].
Proof.
  intros Hmore Hms.
  pose proof (run_single waitFor before Debounced.create create_single) as Hone.
  rewrite !run_app.
  destruct (Debounced.run waitFor Debounced.create before) as [r0 d0].
  cbn [snd fst] in Hone |- *.
  unfold burst. cbn [Debounced.run Debounced.step app].
  destruct (burst_more_armed waitFor more (Debounced.call waitFor first d0) first
              (call_armed waitFor d0 first Hone) Hmore) as (d1 & Hrun & Harmed).
  rewrite Hrun. cbn [app fst]. split; [now rewrite app_nil_r|].
  rewrite run_app. cbn [Debounced.run]. rewrite Hrun.
  destruct (elapse_due waitFor d1 _ ms Harmed Hms) as (d2 & Hstep & _).
  rewrite Hstep. cbn. reflexivity.
Qed.

Lemma debounce_burst_witness :
  (Debounced.run 300 Debounced.create
     (burst (js "a") [(100%N, js "ab"); (250%N, js "abc")] ++ [Debounced.Elapse 300])).1
  = [js "abc"].
Proof.
  apply (proj2 (debounce_burst 300 [] (js "a") [(100%N, js "ab"); (250%N, js "abc")] 300
                  ltac:(repeat constructor) ltac:(reflexivity))).
Defined.

(** X8. Whatever happened to a debounced function before: once
    its [clearTimeout] has been called, [func] is not called, however much
    time passes, until the function is called again. *)
Theorem debounce_cancel {A} (waitFor : N) (before : list (Debounced.Event A))
    (waits : list N) :
  (Debounced.run waitFor Debounced.create
     (before ++ Debounced.ClearTimeout :: map Debounced.Elapse waits)).1
  = (Debounced.run waitFor Debounced.create before).1.
Proof.
  pose proof (run_single waitFor before Debounced.create create_single) as Hone.
  rewrite run_app.
  destruct (Debounced.run waitFor Debounced.create before) as [r0 d0].
  cbn [snd fst] in Hone |- *. cbn [Debounced.run Debounced.step].
  assert (Hidle : Timers.pending (Debounced.timers (Debounced.clearTimeout d0)) = []).
  { unfold atMostOneTimer in Hone. destruct d0 as [timeout [now nextId pending]].
    cbn in Hone |- *. unfold Debounced.clearTimeout. cbn.
    destruct timeout as [id|]; cbn.
    - destruct pending as [|[id' x] [|y rest]]; cbn; [reflexivity| |destruct Hone].
      injection Hone as ->. now rewrite Pos.eqb_refl.
    - destruct pending as [|[id' x] [|y rest]]; cbn;
        [reflexivity|discriminate Hone|destruct Hone]. }
  pose proof (elapse_idle waitFor waits _ Hidle) as Hnone.
  destruct (Debounced.run waitFor (Debounced.clearTimeout d0) _) as [r d'].
  cbn [fst] in Hnone |- *. subst r. now rewrite app_nil_r.
Qed.

(** X9. At any time at most one timer of a debounced function
    is pending. *)
Theorem debounce_one_timer {A} (waitFor : N) (events : list (Debounced.Event A)) :
  (length (Timers.pending
             (Debounced.timers (Debounced.run waitFor Debounced.create events).2))
   <= 1)%nat.
Proof.
  pose proof (run_single waitFor events Debounced.create create_single) as Hone.
  unfold atMostOneTimer in Hone.
  destruct (Timers.pending _) as [|x [|y rest]]; cbn; try lia.
  now destruct x.
Qed.

(* ------------------------------------------------------------------ *)
(** ** The clipboard of the home view *)
(* ------------------------------------------------------------------ *)

(** X10. Coming back to the page twice with the same
    clipboard pastes it at most once; and a paste only adds to the text of
    the work area. *)
Theorem handleFocus_pastes_once (hasFocus : bool) (clipboard : option jsstring)
    (st : HomeInput.t) :
  handleFocus hasFocus clipboard (handleFocus hasFocus clipboard st)
  = handleFocus hasFocus clipboard st
  /\ exists added,
       HomeInput.inputText (handleFocus hasFocus clipboard st)
       = HomeInput.inputText st ++ added.
Proof.
  unfold handleFocus. destruct hasFocus; [|split; [reflexivity|exists []; now rewrite app_nil_r]].
  destruct clipboard as [text|]; [|split; [reflexivity|exists []; now rewrite app_nil_r]].
  destruct (match text with [] => false | _ => true end
            && negb (Str.eqb text (HomeInput.lastPastedText st))
            && negb (Str.eqb text (HomeInput.inputText st))) eqn:Hpaste.
  - cbn [HomeInput.lastPastedText HomeInput.inputText].
    rewrite Str_eqb_refl. cbn [negb andb]. rewrite andb_false_r. split; [reflexivity|].
    destruct (HomeInput.inputText st) as [|c prev].
    + now exists text.
    + now exists (LF ++ LF ++ text).
  - rewrite Hpaste. split; [reflexivity|exists []; now rewrite app_nil_r].
Qed.

(* ------------------------------------------------------------------ *)
(** ** handleSendChatMessage: the reply in the history *)
(* ------------------------------------------------------------------ *)

Lemma updateLast_snoc f (h : list NoteChatMessage.t) (m : NoteChatMessage.t) :
  updateLast f (h ++ [m]) = h ++ [f m].
Proof.
  unfold updateLast. rewrite length_app. cbn [length].
  replace (0 <? length h + 1)%nat with true by (symmetry; apply Nat.ltb_lt; lia).
  replace (length h + 1 - 1)%nat with (length h + 0)%nat by lia.
  rewrite alter_app_r. reflexivity.
Qed.

(** The chunks of a stream add up in the last message. *)
Lemma foldl_chatCallback_chunks (chunks : list json) h role text err input loading :
  foldl chatCallback
    (ChatState.Make (h ++ [NoteChatMessage.Make role text err]) input loading)
    (map OnChunk chunks)
  = ChatState.Make
      (h ++ [NoteChatMessage.Make role
               (text ++ concat (map toStringJs chunks)) err])
      input loading.
Proof.
  revert text. induction chunks as [|c chunks IH]; intros text.
  - cbn. now rewrite app_nil_r.
  - cbn [map foldl chatCallback ChatState.chatHistory ChatState.chatInput
           ChatState.isChatLoading].
    rewrite updateLast_snoc.
    cbn [NoteChatMessage.role NoteChatMessage.text NoteChatMessage.isError].
    rewrite IH. cbn [concat]. now rewrite app_assoc.
Qed.

Lemma handleSendChatMessage_sent `{Host} executionMode direct o st :
  Str.trim (ChatState.chatInput st) <> [] ->
  ChatState.isChatLoading st = false ->
  handleSendChatMessage true executionMode direct o st
  = foldl chatCallback
      (ChatState.Make
         ((ChatState.chatHistory st
           ++ [NoteChatMessage.Make Role.user (ChatState.chatInput st) false])
          ++ [NoteChatMessage.Make Role.model [] false]) [] true)
      (callGenerativeAiStream executionMode direct o).
Proof.
  intros Hinput Hloading. unfold handleSendChatMessage.
  rewrite Hloading. destruct (Str.trim (ChatState.chatInput st)); [congruence|].
  reflexivity.
Qed.

(** X11. A message sent in backend mode over a
    stream that ends well: the history gains the message and a reply
    whose text is the decoded text of the whole stream, however the
    stream was cut into reads; the input is cleared and the loading flag
    is off. *)
Theorem handleSendChatMessage_streams_reply `{Host} (rs : list (list byte))
    (direct : list Callback) (st : ChatState.t) :
  Str.trim (ChatState.chatInput st) <> [] ->
  ChatState.isChatLoading st = false ->
  handleSendChatMessage true backend direct (streamed rs None) st
  = ChatState.Make
      (ChatState.chatHistory st
       ++ [NoteChatMessage.Make Role.user (ChatState.chatInput st) false;
           NoteChatMessage.Make Role.model
             (TextDecoder.decode TextDecoder.new (concat rs)).2 false])
      [] false.
Proof.
  intros Hinput Hloading.
  rewrite (handleSendChatMessage_sent backend direct _ st Hinput Hloading).
  unfold callGenerativeAiStream, callGenerativeAiStream_backend, streamed.
  change (ok 200) with true. cbv iota. cbn [reads failure].
  rewrite forwardReads_decodedReads, foldl_app.
  rewrite <- (map_map JString OnChunk).
  rewrite foldl_chatCallback_chunks. cbn [foldl chatCallback app].
  cbn [ChatState.chatHistory ChatState.chatInput].
  rewrite map_map. cbn [toStringJs]. rewrite map_id.
  rewrite concat_decodedReads, <- app_assoc. reflexivity.
Qed.

Lemma handleSendChatMessage_streams_reply_witness :
  @handleSendChatMessage exampleHost true backend []
    (streamed [[x48; x65; x79; x20; xe4; xbd]; [xa0]] None)
    (ChatState.Make [] (js "Hi") false)
  = ChatState.Make
      [NoteChatMessage.Make Role.user (js "Hi") false;
       NoteChatMessage.Make Role.model (js "Hey 你") false]
      [] false.
Proof.
  apply (@handleSendChatMessage_streams_reply exampleHost
           [[x48; x65; x79; x20; xe4; xbd]; [xa0]] []
           (ChatState.Make [] (js "Hi") false)).
  - vm_compute. discriminate.
  - reflexivity.
Defined.

(** X12. Whenever the stream ends with an error, in
    either mode, the text of the reply is the apology with the message of
    the error, whatever had arrived of the reply before; the reply is
    marked as an error and the loading flag is off. *)
Theorem handleSendChatMessage_reports_error `{Host} (executionMode : ExecutionMode)
    (direct : list Callback) (o : StreamOutcome) (st : ChatState.t)
    (chunks : list json) (e : JsError) :
  Str.trim (ChatState.chatInput st) <> [] ->
  ChatState.isChatLoading st = false ->
  callGenerativeAiStream executionMode direct o = map OnChunk chunks ++ [OnError e] ->
  handleSendChatMessage true executionMode direct o st
  = ChatState.Make
      (ChatState.chatHistory st
       ++ [NoteChatMessage.Make Role.user (ChatState.chatInput st) false;
           NoteChatMessage.Make Role.model (apologyPrefix ++ message e) true])
      [] false.
Proof.
  intros Hinput Hloading Hstream.
  rewrite (handleSendChatMessage_sent executionMode direct o st Hinput Hloading).
  rewrite Hstream, foldl_app, foldl_chatCallback_chunks.
  cbn [foldl chatCallback ChatState.chatHistory ChatState.chatInput].
  rewrite updateLast_snoc. cbn [NoteChatMessage.role]. now rewrite <- app_assoc.
Qed.

(** A stream that breaks after its first read. *)
Lemma handleSendChatMessage_reports_error_witness :
  @handleSendChatMessage exampleHost true backend []
    (streamed [[x48; x65; x79]] (Some (Error (js "network error"))))
    (ChatState.Make [] (js "Hi") false)
  = ChatState.Make
      [NoteChatMessage.Make Role.user (js "Hi") false;
       NoteChatMessage.Make Role.model
         (apologyPrefix ++ js "network error") true]
      [] false.
Proof.
  apply (@handleSendChatMessage_reports_error exampleHost backend []
           (streamed [[x48; x65; x79]] (Some (Error (js "network error"))))
           (ChatState.Make [] (js "Hi") false) [JString (js "Hey")]
           (Error (js "network error"))).
  - vm_compute. discriminate.
  - reflexivity.
  - vm_compute. reflexivity.
Defined.





(* ------------------------------------------------------------------ *)
(** ** tryParse: what the removal of trailing commas does to a text *)
(* ------------------------------------------------------------------ *)

Lemma stripCommas_sublist (skipping : bool) (s : jsstring) :
  sublist (stripCommas skipping s) s.
Proof.
  revert skipping. induction s as [|c r IH]; intros skipping; cbn [stripCommas];
    [constructor|].
  destruct (skipping && Str.isWhiteSpace c); [apply sublist_cons, IH|].
  destruct ((c =? 44)%N && closerFollows r); [apply sublist_cons, IH|].
  apply sublist_skip, IH.
Qed.

Lemma stripCommas_kept (skipping : bool) (s : jsstring) :
  List.filter isKept (stripCommas skipping s) = List.filter isKept s.
Proof.
  revert skipping. induction s as [|c r IH]; intros skipping; cbn [stripCommas];
    [reflexivity|].
  cbn [List.filter]. unfold isKept at 2.
  destruct (skipping && Str.isWhiteSpace c) eqn:E1.
  { apply andb_true_iff in E1 as [_ ->]. rewrite orb_true_r. cbn [negb]. apply IH. }
  destruct ((c =? 44)%N && closerFollows r) eqn:E2.
  { apply andb_true_iff in E2 as [-> _]. cbn [orb negb]. apply IH. }
  cbn [List.filter]. fold (isKept c). destruct (isKept c); now rewrite IH.
Qed.

(** X13. The removal of trailing commas takes
    code units away and leaves the others in their order; all it takes
    away are commas and white space. *)
Theorem stripTrailingCommas_removes_separators_only (str : jsstring) :
  sublist (stripTrailingCommas str) str
  /\ List.filter isKept (stripTrailingCommas str) = List.filter isKept str.
Proof. split; [apply stripCommas_sublist|apply stripCommas_kept]. Qed.

(* ------------------------------------------------------------------ *)
(** ** parseJsonResponse: a comma in front of the last bracket *)
(* ------------------------------------------------------------------ *)

Lemma isCloser_not_space c : isCloser c = true -> Str.isWhiteSpace c = false.
Proof.
  unfold isCloser. intros Hc.
  apply orb_true_iff in Hc as [Hc|Hc]; apply N.eqb_eq in Hc; now subst c.
Qed.

Lemma isCloser_not_comma c : isCloser c = true -> (c =? 44)%N = false.
Proof.
  unfold isCloser. intros Hc.
  apply orb_true_iff in Hc as [Hc|Hc]; apply N.eqb_eq in Hc; now subst c.
Qed.

Lemma closerFollows_spaces (w : jsstring) c t :
  Forall (fun x => Str.isWhiteSpace x = true) w -> Str.isWhiteSpace c = false ->
  closerFollows (w ++ c :: t) = isCloser c.
Proof. intros Hw Hc. unfold closerFollows. now rewrite dropWhile_skip. Qed.

Lemma stripCommas_spaces (w t : jsstring) :
  Forall (fun x => Str.isWhiteSpace x = true) w ->
  stripCommas true (w ++ t) = stripCommas true t.
Proof.
  intros Hw. induction Hw as [|x w Hx _ IH]; [reflexivity|].
  cbn [app stripCommas]. now rewrite Hx.
Qed.

(** Where no closer follows, none does when commas have been put in
    front of closers. *)
Lemma closerFollows_withTrailingCommas (marks : list (option jsstring)) (r : jsstring) :
  closerFollows r = false -> closerFollows (withTrailingCommas marks r) = false.
Proof.
  unfold closerFollows. induction r as [|c r IH]; [trivial|].
  cbn [Str.dropWhile withTrailingCommas].
  destruct (Str.isWhiteSpace c) eqn:Hw.
  - assert (Hc : isCloser c = false).
    { destruct (isCloser c) eqn:E; [|reflexivity].
      rewrite (isCloser_not_space c E) in Hw. discriminate Hw. }
    rewrite Hc. cbn [Str.dropWhile]. now rewrite Hw.
  - intros Hc. rewrite Hc. cbn [Str.dropWhile]. now rewrite Hw.
Qed.

(** The replacement takes the commas that were put in front of closers
    away again. *)
Lemma stripCommas_withTrailingCommas (s : jsstring) :
  hasTrailingComma s = false ->
  forall marks,
    Forall (fun m => match m with
                     | Some ws => Forall (fun c => Str.isWhiteSpace c = true) ws
                     | None => True
                     end) marks ->
    stripCommas false (withTrailingCommas marks s) = s.
Proof.
  induction s as [|c r IH]; intros Hcomma marks Hmarks; [reflexivity|].
  cbn [hasTrailingComma] in Hcomma. apply orb_false_iff in Hcomma as [Hc Hr].
  cbn [withTrailingCommas]. destruct (isCloser c) eqn:Hcl.
  - pose proof (isCloser_not_space c Hcl) as Hcw.
    pose proof (isCloser_not_comma c Hcl) as Hcc.
    destruct marks as [|[ws|] marks'].
    + cbn [stripCommas andb]. rewrite Hcc. cbn [andb]. f_equal. now apply IH.
    + apply Forall_cons in Hmarks as [Hws Hmarks'].
      cbn [stripCommas andb N.eqb Pos.eqb].
      rewrite (closerFollows_spaces ws c _ Hws Hcw), Hcl.
      rewrite (stripCommas_spaces ws _ Hws).
      cbn [stripCommas]. rewrite Hcw, Hcc. cbn [andb]. f_equal. now apply IH.
    + apply Forall_cons in Hmarks as [_ Hmarks'].
      cbn [stripCommas andb]. rewrite Hcc. cbn [andb]. f_equal. now apply IH.
  - cbn [stripCommas andb].
    assert (Hno : (c =? 44)%N && closerFollows (withTrailingCommas marks r) = false).
    { destruct (c =? 44)%N; [|reflexivity]. cbn [andb] in Hc |- *.
      now apply closerFollows_withTrailingCommas. }
    rewrite Hno. f_equal. now apply IH.
Qed.

Lemma withTrailingCommas_last (u : jsstring) (l : N) :
  forall marks, exists u', withTrailingCommas marks (u ++ [l]) = u' ++ [l].
Proof.
  induction u as [|c u IH]; intros marks; cbn [app withTrailingCommas].
  - destruct (isCloser l); [destruct marks as [|[ws|] marks']|].
    + now exists [].
    + now exists (44%N :: ws).
    + now exists [].
    + now exists [].
  - destruct (isCloser c); [destruct marks as [|[ws|] marks']|].
    + destruct (IH []) as [u' ->]. now exists (c :: u').
    + destruct (IH marks') as [u' ->]. exists (44%N :: ws ++ c :: u').
      cbn [app]. f_equal. now rewrite <- app_assoc.
    + destruct (IH marks') as [u' ->]. now exists (c :: u').
    + destruct (IH marks) as [u' ->]. now exists (c :: u').
Qed.

Lemma dropWhile_length (p : N -> bool) (s : jsstring) :
  (length (Str.dropWhile p s) <= length s)%nat.
Proof.
  destruct (dropWhile_suffix p s) as [t Ht]. rewrite Ht at 2.
  rewrite length_app. lia.
Qed.

Lemma trim_fixed_first (s : jsstring) c t :
  Str.trim s = s -> s = c :: t -> Str.isWhiteSpace c = false.
Proof.
  intros Htrim ->. destruct (Str.isWhiteSpace c) eqn:Hc; [|reflexivity].
  exfalso. apply (f_equal (@length N)) in Htrim.
  unfold Str.trim, Str.trimStart, Str.trimEnd, Str.dropWhileEnd in Htrim.
  rewrite length_rev in Htrim.
  pose proof (dropWhile_length Str.isWhiteSpace
                (rev (Str.dropWhile Str.isWhiteSpace (c :: t)))) as H1.
  rewrite length_rev in H1. cbn [Str.dropWhile] in H1, Htrim. rewrite Hc in H1, Htrim.
  pose proof (dropWhile_length Str.isWhiteSpace t) as H2.
  cbn [length] in Htrim. lia.
Qed.

(** When the first stage finds a truthy value, that value is the result. *)
Lemma parseJsonResponse_first_stage `{Host} (T : Type) responseText v :
  tryParse (Str.trim responseText) = v -> toBoolean v = true ->
  parseJsonResponse T responseText = ParseResult.Make v None None.
Proof.
  intros Htry Htruthy. unfold parseJsonResponse, structuralParse.
  rewrite Htry, Htruthy. cbn [negb]. rewrite Htruthy. cbn [negb].
  destruct v; try reflexivity. discriminate Htruthy.
Qed.

(** X14. Commas, with or without white space behind them,
    in front of closing brackets and braces of the text of a truthy value
    are repaired, wherever these stand and however many there are: the
    result is the value of the text without them. *)
Theorem parseJsonResponse_trailing_commas `{Host} (T : Type) (v : json)
    (marks : list (option jsstring)) :
  wfJson v -> toBoolean v = true ->
  hasTrailingComma (JSON.stringify v) = false ->
  Forall (fun m => match m with
                   | Some ws => Forall (fun c => Str.isWhiteSpace c = true) ws
                   | None => True
                   end) marks ->
  parseJsonResponse T (withTrailingCommas marks (JSON.stringify v))
  = ParseResult.Make v None None.
Proof.
  intros Hwf Htruthy Hcomma Hmarks.
  apply parseJsonResponse_first_stage; [|exact Htruthy].
  assert (Htrim : Str.trim (withTrailingCommas marks (JSON.stringify v))
                  = withTrailingCommas marks (JSON.stringify v)).
  { destruct (stringify_first v Hwf) as (c & t & Hc & _ & Hc1 & Hc2).
    pose proof (trim_fixed_first _ c t (stringify_trimmed v Hwf) Hc) as Hcw.
    destruct (exists_last (l := JSON.stringify v)) as (u & l & Hl);
      [rewrite Hc; discriminate|].
    assert (Hlw : Str.isWhiteSpace l = false).
    { pose proof (stringify_trimmed v Hwf) as Htr.
      unfold Str.trim in Htr.
      assert (Hstart : Str.trimStart (JSON.stringify v) = JSON.stringify v).
      { unfold Str.trimStart. rewrite Hc. now apply dropWhile_fixed. }
      rewrite Hstart in Htr. rewrite Hl in Htr.
      now apply (dropWhileEnd_last Str.isWhiteSpace (u ++ [l]) u l). }
    destruct (withTrailingCommas_last u l marks) as [u' Hlast].
    assert (Hfirst : withTrailingCommas marks (JSON.stringify v)
                     = c :: withTrailingCommas marks t).
    { rewrite Hc. cbn [withTrailingCommas].
      assert (Hncl : isCloser c = false).
      { unfold isCloser. now rewrite (proj2 (N.eqb_neq c 125) Hc2),
                             (proj2 (N.eqb_neq c 93) Hc1). }
      now rewrite Hncl. }
    apply (trim_ends _ c (withTrailingCommas marks t) u' l);
      [exact Hfirst|now rewrite Hl|exact Hcw|exact Hlw]. }
  rewrite Htrim. unfold tryParse, stripTrailingCommas.
  rewrite (stripCommas_withTrailingCommas _ Hcomma marks Hmarks).
  now rewrite (parse_stringify v Hwf).
Qed.

(** An object with a comma in front of the bracket of its array, a comma
    and a blank in front of the brace of its inner object, and a comma and
    a line feed in front of its own brace. *)
Lemma parseJsonResponse_trailing_commas_witness :
  @parseJsonResponse exampleHost json (jq "{'a':[1,2,],'b':{'c':3, },
}")
  = ParseResult.Make
      (JObject [(js "a", JArray [JNumber (Number false [1%N] 0);
                                 JNumber (Number false [2%N] 0)]);
                (js "b", JObject [(js "c", JNumber (Number false [3%N] 0))])])
      None None.
Proof.
  apply (@parseJsonResponse_trailing_commas exampleHost json
           (JObject [(js "a", JArray [JNumber (Number false [1%N] 0);
                                      JNumber (Number false [2%N] 0)]);
                     (js "b", JObject [(js "c", JNumber (Number false [3%N] 0))])])
           [Some []; Some (js " "); Some LF]).
  - cbn [wfJson map fst canonicalKeys wfNumber].
    repeat match goal with
           | |- _ /\ _ => split
           | |- Forall _ [] => constructor
           | |- Forall _ (_ :: _) => constructor
           | |- True => exact I
           | |- _ <> _ => vm_compute; discriminate
           | |- _ = false => vm_compute; reflexivity
           end; vm_compute; repeat constructor; try lia; congruence.
  - reflexivity.
  - vm_compute. reflexivity.
  - repeat constructor.
Defined.

(* ------------------------------------------------------------------ *)
(** ** Searching a text *)
(* ------------------------------------------------------------------ *)

Lemma startsWith_app (pat rest : jsstring) : Str.startsWith (pat ++ rest) pat = true.
Proof. induction pat as [|p pat IH]; cbn; [reflexivity|]. now rewrite N.eqb_refl. Qed.

Lemma indexOf_app_None_r (a b pat : jsstring) :
  Str.indexOf (a ++ b) pat = None -> Str.indexOf b pat = None.
Proof.
  induction a as [|x a IH]; [trivial|]. cbn [app Str.indexOf].
  destruct (Str.startsWith (x :: a ++ b) pat); [discriminate|].
  destruct (Str.indexOf (a ++ b) pat); [discriminate|]. intros _. now apply IH.
Qed.

Lemma startsWith_app_l (a b pat : jsstring) :
  Str.startsWith a pat = true -> Str.startsWith (a ++ b) pat = true.
Proof.
  revert a. induction pat as [|p pat IH]; intros a; [reflexivity|].
  destruct a as [|x a]; [discriminate|]. cbn.
  intros [-> Ha]%andb_true_iff. now rewrite (IH a Ha).
Qed.

Lemma indexOf_app_None_l (a b : jsstring) (p : N) (pat : jsstring) :
  Str.indexOf (a ++ b) (p :: pat) = None -> Str.indexOf a (p :: pat) = None.
Proof.
  induction a as [|x a IH]; [reflexivity|]. cbn [app Str.indexOf].
  destruct (Str.startsWith (x :: a) (p :: pat)) eqn:E.
  { pose proof (startsWith_app_l _ b _ E) as E'. cbn [app] in E'. now rewrite E'. }
  destruct (Str.startsWith (x :: a ++ b) (p :: pat)); [discriminate|].
  destruct (Str.indexOf (a ++ b) (p :: pat)); [discriminate|]. intros _.
  now rewrite IH.
Qed.

Lemma indexOf_trim_None (s : jsstring) (p : N) (pat : jsstring) :
  Str.indexOf s (p :: pat) = None -> Str.indexOf (Str.trim s) (p :: pat) = None.
Proof.
  intros Hs. unfold Str.trim, Str.trimStart, Str.trimEnd.
  destruct (dropWhile_suffix Str.isWhiteSpace s) as [a Ha].
  rewrite Ha in Hs. apply indexOf_app_None_r in Hs.
  destruct (dropWhileEnd_prefix Str.isWhiteSpace (Str.dropWhile Str.isWhiteSpace s))
    as [b Hb].
  rewrite Hb in Hs. now apply indexOf_app_None_l in Hs.
Qed.

(** The first fence behind a text without a backtick. *)
Lemma indexOf_fence_skip (a rest : jsstring) :
  Forall (fun c => c <> 96%N) a ->
  Str.indexOf (a ++ fence ++ rest) fence = Some (length a).
Proof.
  induction 1 as [|x a Hx _ IH].
  - cbn [app length]. destruct (fence ++ rest) eqn:E;
      unfold Str.indexOf; rewrite <- E, startsWith_app; reflexivity.
  - cbn [app length Str.indexOf].
    change fence with (96%N :: [96%N; 96%N]) at 2.
    cbn [Str.startsWith]. rewrite (proj2 (N.eqb_neq x 96) Hx). cbn [andb].
    now rewrite IH.
Qed.

Lemma indexOf_fence_None_cons x (b : jsstring) :
  Str.indexOf (x :: b) fence = None ->
  Str.startsWith (x :: b) fence = false /\ Str.indexOf b fence = None.
Proof.
  cbn [Str.indexOf]. destruct (Str.startsWith (x :: b) fence); [discriminate|].
  destruct (Str.indexOf b fence); [discriminate|]. now split.
Qed.

(** The first fence behind a text that holds no fence and does not end
    with a backtick. *)
Lemma indexOf_fence_behind (body sep rest : jsstring) :
  Str.indexOf body fence = None -> last body <> Some 96%N ->
  Forall (fun c => Str.isWhiteSpace c = true) sep ->
  Str.indexOf (body ++ sep ++ fence ++ rest) fence = Some (length (body ++ sep)).
Proof.
  intros Hnone Hlast Hsep.
  assert (Hsep' : Forall (fun c => c <> 96%N) sep).
  { eapply Forall_impl; [exact Hsep|]. intros c Hc ->. discriminate Hc. }
  induction body as [|x b IH].
  - cbn [app]. now apply indexOf_fence_skip.
  - apply indexOf_fence_None_cons in Hnone as [Hstart Hb].
    cbn [app length Str.indexOf].
    assert (Hstart' : Str.startsWith (x :: b ++ sep ++ fence ++ rest) fence = false).
    { change fence with [96%N; 96%N; 96%N] in Hstart |- * at 2.
      cbn [Str.startsWith] in Hstart |- *.
      destruct (x =? 96)%N eqn:Ex; [|reflexivity]. cbn [andb] in Hstart |- *.
      destruct b as [|y b]; [apply N.eqb_eq in Ex; subst x; now destruct Hlast|].
      cbn [app]. destruct (y =? 96)%N eqn:Ey; [|reflexivity].
      cbn [andb] in Hstart |- *.
      destruct b as [|z b]; [apply N.eqb_eq in Ey; subst y; now destruct Hlast|].
      cbn [app]. now rewrite andb_true_r in Hstart |- *. }
    rewrite Hstart'. rewrite IH; [reflexivity|exact Hb|].
    destruct b; [discriminate|exact Hlast].
Qed.

Lemma indexOfChar_skip (a rest : jsstring) (c : N) :
  Forall (fun x => x <> c) a -> Str.indexOfChar (a ++ c :: rest) c = Some (length a).
Proof.
  induction 1 as [|x a Hx _ IH]; cbn [app length Str.indexOfChar].
  - now rewrite N.eqb_refl.
  - rewrite (proj2 (N.eqb_neq x c) Hx). now rewrite IH.
Qed.

Lemma indexOfChar_none (a : jsstring) (c : N) :
  Forall (fun x => x <> c) a -> Str.indexOfChar a c = None.
Proof.
  induction 1 as [|x a Hx _ IH]; cbn [Str.indexOfChar]; [reflexivity|].
  rewrite (proj2 (N.eqb_neq x c) Hx). now rewrite IH.
Qed.

Lemma lastIndexOfChar_none (a : jsstring) (c : N) :
  Forall (fun x => x <> c) a -> Str.lastIndexOfChar a c = None.
Proof.
  induction 1 as [|x a Hx _ IH]; cbn [Str.lastIndexOfChar]; [reflexivity|].
  rewrite IH. now rewrite (proj2 (N.eqb_neq x c) Hx).
Qed.

Lemma lastIndexOfChar_skip (a rest : jsstring) (c : N) :
  Forall (fun x => x <> c) rest ->
  Str.lastIndexOfChar (a ++ c :: rest) c = Some (length a).
Proof.
  intros Hrest. induction a as [|x a IH]; cbn [app length Str.lastIndexOfChar].
  - rewrite (lastIndexOfChar_none rest c Hrest). now rewrite N.eqb_refl.
  - now rewrite IH.
Qed.

(* ------------------------------------------------------------------ *)
(** ** Trimming a text around a part that is not blank at its ends *)
(* ------------------------------------------------------------------ *)

Lemma trimStart_app (a m : jsstring) c t :
  m = c :: t -> Str.isWhiteSpace c = false ->
  Str.trimStart (a ++ m) = Str.trimStart a ++ m.
Proof.
  intros -> Hc. unfold Str.trimStart.
  destruct (Str.dropWhile Str.isWhiteSpace a) as [|x r] eqn:E.
  - rewrite (dropWhile_all _ a E). now apply dropWhile_fixed.
  - rewrite dropWhile_nil_app by congruence. now rewrite E.
Qed.

Lemma trimEnd_app (m b : jsstring) r l :
  m = r ++ [l] -> Str.isWhiteSpace l = false ->
  Str.trimEnd (m ++ b) = m ++ Str.trimEnd b.
Proof.
  intros -> Hl. unfold Str.trimEnd, Str.dropWhileEnd.
  rewrite rev_app_distr.
  destruct (Str.dropWhile Str.isWhiteSpace (rev b)) as [|x u] eqn:E.
  - rewrite (dropWhile_all _ (rev b) E). rewrite rev_app_distr. cbn [rev app].
    rewrite dropWhile_fixed by exact Hl. cbn [rev]. now rewrite rev_involutive, app_nil_r.
  - rewrite dropWhile_nil_app by congruence. rewrite E.
    now rewrite rev_app_distr, rev_involutive.
Qed.

Lemma trim_around (a m b : jsstring) c t r l :
  m = c :: t -> m = r ++ [l] ->
  Str.isWhiteSpace c = false -> Str.isWhiteSpace l = false ->
  Str.trim (a ++ m ++ b) = Str.trimStart a ++ m ++ Str.trimEnd b.
Proof.
  intros Hc Hl Hcw Hlw. unfold Str.trim.
  assert (Hmb : m ++ b = c :: (t ++ b)) by (rewrite Hc; reflexivity).
  rewrite (trimStart_app a (m ++ b) c (t ++ b) Hmb Hcw).
  rewrite app_assoc.
  assert (Ham : Str.trimStart a ++ m = (Str.trimStart a ++ r) ++ [l])
    by (rewrite Hl; now rewrite app_assoc).
  rewrite (trimEnd_app _ b _ l Ham Hlw). now rewrite <- app_assoc.
Qed.

(* ------------------------------------------------------------------ *)
(** ** The ends of the text of a value *)
(* ------------------------------------------------------------------ *)

Section NumberChars.

Variable P : N -> Prop.
Hypothesis P_digit : forall d, (d < 10)%N -> P (48 + d).
Hypothesis P_minus : P 45.
Hypothesis P_plus : P 43.
Hypothesis P_point : P 46.
Hypothesis P_e : P 101.

Lemma digitChars_Forall ds :
  Forall (fun d => (d < 10)%N) ds -> Forall P (JSON.digitChars ds).
Proof using P_digit.
  intros H. apply Forall_map. eapply Forall_impl; [exact H|]. exact P_digit.
Qed.

Lemma zeros_Forall m : Forall P (repeat 48%N m).
Proof using P_digit.
  induction m; simpl; constructor; [|assumption]. apply (P_digit 0). lia.
Qed.

Lemma numberToString_Forall x : wfNumber x -> Forall P (JSON.numberToString x).
Proof using P_digit P_minus P_plus P_point P_e.
  destruct x as [neg ds e|neg]; [|intros (_ & [=] & _)]. intros [[(Hlt & _) _] _].
  unfold JSON.numberToString.
  destruct ds as [|d ds']; [repeat constructor; apply (P_digit 0); lia|].
  set (full := d :: ds') in *.
  pose proof (digitChars_Forall full Hlt) as Hfull.
  apply Forall_app. split; [destruct neg; repeat constructor; assumption|].
  destruct (_ && _).
  { apply Forall_app. split; [exact Hfull|apply zeros_Forall]. }
  destruct (_ && _).
  { apply Forall_app. split; [apply digitChars_Forall; now apply Forall_take|].
    constructor; [assumption|]. apply digitChars_Forall. now apply Forall_drop. }
  destruct (_ && _).
  { apply Forall_app. split; [repeat constructor; [apply (P_digit 0); lia|assumption]|].
    apply Forall_app. split; [apply zeros_Forall|exact Hfull]. }
  apply Forall_app. split.
  { apply digitChars_Forall. constructor; [now inversion Hlt|constructor]. }
  apply Forall_app. split.
  { destruct ds'; [constructor|]. constructor; [assumption|].
    apply digitChars_Forall. now inversion Hlt. }
  apply Forall_app. split.
  { constructor; [assumption|]. constructor; [destruct (_ <? _)%Z; assumption|constructor]. }
  unfold JSON.decimal. rewrite uintChars_digits.
  apply digitChars_Forall, uintDigits_lt.
Qed.

End NumberChars.

(** A proper end of a text: neither white space nor a backtick. *)
Lemma stringify_last v :
  wfJson v ->
  exists r l, JSON.stringify v = r ++ [l] /\ Str.isWhiteSpace l = false /\ l <> 96%N.
Proof.
  intros Hwf. destruct v as [|[|]|x|s|items|props].
  - exists (js "nul"), 108%N. repeat split. discriminate.
  - exists (js "tru"), 101%N. repeat split. discriminate.
  - exists (js "fals"), 101%N. repeat split. discriminate.
  - cbn [wfJson] in Hwf. rewrite (stringify_number x Hwf).
    pose proof (numberToString_Forall
                  (fun c => Str.isWhiteSpace c = false /\ c <> 96%N)) as Hall.
    specialize (Hall ltac:(intros d Hd; split; [apply isWhiteSpace_printable|]; lia)
                     ltac:(split; [reflexivity|discriminate])
                     ltac:(split; [reflexivity|discriminate])
                     ltac:(split; [reflexivity|discriminate])
                     ltac:(split; [reflexivity|discriminate]) x Hwf).
    pose proof (numberToString_length x) as Hlen.
    destruct (JSON.numberToString x) as [|c t] eqn:E; [simpl in Hlen; lia|].
    destruct (exists_last (l := c :: t) ltac:(discriminate)) as (u & l & Hl).
    exists u, l. rewrite Hl in Hall |- *. apply Forall_app in Hall as [_ Hall].
    inversion_clear Hall as [|? ? [H1 H2] _]. now repeat split.
  - cbn [JSON.stringify]. unfold JSON.quote.
    exists (34%N :: JSON.quoteBody s), 34%N. repeat split. discriminate.
  - rewrite stringify_array. exists (91%N :: elementsText items), 93%N.
    repeat split. discriminate.
  - rewrite stringify_object. exists (123%N :: membersText props), 125%N.
    repeat split. discriminate.
Qed.

(** A proper start of a text: neither white space nor the first letter
    of the tag of a fence. *)
Lemma stringify_start v :
  wfJson v ->
  exists c t, JSON.stringify v = c :: t /\ Str.isWhiteSpace c = false /\ c <> 106%N.
Proof.
  intros Hwf. destruct v as [|[|]|x|s|items|props];
    try (eexists _, _; split; [reflexivity|split; [reflexivity|discriminate]]).
  destruct (numberToString_first x Hwf) as (c & t & Ht & Hc).
  exists c, t. rewrite (stringify_number x Hwf). split; [exact Ht|].
  apply numberStart_bounds in Hc.
  split; [apply isWhiteSpace_printable|]; lia.
Qed.

(* ------------------------------------------------------------------ *)
(** ** parseJsonResponse: a value in a fenced block *)
(* ------------------------------------------------------------------ *)

Lemma isWhiteSpace_not_backtick (s : jsstring) :
  Forall (fun c => Str.isWhiteSpace c = true) s -> Forall (fun c => c <> 96%N) s.
Proof. intros Hs. eapply Forall_impl; [exact Hs|]. intros c Hc ->. discriminate Hc. Qed.

Lemma startsWith_json_false (sep : jsstring) c t :
  Forall (fun x => Str.isWhiteSpace x = true) sep -> c <> 106%N ->
  Str.startsWith (sep ++ c :: t) (js "json") = false.
Proof.
  intros Hsep Hc. change (js "json") with [106%N; 115%N; 111%N; 110%N].
  destruct Hsep as [|x sep Hx _]; cbn [app Str.startsWith].
  - now rewrite (proj2 (N.eqb_neq c 106) Hc).
  - destruct (x =? 106)%N eqn:E; [|reflexivity].
    apply N.eqb_eq in E. subst x. discriminate Hx.
Qed.

(** Group 1 of the match on a text with a fenced block that holds [body]. *)
Lemma markdownMatch_fenced (pre sep1 body sep2 post : jsstring) (tagged : bool) c t r l :
  Forall (fun x => x <> 96%N) pre ->
  Forall (fun x => Str.isWhiteSpace x = true) sep1 ->
  Forall (fun x => Str.isWhiteSpace x = true) sep2 ->
  body = c :: t -> Str.isWhiteSpace c = false -> c <> 106%N ->
  body = r ++ [l] -> Str.isWhiteSpace l = false -> l <> 96%N ->
  Str.indexOf body fence = None ->
  markdownMatch
    (pre ++ fence ++ ((if tagged then js "json" else []) ++ sep1 ++ body
                      ++ sep2 ++ fence ++ post))
  = Some body.
Proof.
  intros Hpre Hsep1 Hsep2 Hc Hcw Hcj Hl Hlw Hlb Hnone. unfold markdownMatch.
  rewrite (indexOf_fence_skip pre _ Hpre). cbn [mbind option_bind].
  assert (Hdrop : forall rest, drop (length pre + 3) (pre ++ fence ++ rest) = rest).
  { intros rest. rewrite <- drop_drop, drop_app_length. reflexivity. }
  rewrite Hdrop.
  assert (Hr1 : (if Str.startsWith
                      ((if tagged then js "json" else []) ++ sep1 ++ body
                       ++ sep2 ++ fence ++ post) (js "json")
                 then drop 4 ((if tagged then js "json" else []) ++ sep1 ++ body
                              ++ sep2 ++ fence ++ post)
                 else (if tagged then js "json" else []) ++ sep1 ++ body
                      ++ sep2 ++ fence ++ post)
                = sep1 ++ body ++ sep2 ++ fence ++ post).
  { destruct tagged.
    - rewrite startsWith_app. reflexivity.
    - cbn [app]. rewrite Hc at 1. cbn [app].
      rewrite (startsWith_json_false sep1 c _ Hsep1 Hcj). now rewrite Hc. }
  rewrite Hr1.
  assert (Hr2 : Str.trimStart (sep1 ++ body ++ sep2 ++ fence ++ post)
                = body ++ sep2 ++ fence ++ post).
  { unfold Str.trimStart. rewrite Hc. cbn [app].
    now apply dropWhile_skip. }
  rewrite Hr2.
  assert (Hlast : last body <> Some 96%N).
  { rewrite Hl, last_snoc. congruence. }
  rewrite (indexOf_fence_behind body sep2 post Hnone Hlast Hsep2).
  cbn [mbind option_bind]. f_equal.
  rewrite (app_assoc body sep2), take_app_length.
  unfold Str.trimEnd. rewrite Hl.
  destruct sep2 as [|x sep2 _] using rev_ind.
  - rewrite app_nil_r. unfold Str.dropWhileEnd. rewrite rev_app_distr. cbn [rev app].
    rewrite dropWhile_fixed by exact Hlw. cbn [rev]. now rewrite rev_involutive.
  - rewrite <- app_assoc. cbn [app]. now apply dropWhileEnd_skip.
Qed.

Lemma parse_backtick (s : jsstring) : JSON.parse (96%N :: s) = None.
Proof. reflexivity. Qed.

Lemma tryParse_backtick (s : jsstring) : tryParse (96%N :: s) = JNull.
Proof.
  unfold tryParse, stripTrailingCommas. cbn [stripCommas andb N.eqb Pos.eqb].
  now rewrite !parse_backtick.
Qed.

Lemma tryParse_stringify (v : json) :
  wfJson v -> hasTrailingComma (JSON.stringify v) = false ->
  tryParse (JSON.stringify v) = v.
Proof.
  intros Hwf Hcomma. unfold tryParse.
  rewrite (proj2 (stripTrailingCommas_fixed _) Hcomma).
  now rewrite (parse_stringify v Hwf).
Qed.

(** When the first stage finds nothing and the second a truthy value,
    that value is the result. *)
Lemma parseJsonResponse_second_stage `{Host} (T : Type) responseText c m v :
  toBoolean (tryParse (Str.trim responseText)) = false ->
  markdownMatch (Str.trim responseText) = Some (c :: m) ->
  tryParse (Str.trim (c :: m)) = v -> toBoolean v = true ->
  parseJsonResponse T responseText = ParseResult.Make v None None.
Proof.
  intros Hfirst Hmatch Htry Htruthy. unfold parseJsonResponse, structuralParse.
  rewrite Hfirst, Hmatch. cbn [negb]. rewrite Htry, Htruthy. cbn [negb].
  destruct v; try reflexivity. discriminate Htruthy.
Qed.

(** X15. A truthy value whose text stands in a fenced block,
    with or without the json tag, is recovered from the block: when
    nothing but white space stands in front of the block, and also behind
    any text without a backtick that the first stage does not take for a
    truthy value. The text of the value must hold no fence and no
    trailing comma; what follows the block does not matter. *)
Theorem parseJsonResponse_fenced `{Host} (T : Type) (v : json)
    (pre sep1 sep2 post : jsstring) (tagged : bool) :
  let text := pre ++ fence ++ ((if tagged then js "json" else []) ++ sep1
                               ++ JSON.stringify v ++ sep2 ++ fence ++ post) in
  wfJson v -> toBoolean v = true ->
  hasTrailingComma (JSON.stringify v) = false ->
  Str.includes (JSON.stringify v) fence = false ->
  Forall (fun c => Str.isWhiteSpace c = true) sep1 ->
  Forall (fun c => Str.isWhiteSpace c = true) sep2 ->
  Forall (fun c => Str.isWhiteSpace c = true) pre
  \/ (Forall (fun c => c <> 96%N) pre
      /\ toBoolean (tryParse (Str.trim text)) = false) ->
  parseJsonResponse T text = ParseResult.Make v None None.
Proof.
  intros text Hwf Htruthy Hcomma Hfence Hsep1 Hsep2 Hpre.
  destruct (stringify_start v Hwf) as (c & t & Hc & Hcw & Hcj).
  destruct (stringify_last v Hwf) as (r & l & Hl & Hlw & Hlb).
  assert (Hnone : Str.indexOf (JSON.stringify v) fence = None).
  { unfold Str.includes in Hfence.
    destruct (Str.indexOf (JSON.stringify v) fence); [discriminate|reflexivity]. }
  set (mid := (if tagged then js "json" else []) ++ sep1
              ++ JSON.stringify v ++ sep2) in *.
  assert (Htrim : Str.trim text
                  = Str.trimStart pre ++ fence
                    ++ ((if tagged then js "json" else []) ++ sep1
                        ++ JSON.stringify v ++ sep2 ++ fence ++ Str.trimEnd post)).
  { unfold text.
    replace (pre ++ fence ++ ((if tagged then js "json" else []) ++ sep1
                              ++ JSON.stringify v ++ sep2 ++ fence ++ post))
      with (pre ++ (fence ++ mid ++ fence) ++ post)
      by (unfold mid; now rewrite <- !app_assoc).
    rewrite (trim_around pre (fence ++ mid ++ fence) post 96%N
               ([96%N; 96%N] ++ mid ++ fence) (fence ++ mid ++ [96%N; 96%N]) 96%N);
      [unfold mid; now rewrite <- !app_assoc|reflexivity| |reflexivity|reflexivity].
    change fence with ([96%N; 96%N] ++ [96%N]) at 2. now rewrite <- !app_assoc. }
  assert (Hpre' : Forall (fun x => x <> 96%N) (Str.trimStart pre)).
  { apply Forall_dropWhile. destruct Hpre as [Hpre|[Hpre _]]; [|exact Hpre].
    now apply isWhiteSpace_not_backtick. }
  assert (Hfirst : toBoolean (tryParse (Str.trim text)) = false).
  { destruct Hpre as [Hpre|[_ Hfirst]]; [|exact Hfirst].
    rewrite Htrim. unfold Str.trimStart.
    assert (Hblank : Str.dropWhile Str.isWhiteSpace pre = []).
    { clear -Hpre. induction Hpre as [|x pre Hx _ IH]; cbn; [reflexivity|].
      now rewrite Hx. }
    rewrite Hblank. cbn [app]. change fence with [96%N; 96%N; 96%N] at 1.
    cbn [app]. now rewrite tryParse_backtick. }
  pose proof (markdownMatch_fenced (Str.trimStart pre) sep1 (JSON.stringify v) sep2
                (Str.trimEnd post) tagged c t r l Hpre' Hsep1 Hsep2
                Hc Hcw Hcj Hl Hlw Hlb Hnone) as Hmatch.
  rewrite <- Htrim, Hc in Hmatch.
  apply (parseJsonResponse_second_stage T text c t v Hfirst Hmatch); [|exact Htruthy].
  rewrite <- Hc, (stringify_trimmed v Hwf). now apply tryParse_stringify.
Qed.

(** A block with the tag, behind a sentence and in front of another. *)
Lemma parseJsonResponse_fenced_witness :
  @parseJsonResponse exampleHost json (jq "Here is the review:
```json
[{'problematicText':'teh','suggestion':'the'}]
```
Let me know if you need more.")
  = ParseResult.Make
      (JArray [JObject [(js "problematicText", JString (js "teh"));
                        (js "suggestion", JString (js "the"))]])
      None None.
Proof.
  apply (@parseJsonResponse_fenced exampleHost json
           (JArray [JObject [(js "problematicText", JString (js "teh"));
                             (js "suggestion", JString (js "the"))]])
           (js "Here is the review:" ++ LF) LF LF
           (LF ++ js "Let me know if you need more.") true).
  - cbn [wfJson map fst canonicalKeys].
    repeat match goal with
           | |- _ /\ _ => split
           | |- Forall _ [] => constructor
           | |- Forall _ (_ :: _) => constructor
           | |- True => exact I
           | |- _ <> _ => vm_compute; discriminate
           | |- _ = false => vm_compute; reflexivity
           end.
  - reflexivity.
  - vm_compute. reflexivity.
  - vm_compute. reflexivity.
  - repeat constructor.
  - repeat constructor.
  - right. split; [|vm_compute; reflexivity].
    vm_compute. repeat constructor; discriminate.
Defined.

(* ------------------------------------------------------------------ *)
(** ** parseJsonResponse: a value between other text *)
(* ------------------------------------------------------------------ *)

Lemma markdownMatch_no_fence (s : jsstring) :
  Str.indexOf s fence = None -> markdownMatch s = None.
Proof. intros Hs. unfold markdownMatch. now rewrite Hs. Qed.

(** When the first two stages find nothing, the third decides. *)
Lemma parseJsonResponse_third_stage `{Host} (T : Type) responseText startIndex endIndex v :
  toBoolean (tryParse (Str.trim responseText)) = false ->
  markdownMatch (Str.trim responseText) = None ->
  bracketSpan (Str.trim responseText) = Some (startIndex, endIndex) ->
  tryParse (Str.substring (Str.trim responseText) startIndex (endIndex + 1)) = v ->
  toBoolean v = true ->
  parseJsonResponse T responseText = ParseResult.Make v None None.
Proof.
  intros Hfirst Hmatch Hspan Htry Htruthy. unfold parseJsonResponse, structuralParse.
  rewrite Hfirst, Hmatch. cbn [negb]. rewrite Hfirst. cbn [negb].
  rewrite Hspan, Htry. destruct v; try reflexivity. discriminate Htruthy.
Qed.

(** The part of [a ++ m ++ b] that starts behind [a] and has the length
    of [m]. *)
Lemma substring_middle (a m b : jsstring) (n : nat) :
  length m = S n ->
  Str.substring (a ++ m ++ b) (length a) (length a + n + 1) = m.
Proof.
  intros Hm. unfold Str.substring. rewrite drop_app_length.
  replace (length a + n + 1 - length a)%nat with (length m) by lia.
  apply take_app_length.
Qed.

(** X16. The text of an array between a text without an
    opening bracket and a text without a closing bracket is recovered by
    the third stage as the array, braces around it or not, whenever the
    first stage does not take the whole text for a truthy value and the
    text holds no fence. *)
Theorem parseJsonResponse_embedded_array `{Host} (T : Type) (items : list json)
    (pre post : jsstring) :
  let text := pre ++ JSON.stringify (JArray items) ++ post in
  wfJson (JArray items) ->
  hasTrailingComma (JSON.stringify (JArray items)) = false ->
  Forall (fun c => c <> 91%N) pre ->
  Forall (fun c => c <> 93%N) post ->
  Str.includes text fence = false ->
  toBoolean (tryParse (Str.trim text)) = false ->
  parseJsonResponse T text = ParseResult.Make (JArray items) None None.
Proof.
  intros text Hwf Hcomma Hpre Hpost Hfence Hfirst.
  set (body := JSON.stringify (JArray items)) in *.
  assert (Hbody : body = 91%N :: elementsText items ++ [93%N]) by apply stringify_array.
  assert (Htrim : Str.trim text = Str.trimStart pre ++ body ++ Str.trimEnd post).
  { apply (trim_around pre body post 91%N (elementsText items ++ [93%N])
             (91%N :: elementsText items) 93%N); [exact Hbody|exact Hbody|reflexivity..]. }
  assert (Hnone : Str.indexOf (Str.trim text) fence = None).
  { assert (Hn : Str.indexOf text fence = None).
    { unfold Str.includes in Hfence.
      destruct (Str.indexOf text fence); [discriminate|reflexivity]. }
    exact (indexOf_trim_None text 96%N [96%N; 96%N] Hn). }
  set (a := Str.trimStart pre) in *. set (b := Str.trimEnd post) in *.
  assert (Ha : Forall (fun c => c <> 91%N) a) by now apply Forall_dropWhile.
  assert (Hb : Forall (fun c => c <> 93%N) b) by now apply Forall_dropWhileEnd.
  assert (Hspan : bracketSpan (Str.trim text)
                  = Some (length a, (length a + S (length (elementsText items)))%nat)).
  { unfold bracketSpan. rewrite Htrim, Hbody. cbn [app].
    rewrite (indexOfChar_skip a _ 91 Ha).
    replace (a ++ 91%N :: (elementsText items ++ [93%N]) ++ b)
      with ((a ++ 91%N :: elementsText items) ++ 93%N :: b)
      by (now rewrite <- !app_assoc).
    rewrite (lastIndexOfChar_skip _ b 93 Hb).
    rewrite length_app. cbn [length].
    destruct (_ <? _)%nat eqn:E; [reflexivity|].
    apply Nat.ltb_ge in E. lia. }
  apply (parseJsonResponse_third_stage T text _ _ (JArray items) Hfirst
           (markdownMatch_no_fence _ Hnone) Hspan); [|reflexivity].
  rewrite Htrim.
  rewrite (substring_middle a body b (S (length (elementsText items)))).
  - now apply tryParse_stringify.
  - rewrite Hbody. cbn [length]. rewrite length_app. cbn [length]. lia.
Qed.

(** An object that holds the array, in a sentence: the array is what the
    parser returns. *)
Lemma parseJsonResponse_embedded_array_witness :
  @parseJsonResponse exampleHost json
    (jq "Result: {'issues': [{'suggestion':'the'}]} Done.")
  = ParseResult.Make (JArray [JObject [(js "suggestion", JString (js "the"))]])
      None None.
Proof.
  apply (@parseJsonResponse_embedded_array exampleHost json
           [JObject [(js "suggestion", JString (js "the"))]]
           (jq "Result: {'issues': ") (js "} Done.")).
  - cbn [wfJson map fst canonicalKeys].
    repeat match goal with
           | |- _ /\ _ => split
           | |- Forall _ [] => constructor
           | |- True => exact I
           end.
  - vm_compute. reflexivity.
  - vm_compute. repeat constructor; discriminate.
  - vm_compute. repeat constructor; discriminate.
  - vm_compute. reflexivity.
  - vm_compute. reflexivity.
Defined.

(** X17. The text of an object between a text without
    an opening brace and a text without a closing brace is recovered by
    the third stage as the object, provided the whole text holds no
    opening bracket and no fence and the first stage does not take it for
    a truthy value. *)
Theorem parseJsonResponse_embedded_object `{Host} (T : Type)
    (props : list (jsstring * json)) (pre post : jsstring) :
  let text := pre ++ JSON.stringify (JObject props) ++ post in
  wfJson (JObject props) ->
  hasTrailingComma (JSON.stringify (JObject props)) = false ->
  Forall (fun c => c <> 123%N) pre ->
  Forall (fun c => c <> 125%N) post ->
  Forall (fun c => c <> 91%N) text ->
  Str.includes text fence = false ->
  toBoolean (tryParse (Str.trim text)) = false ->
  parseJsonResponse T text = ParseResult.Make (JObject props) None None.
Proof.
  intros text Hwf Hcomma Hpre Hpost Hbracket Hfence Hfirst.
  set (body := JSON.stringify (JObject props)) in *.
  assert (Hbody : body = 123%N :: membersText props ++ [125%N]) by apply stringify_object.
  assert (Htrim : Str.trim text = Str.trimStart pre ++ body ++ Str.trimEnd post).
  { apply (trim_around pre body post 123%N (membersText props ++ [125%N])
             (123%N :: membersText props) 125%N); [exact Hbody|exact Hbody|reflexivity..]. }
  assert (Hnone : Str.indexOf (Str.trim text) fence = None).
  { assert (Hn : Str.indexOf text fence = None).
    { unfold Str.includes in Hfence.
      destruct (Str.indexOf text fence); [discriminate|reflexivity]. }
    exact (indexOf_trim_None text 96%N [96%N; 96%N] Hn). }
  assert (Hbracket' : Forall (fun c => c <> 91%N) (Str.trim text)).
  { unfold Str.trim, Str.trimEnd, Str.trimStart.
    now apply Forall_dropWhileEnd, Forall_dropWhile. }
  set (a := Str.trimStart pre) in *. set (b := Str.trimEnd post) in *.
  assert (Ha : Forall (fun c => c <> 123%N) a) by now apply Forall_dropWhile.
  assert (Hb : Forall (fun c => c <> 125%N) b) by now apply Forall_dropWhileEnd.
  assert (Hspan : bracketSpan (Str.trim text)
                  = Some (length a, (length a + S (length (membersText props)))%nat)).
  { unfold bracketSpan. rewrite (indexOfChar_none _ 91 Hbracket').
    rewrite Htrim, Hbody. cbn [app].
    rewrite (indexOfChar_skip a _ 123 Ha).
    replace (a ++ 123%N :: (membersText props ++ [125%N]) ++ b)
      with ((a ++ 123%N :: membersText props) ++ 125%N :: b)
      by (now rewrite <- !app_assoc).
    rewrite (lastIndexOfChar_skip _ b 125 Hb).
    rewrite length_app. cbn [length].
    destruct (_ <? _)%nat eqn:E; [reflexivity|].
    apply Nat.ltb_ge in E. lia. }
  apply (parseJsonResponse_third_stage T text _ _ (JObject props) Hfirst
           (markdownMatch_no_fence _ Hnone) Hspan); [|reflexivity].
  rewrite Htrim.
  rewrite (substring_middle a body b (S (length (membersText props)))).
  - now apply tryParse_stringify.
  - rewrite Hbody. cbn [length]. rewrite length_app. cbn [length]. lia.
Qed.

(** A conclusion in a sentence. *)
Lemma parseJsonResponse_embedded_object_witness :
  @parseJsonResponse exampleHost json
    (jq "Sure: {'conclusion':'both notes agree'} - hope this helps")
  = ParseResult.Make (JObject [(js "conclusion", JString (js "both notes agree"))])
      None None.
Proof.
  apply (@parseJsonResponse_embedded_object exampleHost json
           [(js "conclusion", JString (js "both notes agree"))]
           (js "Sure: ") (js " - hope this helps")).
  - cbn [wfJson map fst canonicalKeys].
    repeat match goal with
           | |- _ /\ _ => split
           | |- Forall _ [] => constructor
           | |- True => exact I
           end.
  - vm_compute. reflexivity.
  - vm_compute. repeat constructor; discriminate.
  - vm_compute. repeat constructor; discriminate.
  - vm_compute. repeat constructor; discriminate.
  - vm_compute. reflexivity.
  - vm_compute. reflexivity.
Defined.

(* ------------------------------------------------------------------ *)
(** ** handleStartRoaming: the answer for one source *)
(* ------------------------------------------------------------------ *)

(** No fence-removing match starts in a text without a fence, whether
    the text ends there or a line feed follows. *)
Lemma fenceMatchLength_none x (b rest : jsstring) :
  Str.indexOf (x :: b) fence = None ->
  rest = [] \/ (exists rest', rest = 10%N :: rest') ->
  fenceMatchLength (x :: b ++ rest) = 0%nat.
Proof.
  intros Hnone Hrest. unfold fenceMatchLength.
  apply indexOf_fence_None_cons in Hnone as [Hstart Hb].
  change (js "```json") with [96%N; 96%N; 96%N; 106%N; 115%N; 111%N; 110%N].
  change fence with [96%N; 96%N; 96%N] in *.
  assert (Hrest0 : forall y r, rest = y :: r -> (y =? 96)%N = false).
  { intros y r ->. destruct Hrest as [Hr|[r' Hr]]; [discriminate Hr|].
    now injection Hr as -> _. }
  assert (H3 : Str.startsWith (x :: b ++ rest) [96%N; 96%N; 96%N] = false).
  { cbn [Str.startsWith] in Hstart |- *.
    destruct (x =? 96)%N; [|reflexivity]. cbn [andb] in Hstart |- *.
    destruct b as [|y b]; cbn [app].
    { destruct rest as [|z r]; [reflexivity|]. now rewrite (Hrest0 z r eq_refl). }
    destruct (y =? 96)%N; [|reflexivity]. cbn [andb] in Hstart |- *.
    destruct b as [|z b]; cbn [app].
    { destruct rest as [|w r]; [reflexivity|]. now rewrite (Hrest0 w r eq_refl). }
    cbn [Str.startsWith] in Hstart |- *. now rewrite Hstart. }
  assert (H7 : Str.startsWith (x :: b ++ rest)
                 [96%N; 96%N; 96%N; 106%N; 115%N; 111%N; 110%N] = false).
  { destruct (Str.startsWith (x :: b ++ rest) [96%N; 96%N; 96%N; 106%N; 115%N; 111%N; 110%N])
      eqn:E; [|reflexivity].
    rewrite <- H3. symmetry.
    change [96%N; 96%N; 96%N; 106%N; 115%N; 111%N; 110%N]
      with ([96%N; 96%N; 96%N] ++ [106%N; 115%N; 111%N; 110%N]) in E.
    apply startsWith_split in E. rewrite E, <- app_assoc. apply startsWith_app. }
  assert (H4 : Str.startsWith (x :: b ++ rest) [10%N; 96%N; 96%N; 96%N] = false).
  { cbn [Str.startsWith]. destruct (x =? 10)%N; [|reflexivity]. cbn [andb].
    destruct b as [|y b]; cbn [app].
    { destruct rest as [|z r]; [reflexivity|]. now rewrite (Hrest0 z r eq_refl). }
    apply indexOf_fence_None_cons in Hb as [Hb _].
    change fence with [96%N; 96%N; 96%N] in Hb. cbn [Str.startsWith] in Hb.
    destruct (y =? 96)%N; [|reflexivity]. cbn [andb] in Hb |- *.
    destruct b as [|z b]; cbn [app].
    { destruct rest as [|w r]; [reflexivity|]. now rewrite (Hrest0 w r eq_refl). }
    destruct (z =? 96)%N; [|reflexivity]. cbn [andb] in Hb |- *.
    destruct b as [|w b]; cbn [app].
    { destruct rest as [|u r]; [reflexivity|]. now rewrite (Hrest0 u r eq_refl). }
    cbn [Str.startsWith] in Hb |- *. now rewrite Hb. }
  now rewrite H7, H4, H3.
Qed.

Lemma removeFences_plain (body : jsstring) :
  Str.indexOf body fence = None -> removeFencesFrom 0 body = body.
Proof.
  induction body as [|x b IH]; intros Hnone; [reflexivity|].
  cbn [removeFencesFrom].
  pose proof (fenceMatchLength_none x b [] Hnone (or_introl eq_refl)) as H0.
  rewrite app_nil_r in H0. rewrite H0.
  apply indexOf_fence_None_cons in Hnone as [_ Hb]. now rewrite IH.
Qed.

Lemma removeFences_closing (body : jsstring) :
  Str.indexOf body fence = None ->
  removeFencesFrom 0 (body ++ LF ++ fence) = body.
Proof.
  induction body as [|x b IH]; intros Hnone; [reflexivity|].
  cbn [app removeFencesFrom].
  rewrite (fenceMatchLength_none x b (LF ++ fence) Hnone
             (or_intror (ex_intro _ fence eq_refl))).
  apply indexOf_fence_None_cons in Hnone as [_ Hb]. now rewrite IH.
Qed.

(** X18. The answer of the model for a source that is an
    object with a truthy conclusion, as its text or inside a fence with
    the json tag, gives the item of that source with this conclusion; no
    fence may occur in the text of the object. *)
Theorem roamingTask_conclusion `{Host} (src : Source) (c : json) (fenced : bool) :
  let body := JSON.stringify (JObject [(js "conclusion", c)]) in
  wfJson c -> toBoolean c = true ->
  Str.includes body fence = false ->
  roamingTask src
    (Fulfilled
       (Some (JString (if fenced then js "```json" ++ LF ++ body ++ LF ++ fence
                       else body))))
  = inr {| source := source_file src;
           relevantText := content_chunk src;
           conclusion := c |}.
Proof.
  intros body Hwf Htruthy Hfence.
  assert (Hnone : Str.indexOf body fence = None).
  { unfold Str.includes in Hfence.
    destruct (Str.indexOf body fence); [discriminate|reflexivity]. }
  assert (Hremoved : removeFences
                       (if fenced then js "```json" ++ LF ++ body ++ LF ++ fence
                        else body) = body).
  { unfold removeFences. destruct fenced; [|now apply removeFences_plain].
    change (js "```json" ++ LF ++ body ++ LF ++ fence)
      with (96%N :: 96%N :: 96%N :: 106%N :: 115%N :: 111%N :: 110%N :: 10%N
            :: (body ++ LF ++ fence)).
    cbn [removeFencesFrom].
    change (fenceMatchLength _) with 8%nat at 1. cbn iota.
    now apply removeFences_closing. }
  unfold roamingTask. rewrite Hremoved.
  assert (Hobj : wfJson (JObject [(js "conclusion", c)])).
  { cbn [wfJson map fst canonicalKeys]. repeat split; [constructor|exact Hwf]. }
  unfold body. rewrite (parse_stringify _ Hobj).
  cbn [getProp ownProperty]. rewrite Str_eqb_refl. now rewrite Htruthy.
Qed.

Lemma roamingTask_conclusion_witness :
  @roamingTask exampleHost
    {| source_file := js "a.md"; content_chunk := js "first note";
       score := Number false [9%N] (-1) |}
    (Fulfilled (Some (JString (jq "```json
{'conclusion':'both notes agree'}
```"))))
  = inr {| source := js "a.md"; relevantText := js "first note";
           conclusion := JString (js "both notes agree") |}.
Proof.
  apply (@roamingTask_conclusion exampleHost
           {| source_file := js "a.md"; content_chunk := js "first note";
              score := Number false [9%N] (-1) |}
           (JString (js "both notes agree")) true).
  - exact I.
  - reflexivity.
  - vm_compute. reflexivity.
Defined.

(* ------------------------------------------------------------------ *)
(** ** parseAuditResponse: what a result can hold *)
(* ------------------------------------------------------------------ *)

Lemma reconstructIssue_text_truthy (candidate : json) (kept : AuditIssue) :
  reconstructIssue candidate = Some kept -> toBoolean (problematicText kept) = true.
Proof.
  unfold reconstructIssue.
  destruct candidate as [| | | |items|props]; try discriminate.
  cbn [getProp].
    destruct (ownProperty props (js "problematicText")) as [[| | |[|c s]| |]|] eqn:Htext;
      cbn [nonEmptyString negb];
      try (destruct (_ || _); [|discriminate]; intros [= <-]; reflexivity).
  - destruct (_ || _); [|discriminate]. intros [= <-]. cbn.
    now destruct b.
  - destruct (_ || _); [|discriminate]. intros [= <-]. cbn.
    now destruct n as [neg [|d ds] e|neg].
  - intros [= <-]. reflexivity.
Qed.

Lemma validIssues_text_truthy (issuesArray : list json) :
  Forall (fun i => toBoolean (problematicText i) = true) (validIssues issuesArray).
Proof.
  unfold validIssues. induction issuesArray as [|c l IH]; simpl; [constructor|].
  destruct (reconstructIssue c) as [kept|] eqn:E; simpl; [|exact IH].
  constructor; [|exact IH]. now apply (reconstructIssue_text_truthy c).
Qed.

(** X19. Every issue that [parseAuditResponse] returns
    has a truthy [problematicText]: the text of the candidate, or the
    placeholder. *)
Theorem parseAuditResponse_issues_have_text `{Host} (responseText : jsstring) :
  Forall (fun i => toBoolean (problematicText i) = true)
    (AuditResult.issues (parseAuditResponse responseText)).
Proof.
  unfold parseAuditResponse.
  destruct (negb _); [constructor|].
  destruct (ParseResult.data _) as [| | | |items|props]; try constructor.
  - apply validIssues_text_truthy.
  - destruct (ownProperty props (js "issues")) as [[| | | |items|]|];
      try apply validIssues_text_truthy;
      (destruct (_ && _); [apply validIssues_text_truthy|constructor]).
Qed.

(** X20. A result of [parseAuditResponse] never
    holds an error together with issues; it holds a raw response only
    together with an error, and then the raw response is the response
    itself. *)
Theorem parseAuditResponse_error_excludes_issues `{Host} (responseText : jsstring) :
  let r := parseAuditResponse responseText in
  (AuditResult.error r <> None -> AuditResult.issues r = [])
  /\ (AuditResult.rawResponse r <> None ->
      AuditResult.error r <> None /\ AuditResult.rawResponse r = Some responseText).
Proof.
  intros r. subst r. unfold parseAuditResponse, parseJsonResponse.
  destruct (structuralParse (Str.trim responseText)) as [|b|n|s|items|props] eqn:E;
    cbn [ParseResult.data].
  - destruct (isArray (JArray []) && hasNoIssuesPhrase responseText); cbn;
      split; intros Hset; try split; congruence.
  - destruct (negb (toBoolean (JBool b))); cbn; split; intros Hset; try split; congruence.
  - destruct (negb (toBoolean (JNumber n))); cbn; split; intros Hset; try split; congruence.
  - destruct (negb (toBoolean (JString s))); cbn; split; intros Hset; try split; congruence.
  - cbn. split; intros Hset; try split; congruence.
  - cbn [toBoolean negb].
    destruct (ownProperty props (js "issues")) as [[| | | |items|]|];
      cbn; try (split; intros Hset; try split; congruence);
      (destruct (_ && _); cbn; split; intros Hset; try split; congruence).
Qed.

(* ------------------------------------------------------------------ *)
(** ** parseAuditResponse: answers in the requested form *)
(* ------------------------------------------------------------------ *)

Lemma reconstructIssue_issueJson (i : AuditIssue) :
  nonEmptyString (Some (problematicText i)) = true ->
  reconstructIssue (issueJson i) = Some i.
Proof.
  destruct i as [text sug item expl]. cbn [problematicText nonEmptyString].
  destruct text as [| | |[|c s]| |]; try discriminate. intros _.
  vm_compute. reflexivity.
Qed.

Lemma validIssues_issueJson (l : list AuditIssue) :
  Forall (fun i => nonEmptyString (Some (problematicText i)) = true) l ->
  validIssues (map issueJson l) = l.
Proof.
  unfold validIssues. induction 1 as [|i l Hi _ IH]; [reflexivity|].
  cbn -[reconstructIssue issueJson].
  rewrite (reconstructIssue_issueJson i Hi). cbn -[reconstructIssue issueJson].
  now rewrite IH.
Qed.

Lemma issueKeys_canonical :
  canonicalKeys [js "problematicText"; js "suggestion"; js "checklistItem"; js "explanation"].
Proof.
  cbn [canonicalKeys].
  repeat match goal with
         | |- _ /\ _ => split
         | |- Forall _ [] => constructor
         | |- Forall _ (_ :: _) => constructor
         | |- True => exact I
         | |- _ <> _ => vm_compute; discriminate
         | |- _ = false => vm_compute; reflexivity
         end.
Qed.

Lemma wfJson_issueJson (i : AuditIssue) :
  nonEmptyString (Some (problematicText i)) = true -> wfJson (issueJson i).
Proof.
  destruct i as [text sug item expl]. cbn [problematicText nonEmptyString].
  destruct text as [| | |[|c s]| |]; try discriminate. intros _.
  unfold issueJson. cbn [wfJson map fst suggestion checklistItem explanation problematicText].
  split; [exact issueKeys_canonical|]. repeat split.
Qed.

(** X21. An answer in the form the audit prompt asks for, the
    text of an array of objects with the four fields, the first of them a
    string that is not empty, is read back as exactly these issues, in
    their order and without an error, provided no trailing-comma match
    occurs in the text. *)
Theorem parseAuditResponse_exact `{Host} (l : list AuditIssue) :
  Forall (fun i => nonEmptyString (Some (problematicText i)) = true) l ->
  hasTrailingComma (JSON.stringify (JArray (map issueJson l))) = false ->
  parseAuditResponse (JSON.stringify (JArray (map issueJson l)))
  = AuditResult.Make l None None.
Proof.
  intros Htext Hcomma. unfold parseAuditResponse.
  rewrite (parseJsonResponse_stringify json (JArray (map issueJson l))).
  - cbn. now rewrite validIssues_issueJson.
  - apply wfJson_array, Forall_map. eapply Forall_impl; [exact Htext|].
    intros i. apply wfJson_issueJson.
  - discriminate.
  - exact Hcomma.
Qed.

Lemma parseAuditResponse_exact_witness :
  let found := {| problematicText := JString (js "teh");
                  suggestion := js "the";
                  checklistItem := js "spelling";
                  explanation := js "a typing error" |} in
  @parseAuditResponse exampleHost (JSON.stringify (JArray (map issueJson [found])))
  = AuditResult.Make [found] None None.
Proof.
  intros found. apply (@parseAuditResponse_exact exampleHost [found]).
  - repeat constructor.
  - vm_compute. reflexivity.
Defined.

(** X22. The three accepted shapes agree: the text of an
    object that holds an array under [issues] gives what the text of that
    array gives, and the text of a single object with the properties
    [problematicText] and [suggestion] gives what the text of the array
    with this one object gives. *)
Theorem parseAuditResponse_shapes `{Host} :
  (forall items,
      wfJson (JArray items) ->
      hasTrailingComma (JSON.stringify (JArray items)) = false ->
      hasTrailingComma (JSON.stringify (JObject [(js "issues", JArray items)])) = false ->
      parseAuditResponse (JSON.stringify (JObject [(js "issues", JArray items)]))
      = parseAuditResponse (JSON.stringify (JArray items)))
  /\ (forall props,
        wfJson (JObject props) ->
        hasTrailingComma (JSON.stringify (JObject props)) = false ->
        hasTrailingComma (JSON.stringify (JArray [JObject props])) = false ->
        isArray (default JNull (ownProperty props (js "issues"))) = false ->
        hasProp props (js "problematicText") = true ->
        hasProp props (js "suggestion") = true ->
        parseAuditResponse (JSON.stringify (JObject props))
        = parseAuditResponse (JSON.stringify (JArray [JObject props]))).
Proof.
  split.
  - intros items Hwf Hc1 Hc2. unfold parseAuditResponse.
    rewrite (parseJsonResponse_stringify json (JArray items) Hwf ltac:(discriminate) Hc1).
    rewrite (parseJsonResponse_stringify json (JObject [(js "issues", JArray items)]));
      [reflexivity| |discriminate|exact Hc2].
    cbn [wfJson map fst canonicalKeys]. split; [split; [constructor|exact I]|].
    split; [exact Hwf|exact I].
  - intros props Hwf Hc1 Hc2 Hissues Htext Hsug. unfold parseAuditResponse.
    rewrite (parseJsonResponse_stringify json (JObject props) Hwf ltac:(discriminate) Hc1).
    rewrite (parseJsonResponse_stringify json (JArray [JObject props]));
      [| |discriminate|exact Hc2].
    + cbn [ParseResult.data toBoolean negb]. rewrite Htext, Hsug. cbn [andb].
      destruct (ownProperty props (js "issues")) as [[| | | |items|]|];
        try reflexivity. discriminate Hissues.
    + cbn [wfJson]. split; [exact Hwf|exact I].
Qed.

(** A single issue object, and the wrapped array  *)
Lemma parseAuditResponse_shapes_witness :
  let found := JObject [(js "problematicText", JString (js "teh"));
                        (js "suggestion", JString (js "the"))] in
  @parseAuditResponse exampleHost (JSON.stringify found)
  = @parseAuditResponse exampleHost (JSON.stringify (JArray [found])).
Proof.
  intros found.
  apply (proj2 (@parseAuditResponse_shapes exampleHost)
           [(js "problematicText", JString (js "teh"));
            (js "suggestion", JString (js "the"))]);
    [|vm_compute; reflexivity..].
  cbn [wfJson map fst canonicalKeys].
  repeat match goal with
         | |- _ /\ _ => split
         | |- Forall _ [] => constructor
         | |- Forall _ (_ :: _) => constructor
         | |- True => exact I
         | |- _ <> _ => vm_compute; discriminate
         | |- _ = false => vm_compute; reflexivity
         end.
Defined.

(** X23. An answer that is the JSON text of [false], of
    zero or of the empty string is taken for an audit without issues: the
    result holds no issue, no error and no raw response. *)
Theorem parseAuditResponse_falsy_answer `{Host} (responseText : jsstring) (v : json) :
  hasTrailingComma (Str.trim responseText) = false ->
  JSON.parse (Str.trim responseText) = Some v ->
  toBoolean v = false -> v <> JNull ->
  parseAuditResponse responseText = AuditResult.Make [] None None.
Proof.
  intros Hcomma Hparse Hfalsy Hnull. unfold parseAuditResponse.
  rewrite (parseJsonResponse_valid json responseText v Hcomma Hparse Hnull).
  cbn [ParseResult.data ParseResult.error ParseResult.rawResponse].
  now rewrite Hfalsy.
Qed.

Lemma parseAuditResponse_falsy_answer_witness :
  @parseAuditResponse exampleHost (js " false ") = AuditResult.Make [] None None.
Proof.
  apply (@parseAuditResponse_falsy_answer exampleHost (js " false ") (JBool false));
    try (vm_compute; reflexivity).
  discriminate.
Defined.

(* ------------------------------------------------------------------ *)
(** ** handleAudit and handleAuditAll *)
(* ------------------------------------------------------------------ *)

Lemma AuditResult_eta (r : AuditResult.t) :
  AuditResult.Make (AuditResult.issues r) (AuditResult.error r) (AuditResult.rawResponse r)
  = r.
Proof. now destruct r. Qed.

(** The audit with one model stores, under that model, the entry made
    from its call when making it does not throw. *)
Lemma handleAudit_entry `{Host} model executionMode direct net entry :
  auditEntry (callGenerativeAi executionMode direct net).1 = inr entry ->
  handleAudit model executionMode direct net = {[ model := entry ]}.
Proof.
  unfold handleAudit, auditEntry.
  destruct (callGenerativeAi executionMode direct net).1 as [value|reason].
  - intros ->. now rewrite AuditResult_eta.
  - now intros [= <-].
Qed.

(** X24. Whenever the audit with all models stores its results, the
    audit with one model stores an entry under that model alone, and it
    is the entry that the audit with all models stores under it when the
    call for that model meets the same answers. *)
Theorem handleAudit_agrees_with_handleAuditAll `{Host}
    (executionMode : ExecutionMode) (direct : ModelProvider -> Settled)
    (net : ModelProvider -> nat -> FetchOutcome) (model : ModelProvider)
    (results : gmap ModelProvider AuditResult.t) :
  handleAuditAll executionMode direct net = inr results ->
  let single := handleAudit model executionMode (direct model) (net model) in
  dom single = {[ model ]}
  /\ single !! model = results !! model.
Proof.
  intros Hall single. subst single.
  destruct (auditAll_inr allModels executionMode direct net results Hall)
    as [_ Hlookup].
  destruct (Hlookup model (elem_of_allModels model)) as (entry & Hentry & ->).
  rewrite (handleAudit_entry model executionMode _ _ entry Hentry).
  split; [apply dom_singleton_L|apply lookup_singleton_eq].
Qed.

(** An audit in backend mode in which the first provider cannot be
    reached and the others find a misspelt word. *)
Lemma handleAudit_agrees_with_handleAuditAll_witness :
  let net := fun (p : ModelProvider) (_ : nat) =>
    match p with
    | gemini => FetchFailed (Error_ true (js "Failed to fetch"))
    | _ => FetchResponse 200
             (BodyText (jq "[{'problematicText':'teh','suggestion':'the'}]"))
    end in
  let found :=
    AuditResult.Make
      [ {| problematicText := JString (js "teh"); suggestion := js "the";
           checklistItem := js "通用规则"; explanation := js "无详细说明" |} ]
      None None in
  let unreachable :=
    AuditResult.Make []
      (Some (networkFailureMessage (js "https://notes.example/api"))) None in
  @handleAudit exampleHost openai backend (Rejected (Error [])) (net openai)
    !! openai = Some found
  /\ @handleAudit exampleHost gemini backend (Rejected (Error [])) (net gemini)
       !! gemini = Some unreachable.
Proof.
  intros net found unreachable.
  set (results := list_to_map
                    [(gemini, unreachable); (openai, found); (deepseek, found);
                     (ali, found); (depOCR, found); (doubao, found)]
                  : gmap ModelProvider AuditResult.t).
  assert (Hall : @handleAuditAll exampleHost backend (fun _ => Rejected (Error [])) net
                 = inr results) by (vm_compute; reflexivity).
  split.
  - exact (proj2 (@handleAudit_agrees_with_handleAuditAll exampleHost backend
                    (fun _ => Rejected (Error [])) net openai results Hall)).
  - exact (proj2 (@handleAudit_agrees_with_handleAuditAll exampleHost backend
                    (fun _ => Rejected (Error [])) net gemini results Hall)).
Defined.

(* ------------------------------------------------------------------ *)
(** ** The identifiers of the issues on display *)
(* ------------------------------------------------------------------ *)

Lemma digitChars_inj a b : JSON.digitChars a = JSON.digitChars b -> a = b.
Proof.
  unfold JSON.digitChars. revert b.
  induction a as [|x a IH]; intros [|y b]; try discriminate; [reflexivity|].
  cbn [map]. intros [= Hxy Hab]. f_equal; [lia|now apply IH].
Qed.

Lemma decimal_inj n m : JSON.decimal n = JSON.decimal m -> n = m.
Proof.
  unfold JSON.decimal. rewrite !uintChars_digits. intros Heq%digitChars_inj.
  apply (f_equal JSON.digitsToN) in Heq. rewrite !digitsToN_uint in Heq.
  now rewrite !DecimalN.Unsigned.of_to in Heq.
Qed.

Ltac eval_js_in H :=
  repeat match type of H with
         | context [js ?s] =>
             let x := eval vm_compute in (js s) in change (js s) with x in H
         end.

Lemma issueId_inj p i q j : issueId p i = issueId q j -> p = q /\ i = j.
Proof.
  unfold issueId, providerName. intros Heq.
  destruct p, q; eval_js_in Heq; cbn [app] in Heq; try discriminate Heq;
    (split; [reflexivity|]);
    injection Heq as Heq; apply decimal_inj in Heq; lia.
Qed.

Lemma entries_keys_sublist (auditResults : gmap ModelProvider AuditResult.t)
    (l : list ModelProvider) :
  sublist (map fst (omap (fun p => pair p <$> auditResults !! p) l)) l.
Proof.
  induction l as [|p l IH]; cbn; [constructor|].
  destruct (auditResults !! p); cbn; [now constructor|now constructor].
Qed.

Lemma entries_NoDup (auditResults : gmap ModelProvider AuditResult.t) :
  NoDup (map fst (entries auditResults)).
Proof.
  eapply sublist_NoDup; [apply allModels_NoDup|apply entries_keys_sublist].
Qed.

(** The identifiers of the issues of one provider. *)
Lemma ids_of_provider (model : ModelProvider) (l : list AuditIssue) (k : nat) :
  map IssueWithId.id
    (imap (fun index issue => IssueWithId.Make issue model (issueId model (k + index))) l)
  = map (issueId model) (seq k (length l)).
Proof.
  revert k. induction l as [|x l IH]; intros k; [reflexivity|].
  cbn [imap map length seq IssueWithId.id]. rewrite Nat.add_0_r. f_equal.
  rewrite <- (IH (S k)). f_equal. apply imap_ext. intros i y _. cbn.
  f_equal. f_equal. lia.
Qed.

Lemma allIssuesWithIds_ids (es : list (ModelProvider * AuditResult.t)) :
  map IssueWithId.id
    (flat_map (fun '(model, result) =>
                 imap (fun index issue =>
                         IssueWithId.Make issue model (issueId model index))
                   (AuditResult.issues result)) es)
  = flat_map (fun '(model, result) =>
                map (issueId model) (seq 0 (length (AuditResult.issues result)))) es.
Proof.
  induction es as [|[m res] es IH]; [reflexivity|].
  cbn [flat_map]. rewrite map_app, IH. f_equal.
  apply (ids_of_provider m (AuditResult.issues res) 0).
Qed.

Lemma ids_NoDup (es : list (ModelProvider * AuditResult.t)) :
  NoDup (map fst es) ->
  NoDup (flat_map (fun '(model, result) =>
                     map (issueId model) (seq 0 (length (AuditResult.issues result)))) es).
Proof.
  induction es as [|[m res] es IH]; cbn [flat_map map fst]; [constructor|].
  intros [Hm Hes]%NoDup_cons. apply NoDup_app. split; [|split].
  - apply NoDup_fmap_2_strong; [|apply NoDup_seq].
    intros i j _ _ Hij. now destruct (issueId_inj _ _ _ _ Hij).
  - intros x Hx Hin.
    apply list_elem_of_fmap in Hx as (i & -> & _).
    apply list_elem_of_In, in_flat_map in Hin as ([q res'] & Hq & Hin).
    apply in_map_iff in Hin as (j & Hij & _).
    destruct (issueId_inj _ _ _ _ Hij) as [-> _].
    apply Hm. apply list_elem_of_fmap. exists (m, res'). split; [reflexivity|].
    now apply list_elem_of_In.
  - now apply IH.
Qed.

Lemma find_by_key {A} (key : A -> jsstring) (l : list A) (k : nat) (x : A) :
  NoDup (map key l) -> l !! k = Some x ->
  find (fun y => Str.eqb (key y) (key x)) l = Some x.
Proof.
  revert k. induction l as [|y l IH]; intros k Hnd Hk; [discriminate|].
  cbn [map] in Hnd. apply NoDup_cons in Hnd as [Hy Hl].
  destruct k as [|k]; cbn in Hk.
  - injection Hk as ->. cbn [find]. now rewrite Str_eqb_refl.
  - cbn [find]. rewrite Str_eqb_neq; [now apply (IH k)|].
    intros Heq. apply Hy. rewrite Heq. apply list_elem_of_fmap.
    exists x. split; [reflexivity|]. now apply list_elem_of_lookup_2 in Hk.
Qed.

(** X25. No two issues on display have the same identifier,
    so that looking an issue up by its identifier finds that issue. *)
Theorem allIssuesWithIds_unique (auditResults : gmap ModelProvider AuditResult.t) :
  NoDup (map IssueWithId.id (allIssuesWithIds auditResults))
  /\ (forall k x,
        allIssuesWithIds auditResults !! k = Some x ->
        findIssue auditResults (IssueWithId.id x) = Some x).
Proof.
  assert (Hnd : NoDup (map IssueWithId.id (allIssuesWithIds auditResults))).
  { unfold allIssuesWithIds. rewrite allIssuesWithIds_ids.
    apply ids_NoDup, entries_NoDup. }
  split; [exact Hnd|]. intros k x Hk. unfold findIssue.
  now apply (find_by_key IssueWithId.id _ k).
Qed.

(* ------------------------------------------------------------------ *)
(** ** renderOriginalTextWithHighlight *)
(* ------------------------------------------------------------------ *)

(** One code unit of the term, escaped or not, is read back as
    itself. *)
Lemma patternLiteral_escaped (c : N) (pattern : jsstring) :
  patternLiteral ((if isSyntaxCharacter c then [92%N; c] else [c]) ++ pattern)
  = cons c <$> patternLiteral pattern.
Proof.
  destruct (isSyntaxCharacter c) eqn:Hc; cbn [app patternLiteral].
  - now rewrite N.eqb_refl, Hc.
  - assert (Hb : (c =? 92)%N = false).
    { destruct (c =? 92)%N eqn:E; [|reflexivity].
      apply N.eqb_eq in E. subst c. discriminate Hc. }
    now rewrite Hb, Hc.
Qed.

(** X26. The escaped term is a pattern without operators: it
    matches the term, code unit by code unit, and nothing else. *)
Theorem escapeRegExp_literal (term : jsstring) :
  patternLiteral (escapeRegExp term) = Some term.
Proof.
  induction term as [|c term IH]; [reflexivity|].
  unfold escapeRegExp in *. cbn [flat_map].
  now rewrite patternLiteral_escaped, IH.
Qed.

Lemma splitAtTerm_concat (term : jsstring) (s : jsstring) :
  term <> [] ->
  forall skip piece,
    concat (splitAtTerm term skip piece s) = piece ++ drop skip s.
Proof.
  intros Hterm. induction s as [|c r IH]; intros skip piece.
  - cbn. now rewrite drop_nil, app_nil_r.
  - cbn [splitAtTerm]. destruct skip as [|k]; [|now rewrite IH].
    destruct (Str.startsWith (c :: r) term) eqn:E.
    + cbn [concat]. rewrite IH. cbn [app drop]. f_equal.
      apply startsWith_split in E.
      destruct term as [|t term']; [congruence|].
      cbn [length drop] in E |- *.
      replace (S (length term') - 1)%nat with (length term') by lia.
      exact (eq_sym E).
    + rewrite IH. cbn [drop]. now rewrite <- app_assoc.
Qed.

Lemma markParts_text (term selectedId : jsstring) (parts : list jsstring) :
  forall firstMatch,
    map partText (markParts term selectedId firstMatch parts) = parts.
Proof.
  induction parts as [|p parts IH]; intros firstMatch; [reflexivity|].
  cbn [markParts]. destruct (Str.eqb p term); cbn [map partText]; now rewrite IH.
Qed.

Lemma markParts_one_id (term selectedId : jsstring) (parts : list jsstring) :
  forall firstMatch,
    (length (List.filter carriesId (markParts term selectedId firstMatch parts))
     <= if firstMatch then 1 else 0)%nat.
Proof.
  induction parts as [|p parts IH]; intros firstMatch; cbn [markParts];
    [destruct firstMatch; cbn; lia|].
  destruct (Str.eqb p term).
  - specialize (IH false). destruct firstMatch; cbn in *; lia.
  - cbn [List.filter carriesId]. apply IH.
Qed.

(** X27. Whatever issue is selected: when the
    text is rendered, the parts on display spell the text, nothing added
    and nothing lost, and at most one of them carries the identifier that
    the view scrolls to; and when rendering throws, the selected issue has
    a truthy [problematicText] that is not a string. *)
Theorem renderOriginalTextWithHighlight_shows_text (text : jsstring)
    (selectedIssueId : option jsstring)
    (auditResults : gmap ModelProvider AuditResult.t) :
  match renderOriginalTextWithHighlight text selectedIssueId auditResults with
  | Some r =>
      renderedText r = text
      /\ match r with
         | Highlighted parts => (length (List.filter carriesId parts) <= 1)%nat
         | _ => True
         end
  | None =>
      exists i selected,
        selectedIssueId = Some i
        /\ findIssue auditResults i = Some selected
        /\ toBoolean (problematicText (IssueWithId.issue selected)) = true
        /\ asString (Some (problematicText (IssueWithId.issue selected))) = None
  end.
Proof.
  unfold renderOriginalTextWithHighlight.
  destruct text as [|c0 text0]; [now split|].
  set (text := c0 :: text0).
  destruct selectedIssueId as [[|c i]|]; try (now split).
  destruct (findIssue auditResults (c :: i)) as [selected|] eqn:Hfind; [|now split].
  destruct (problematicText (IssueWithId.issue selected)) as [|b|x|term|items|props] eqn:Hterm;
    cbn [toBoolean negb]; try (now split).
  - destruct b; cbn [negb]; [|now split].
    exists (c :: i), selected. rewrite Hterm. now repeat split.
  - destruct x as [neg [|d ds] e|neg]; cbn [toBoolean negb]; [now split| |];
      exists (c :: i), selected; rewrite Hterm; now repeat split.
  - destruct term as [|t term']; cbn [negb]; [now split|].
    destruct (Str.trim (t :: term')) eqn:Htrim; [now split|].
    assert (Hliteral : patternLiteral (escapeRegExp (t :: term')) = Some (t :: term')).
    { generalize (t :: term'). intros term. unfold escapeRegExp.
      induction term as [|x term IH]; [reflexivity|].
      cbn [flat_map]. now rewrite patternLiteral_escaped, IH. }
    rewrite Hliteral. cbn [renderedText]. split.
    + rewrite markParts_text. now rewrite splitAtTerm_concat.
    + apply (markParts_one_id _ _ _ true).
  - exists (c :: i), selected. rewrite Hterm. now repeat split.
  - exists (c :: i), selected. rewrite Hterm. now repeat split.
Qed.
